(** * NFT marketplace client: synchronisation and transaction layer

    A shallow embedding of the React pages of the marketplace client
    ([MarketView.tsx], [MyNFTs], [AuctionView], [NFTFusion.tsx]) and the
    properties of their fetch, query and transaction handlers.

    Conventions of the embedding.
    - A JavaScript [number] that carries a currency amount is an IEEE-754
      binary64 value: Rocq's primitive [float], whose [*], [/], [-], [<=?]
      are the operations JavaScript performs.
    - Ledger integers (NFT ids, auction ids, rarity tiers, timestamps) are
      [Z].  A JavaScript number holds them exactly up to 2^53
      ([JS.safe_integer]); the properties that need it say so, and where
      the code converts with [Number] the embedding rounds
      ([JS.Number_of_integer]).
    - A string is a [string] of bytes (UTF-8); [TextDecoder] is the UTF-8
      decoder with its replacement of malformed sequences.
    - An [async] handler is a function from the component state and the
      responses of the outside world to the new state and the log of what
      the handler did (gateway reads, wallet requests, user messages).
    - A session of a page is a list of events, each with the world it
      meets: what the user does, the timers and effects, and the wallet
      reporting another account. *)

From Stdlib Require Import ZArith List String Ascii Bool Lia.
From Stdlib Require Import Floats Uint63.
From Stdlib Require Import Permutation Sorted.
Import ListNotations.

Local Open Scope string_scope.
Local Open Scope Z_scope.

(** ** JavaScript numbers *)

Module JS.

(** [b64 z]: the binary64 value nearest to the integer [z]
    (round to nearest, ties to even), what reading an integer literal or
    converting an integer-valued string yields. *)
Definition b64 (z : Z) : float :=
  SF2Prim (binary_normalize prec emax z 0 false).

Fixpoint digits10_pos (fuel : nat) (n : Z) : Z :=
  match fuel with
  | O => 1
  | S f => if n <? 10 then 1 else 1 + digits10_pos f (n / 10)
  end.

(** Number of decimal digits of a non-negative integer. *)
Definition digits10 (n : Z) : Z :=
  digits10_pos (S (Z.to_nat (Z.log2 n))) n.

(** [dec2float neg s e]: the binary64 value nearest to [s * 10^e]
    ([s >= 0]), negated when [neg].  Magnitudes far outside the binary64
    range are clamped before any power of ten is built. *)
Definition dec2float (neg : bool) (s e : Z) : float :=
  let v : spec_float :=
    if s =? 0 then S754_zero false
    else if 400 <? digits10 s + e then S754_infinity false
    else if digits10 s + e <? -400 then S754_zero false
    else if 0 <=? e then binary_normalize prec emax (s * 10 ^ e) 0 false
    else SFdiv prec emax
           (S754_finite false (Z.to_pos s) 0)
           (S754_finite false (Z.to_pos (10 ^ (- e))) 0) in
  let x := SF2Prim v in
  if neg then PrimFloat.opp x else x.

(** *** parseFloat *)

Definition is_digit (c : ascii) : bool :=
  let n := nat_of_ascii c in (48 <=? n)%nat && (n <=? 57)%nat.

Definition digit_val (c : ascii) : Z := Z.of_nat (nat_of_ascii c) - 48.

(** JavaScript white space and line terminators that are one byte long. *)
Definition is_space (c : ascii) : bool :=
  let n := nat_of_ascii c in
  (n =? 32)%nat || ((9 <=? n)%nat && (n <=? 13)%nat).

Fixpoint skip_space (s : string) : string :=
  match s with
  | String c r => if is_space c then skip_space r else s
  | EmptyString => s
  end.

(** Reads a run of decimal digits: the value accumulated on [acc], the
    number of digits read, and the rest of the string. *)
Fixpoint read_digits (s : string) (acc : Z) (n : Z) : Z * Z * string :=
  match s with
  | String c r =>
      if is_digit c then read_digits r (10 * acc + digit_val c) (n + 1)
      else (acc, n, s)
  | EmptyString => (acc, n, s)
  end.

(** The exponent part [e[+-]ddd] of a decimal literal; [0] when the
    string does not start with a complete exponent part. *)
Definition read_exponent (s : string) : Z :=
  match s with
  | String c r =>
      if (Ascii.eqb c "e" || Ascii.eqb c "E")%bool then
        match r with
        | String "+" r' =>
            let '(v, n, _) := read_digits r' 0 0 in if n =? 0 then 0 else v
        | String "-" r' =>
            let '(v, n, _) := read_digits r' 0 0 in if n =? 0 then 0 else - v
        | _ =>
            let '(v, n, _) := read_digits r 0 0 in if n =? 0 then 0 else v
        end
      else 0
  | EmptyString => 0
  end.

Definition starts_with (p s : string) : bool :=
  String.eqb p (substring 0 (String.length p) s).

(** The unsigned part of a [StrDecimalLiteral] prefix. *)
Definition parse_unsigned (neg : bool) (s : string) : float :=
  if starts_with "Infinity" s then
    if neg then neg_infinity else infinity
  else
    let '(ip, ni, r1) := read_digits s 0 0 in
    let '(m, nf, r2) :=
      match r1 with
      | String "." r => let '(m, nf, r2) := read_digits r ip 0 in (m, nf, r2)
      | _ => (ip, 0, r1)
      end in
    if (ni + nf =? 0) then nan
    else dec2float neg m (read_exponent r2 - nf).

(** [parseFloat s]: the longest prefix of the trimmed string that is a
    decimal literal, as a number; [NaN] when there is none. *)
Definition parseFloat (s : string) : float :=
  match skip_space s with
  | String "-" r => parse_unsigned true r
  | String "+" r => parse_unsigned false r
  | r => parse_unsigned false r
  end.

(** *** Number.prototype.toString, radix 10 *)

Fixpoint Zdigits_rev (fuel : nat) (n : Z) : string :=
  match fuel with
  | O => ""
  | S f =>
      let d := String (ascii_of_nat (Z.to_nat (48 + n mod 10))) "" in
      if n <? 10 then d else Zdigits_rev f (n / 10) ++ d
  end.

Definition show_nat (n : Z) : string :=
  Zdigits_rev (S (Z.to_nat (Z.log2 n))) n.

(** Decimal rendering of an integer, as [toString] gives for an
    integer-valued number below 10^21. *)
Definition show_Z (z : Z) : string :=
  if z <? 0 then "-" ++ show_nat (- z) else show_nat z.

Fixpoint zeros (n : nat) : string :=
  match n with O => "" | S k => "0" ++ zeros k end.

(** The exact value of a positive finite number as a fraction [a / b]. *)
Definition exact_fraction (m : positive) (e : Z) : Z * Z :=
  if 0 <=? e then (Zpos m * 2 ^ e, 1) else (Zpos m, 2 ^ (- e)).

(** [n] with [10^(n-1) <= a/b < 10^n]. *)
Fixpoint below_one (fuel : nat) (a b t : Z) : Z :=
  match fuel with
  | O => 1 - t
  | S f => if b <=? a * 10 ^ t then 1 - t else below_one f a b (t + 1)
  end.

Definition decimal_point (a b : Z) : Z :=
  if b <=? a then digits10 (a / b) else below_one 400 a b 1.

(** For a digit count [k]: the [k]-digit integer [s] and the decimal
    point [n'] with [s * 10^(n'-k)] nearest to [a/b] that converts back
    to [x], if there is one. *)
Definition candidate (x : float) (a b n k : Z) : option (Z * Z) :=
  let '(p, q) := if k <=? n then (a, b * 10 ^ (n - k))
                 else (a * 10 ^ (k - n), b) in
  let lo := p / q in
  let hi := lo + 1 in
  let fix_up s := if s =? 10 ^ k then (10 ^ (k - 1), n + 1) else (s, n) in
  let ok '(s, n') :=
    (10 ^ (k - 1) <=? s) && PrimFloat.eqb (dec2float false s (n' - k)) x in
  let first := if 2 * (p mod q) <=? q then lo else hi in
  let second := if 2 * (p mod q) <=? q then hi else lo in
  if ok (fix_up first) then Some (fix_up first)
  else if ok (fix_up second) then Some (fix_up second)
  else None.

Fixpoint shortest (fuel : nat) (x : float) (a b n k : Z) : Z * Z * Z :=
  match fuel with
  | O => (a / b, n, k)
  | S f =>
      match candidate x a b n k with
      | Some (s, n') => (s, n', k)
      | None => shortest f x a b n (k + 1)
      end
  end.

(** Layout of the digits [s] ([k] of them) with decimal point [n], as
    Number::toString prescribes. *)
Definition layout (s n k : Z) : string :=
  let ds := show_nat s in
  if (k <=? n) && (n <=? 21) then ds ++ zeros (Z.to_nat (n - k))
  else if (0 <? n) && (n <=? 21) then
    substring 0 (Z.to_nat n) ds ++ "." ++
    substring (Z.to_nat n) (Z.to_nat (k - n)) ds
  else if (-6 <? n) && (n <=? 0) then
    "0." ++ zeros (Z.to_nat (- n)) ++ ds
  else
    let ex := (if n - 1 <? 0 then "-" else "+") ++ show_nat (Z.abs (n - 1)) in
    if k =? 1 then ds ++ "e" ++ ex
    else substring 0 1 ds ++ "." ++
         substring 1 (Z.to_nat (k - 1)) ds ++ "e" ++ ex.

(** [toString x]: the shortest decimal string that converts back to [x]. *)
Definition toString (x : float) : string :=
  match Prim2SF x with
  | S754_nan => "NaN"
  | S754_zero _ => "0"
  | S754_infinity false => "Infinity"
  | S754_infinity true => "-Infinity"
  | S754_finite sg m e =>
      let '(a, b) := exact_fraction m e in
      let '(s, n, k) :=
        shortest 17 (PrimFloat.abs x) a b (decimal_point a b) 1 in
      (if sg then "-" else "") ++ layout s n k
  end.

(** Comparisons and truthiness. *)
Definition truthy_string (s : string) : bool :=
  negb (String.eqb s "").

(** An integer that a number holds exactly: every integer up to 2^53 in
    magnitude is one.  On these the integers of the embedding and the
    numbers of JavaScript are the same. *)
Definition safe_integer (z : Z) : bool := Z.abs z <=? 2 ^ 53.

(** [Number(v)] for an integer [v] of the ledger (below 2^64), as the
    integer that the resulting number is: the nearest one that binary64
    holds. *)
Definition Number_of_integer (z : Z) : Z :=
  match Prim2SF (b64 z) with
  | S754_finite s m e => cond_Zopp s (Z.shiftl (Zpos m) e)
  | _ => 0
  end.

End JS.

(** ** The outside world: ledger gateway, wallet agent, user messages *)

Inductive Level := LSuccess | LError | LWarning.

(** The intent handed to the wallet agent. *)
Record Payload := mkPayload {
  p_type : string;
  p_function : string;
  p_type_arguments : list string;
  p_arguments : list string
}.

(** What a handler does to the outside world, in order. *)
Inductive Action :=
| View (fn : string) (args : list string)
| GetAccountResource (addr rtype : string)
| SignAndSubmit (p : Payload)
| WaitForTransaction (hash : string)
| Message (l : Level) (text : string)
| ConsoleError (text : string).

Definition Log := list Action.

(** Ledger records as the gateway returns them.  Text fields hold the bytes
    the ledger stores; amounts are integers in minor units (octas). *)
Record RawNftDetails := mkRawNftDetails {
  raw_name : string;
  raw_description : string;
  raw_uri : string;
  raw_rarity : Z
}.

Record RawAuction := mkRawAuction {
  raw_auction_id : Z;
  raw_nft_id : Z;
  raw_seller : string;
  raw_starting_price : Z;
  raw_current_bid : Z;
  raw_highest_bidder : string;
  raw_end_time : Z;
  raw_nft_details : RawNftDetails
}.

(** A record of the marketplace resource ([response.data.nfts]). *)
Record RawNFT := mkRawNFT {
  rn_id : Z;
  rn_owner : string;
  rn_name : string;
  rn_description : string;
  rn_uri : string;
  rn_price : Z;
  rn_for_sale : bool;
  rn_rarity : Z;
  rn_listed_at : Z
}.

(** The tuple [get_nft_details] returns:
    [id, owner, name, description, uri, price, for_sale, rarity]. *)
Record RawDetails := mkRawDetails {
  rd_id : Z;
  rd_owner : string;
  rd_name : string;
  rd_description : string;
  rd_uri : string;
  rd_price : Z;
  rd_for_sale : bool;
  rd_rarity : Z
}.

(** The tuple [get_last_minted_nft] returns. *)
Record RawMinted := mkRawMinted {
  rm_id : Z;
  rm_name : string;
  rm_description : string;
  rm_uri : string;
  rm_rarity : Z
}.

(** The responses of the outside world during one handler run.  A promise
    that rejects (or a call that throws) is [None]. *)
Record World := mkWorld {
  (** [Date.now()], in milliseconds. *)
  date_now : Z;
  (** [client.view] of [get_all_auctions]: [response[0]] when it is an
      array, [Some None] when it is not. *)
  view_get_all_auctions : string -> option (option (list RawAuction));
  (** [client.view] of [get_all_nfts_for_owner] with the arguments
      [marketplaceAddr, owner, limit, offset]: the id list. *)
  view_get_all_nfts_for_owner :
    string -> string -> string -> string -> option (list Z);
  (** [client.view] of [get_nft_details] for one id. *)
  view_get_nft_details : string -> Z -> option RawDetails;
  (** [client.view] of [get_last_minted_nft]. *)
  view_get_last_minted_nft : string -> string -> option RawMinted;
  (** [client.getAccountResource(addr, Marketplace)]: its [data.nfts]. *)
  getAccountResource : string -> option (list RawNFT);
  (** The wallet agent: the transaction hash, or a rejection. *)
  signAndSubmitTransaction : Payload -> option string;
  (** [client.waitForTransaction]: whether it resolves. *)
  waitForTransaction : string -> bool
}.

(** *** TextDecoder

    [new TextDecoder().decode(bytes)] decodes UTF-8.  Strings are byte
    strings here (UTF-8), so a well-formed sequence is copied; a malformed
    one is replaced by U+FFFD, and a byte order mark at the start is
    dropped. *)

(** The UTF-8 encoding of U+FFFD and of the byte order mark U+FEFF. *)
Definition replacement : string :=
  String "239" (String "191" (String "189" "")).
Definition byte_order_mark : string :=
  String "239" (String "187" (String "191" "")).

(** The decoder inside a sequence of several bytes: the bytes read so far,
    the number of bytes still to come, and the bounds of the next byte. *)
Record Pending := mkPending {
  seen : string;
  needed : nat;
  lower : nat;
  upper : nat
}.

(** A byte met between two sequences. *)
Definition utf8_start (c : ascii) : string * option Pending :=
  let b := nat_of_ascii c in
  if (b <=? 127)%nat then (String c "", None)
  else if ((194 <=? b) && (b <=? 223))%nat then
    ("", Some (mkPending (String c "") 1 128 191))
  else if ((224 <=? b) && (b <=? 239))%nat then
    ("", Some (mkPending (String c "") 2
                 (if (b =? 224)%nat then 160 else 128)
                 (if (b =? 237)%nat then 159 else 191)))
  else if ((240 <=? b) && (b <=? 244))%nat then
    ("", Some (mkPending (String c "") 3
                 (if (b =? 240)%nat then 144 else 128)
                 (if (b =? 244)%nat then 143 else 191)))
  else (replacement, None).

(** One byte: what is written out, and the state after it.  A byte that
    cannot continue the sequence ends it with a replacement character and
    is read again as the start of the next one. *)
Definition utf8_feed (st : option Pending) (c : ascii)
  : string * option Pending :=
  match st with
  | None => utf8_start c
  | Some p =>
      let b := nat_of_ascii c in
      if ((lower p <=? b) && (b <=? upper p))%nat then
        match needed p with
        | S (S k) =>
            ("", Some (mkPending (seen p ++ String c "") (S k) 128 191))
        | _ => (seen p ++ String c "", None)
        end
      else
        let '(out, st') := utf8_start c in (replacement ++ out, st')
  end.

(** A sequence cut short by the end of the bytes is replaced as well. *)
Fixpoint utf8_decode (st : option Pending) (bytes : string) : string :=
  match bytes with
  | EmptyString => match st with Some _ => replacement | None => "" end
  | String c r =>
      let '(out, st') := utf8_feed st c in out ++ utf8_decode st' r
  end.

Definition decodeText (bytes : string) : string :=
  let text := utf8_decode None bytes in
  if JS.starts_with byte_order_mark text
  then substring 3 (String.length text - 3) text else text.

Definition OCTAS : float := 100000000%float.

Definition fn_name (marketplaceAddr name : string) : string :=
  marketplaceAddr ++ "::NFTMarketplace::" ++ name.

Definition entry_function_payload (fn : string) (args : list string) : Payload :=
  mkPayload "entry_function_payload" fn [] args.

(** No intent reached the wallet agent. *)
Definition no_wallet_call (log : Log) : Prop :=
  forall p, ~ In (SignAndSubmit p) log.

(** No request of any kind left the client. *)
Fixpoint no_network_call (log : Log) : bool :=
  match log with
  | [] => true
  | (Message _ _ | ConsoleError _) :: r => no_network_call r
  | _ => false
  end.

Definition is_error_message (a : Action) : bool :=
  match a with Message LError _ => true | _ => false end.

(** An error was shown to the user ([message.error]). *)
Definition error_surfaced (log : Log) : bool := existsb is_error_message log.

(** ** AuctionView *)

Module AuctionView.

Record NftDetails := mkNftDetails {
  nd_name : string;
  nd_description : string;
  nd_uri : string;
  nd_rarity : Z
}.

Record Auction := mkAuction {
  id : Z;
  nftId : Z;
  seller : string;
  startingPrice : float;
  currentBid : float;
  highestBidder : string;
  endTime : Z;
  nftDetails : NftDetails
}.

Record State := mkState {
  marketplaceAddr : string;
  account : option string;
  auctions : list Auction;
  isLoading : bool;
  currentPage : Z;
  selectedAuction : option Auction;
  bidAmount : string;
  isBidModalVisible : bool
}.

Definition pageSize : Z := 8.

Definition initial (addr : string) (acct : option string) : State :=
  mkState addr acct [] false 1 None "" false.

(** [account] is what [useWallet] hands the page at each render. *)
Definition setAccount (v : option string) (s : State) : State :=
  mkState (marketplaceAddr s) v (auctions s) (isLoading s) (currentPage s)
          (selectedAuction s) (bidAmount s) (isBidModalVisible s).
Definition setAuctions (v : list Auction) (s : State) : State :=
  mkState (marketplaceAddr s) (account s) v (isLoading s) (currentPage s)
          (selectedAuction s) (bidAmount s) (isBidModalVisible s).
Definition setIsLoading (v : bool) (s : State) : State :=
  mkState (marketplaceAddr s) (account s) (auctions s) v (currentPage s)
          (selectedAuction s) (bidAmount s) (isBidModalVisible s).
Definition setCurrentPage (v : Z) (s : State) : State :=
  mkState (marketplaceAddr s) (account s) (auctions s) (isLoading s) v
          (selectedAuction s) (bidAmount s) (isBidModalVisible s).
Definition setSelectedAuction (v : option Auction) (s : State) : State :=
  mkState (marketplaceAddr s) (account s) (auctions s) (isLoading s)
          (currentPage s) v (bidAmount s) (isBidModalVisible s).
Definition setBidAmount (v : string) (s : State) : State :=
  mkState (marketplaceAddr s) (account s) (auctions s) (isLoading s)
          (currentPage s) (selectedAuction s) v (isBidModalVisible s).
Definition setIsBidModalVisible (v : bool) (s : State) : State :=
  mkState (marketplaceAddr s) (account s) (auctions s) (isLoading s)
          (currentPage s) (selectedAuction s) (bidAmount s) v.

(** The mapping of [fetchAuctions] over [response[0]]. *)
Definition decodeAuction (a : RawAuction) : Auction :=
  mkAuction (raw_auction_id a) (raw_nft_id a) (raw_seller a)
    (JS.b64 (raw_starting_price a) / OCTAS)%float
    (JS.b64 (raw_current_bid a) / OCTAS)%float
    (raw_highest_bidder a) (raw_end_time a)
    (mkNftDetails
       (decodeText (raw_name (raw_nft_details a)))
       (decodeText (raw_description (raw_nft_details a)))
       (decodeText (raw_uri (raw_nft_details a)))
       (raw_rarity (raw_nft_details a))).

(** [fetchAuctions] (AuctionView, lines 37-71): one read of
    [get_all_auctions]; the snapshot is replaced only when the read
    succeeds and [response[0]] is an array. *)
Definition fetchAuctions (w : World) (s : State) : State * Log :=
  let s1 := setIsLoading true s in
  let call := View (fn_name (marketplaceAddr s) "get_all_auctions") [] in
  match view_get_all_auctions w (marketplaceAddr s) with
  | Some (Some raws) =>
      (setIsLoading false (setAuctions (map decodeAuction raws) s1), [call])
  | Some None => (setIsLoading false s1, [call])
  | None =>
      (setIsLoading false s1,
       [call; ConsoleError "Error fetching auctions:";
        Message LError "Failed to fetch auctions."])
  end.

(** [handleBidClick] (lines 80-87). *)
Definition handleBidClick (auction : Auction) (s : State) : State * Log :=
  match account s with
  | None => (s, [Message LWarning "Please connect your wallet to place a bid"])
  | Some _ => (setIsBidModalVisible true (setSelectedAuction (Some auction) s), [])
  end.

(** [handleBidCancel] (lines 89-93). *)
Definition handleBidCancel (s : State) : State * Log :=
  (setBidAmount "" (setSelectedAuction None (setIsBidModalVisible false s)), []).

(** The payload [handleBidSubmit] builds: the amount is
    [parseFloat(bidAmount) * 100000000] and its [toString()]. *)
Definition place_bid_payload (addr : string) (auctionId : Z) (bid : string)
  : Payload :=
  entry_function_payload (fn_name addr "place_bid")
    [addr; JS.show_Z auctionId; JS.toString (JS.parseFloat bid * OCTAS)%float].

(** [handleBidSubmit] (lines 95-119): returns at once unless an auction is
    selected, the amount is a non-empty string and a wallet is connected;
    then signs, waits for the transaction and refetches.  A rejection at
    any point lands in the [catch]. *)
Definition handleBidSubmit (w : World) (s : State) : State * Log :=
  match selectedAuction s, JS.truthy_string (bidAmount s), account s with
  | Some auction, true, Some _ =>
      let payload :=
        place_bid_payload (marketplaceAddr s) (id auction) (bidAmount s) in
      let failed :=
        [ConsoleError "Error placing bid:";
         Message LError "Failed to place bid. Please try again."] in
      match signAndSubmitTransaction w payload with
      | None => (s, SignAndSubmit payload :: failed)
      | Some hash =>
          if waitForTransaction w hash then
            let s1 := setBidAmount "" (setIsBidModalVisible false s) in
            let '(s2, l) := fetchAuctions w s1 in
            (s2, SignAndSubmit payload :: WaitForTransaction hash ::
                 Message LSuccess "Bid placed successfully!" :: l)
          else
            (s, SignAndSubmit payload :: WaitForTransaction hash :: failed)
      end
  | _, _, _ => (s, [])
  end.

(** [Array.prototype.slice(from, to)]: an index below 0 counts from the
    end, and both indexes are brought into the bounds of the array. *)
Definition slice {A} (from to : Z) (l : list A) : list A :=
  let len := Z.of_nat (List.length l) in
  let rel i := if i <? 0 then Z.max (len + i) 0 else Z.min i len in
  firstn (Z.to_nat (rel to - rel from)) (skipn (Z.to_nat (rel from)) l).

(** [auctions.slice((currentPage - 1) * pageSize, currentPage * pageSize)]. *)
Definition paginatedAuctions (s : State) : list Auction :=
  slice ((currentPage s - 1) * pageSize) (currentPage s * pageSize) (auctions s).

(** [isAuctionEnded] (lines 123-125): [Date.now() > endTime * 1000]. *)
Definition isAuctionEnded (now endTime : Z) : bool :=
  now >? endTime * 1000.

(** The [disabled] property of the bid modal's submit button. *)
Definition bidSubmitDisabled (s : State) : bool :=
  negb (JS.truthy_string (bidAmount s)) ||
  match selectedAuction s with
  | Some a => (JS.parseFloat (bidAmount s) <=? currentBid a)%float
  | None => false
  end.

(** The [disabled] property of a card's Place Bid button. *)
Definition placeBidDisabled (s : State) (a : Auction) : bool :=
  match account s with
  | Some address => String.eqb address (seller a)
  | None => false
  end.

(** What happens on the rendered page: what the user does, the polling
    timer, and the wallet reporting another account (a connection, a
    disconnection, a switch). *)
Inductive UIEvent :=
| ClickPlaceBid (card : nat)
| TypeBidAmount (v : string)
| ClickSubmitBid
| ClickCancel
| ChangePage (page : Z)
| PollTimer
| WalletChange (acct : option string).

(** One event on the page rendered at [date_now w].  A control that
    is not rendered, or is disabled, does nothing.  [ClickPlaceBid card]
    is a click on the Place Bid button of the card at position [card] of
    the current page.  No effect of the page depends on the account: a
    change of the wallet leaves an open dialog as it is. *)
Definition step (w : World) (s : State) (e : UIEvent) : State * Log :=
  match e with
  | ClickPlaceBid card =>
      match nth_error (paginatedAuctions s) card with
      | Some a =>
          if negb (isLoading s)
             && negb (isAuctionEnded (date_now w) (endTime a))
             && negb (placeBidDisabled s a)
          then handleBidClick a s else (s, [])
      | None => (s, [])
      end
  | TypeBidAmount v =>
      match isBidModalVisible s, selectedAuction s with
      | true, Some _ => (setBidAmount v s, [])
      | _, _ => (s, [])
      end
  | ClickSubmitBid =>
      if isBidModalVisible s && negb (bidSubmitDisabled s)
      then handleBidSubmit w s else (s, [])
  | ClickCancel =>
      if isBidModalVisible s then handleBidCancel s else (s, [])
  | ChangePage page =>
      if isLoading s then (s, []) else (setCurrentPage page s, [])
  | PollTimer => fetchAuctions w s
  | WalletChange acct => (setAccount acct s, [])
  end.

(** A session: each event with the world it meets. *)
Fixpoint run (evs : list (World * UIEvent)) (s : State) : State * Log :=
  match evs with
  | [] => (s, [])
  | (w, e) :: r =>
      let '(s1, l1) := step w s e in
      let '(s2, l2) := run r s1 in
      (s2, (l1 ++ l2)%list)
  end.

End AuctionView.

(** ** NFTFusion *)

Module NFTFusion.

Record NFT := mkNFT {
  id : Z;
  name : string;
  description : string;
  uri : string;
  rarity : Z
}.

Record State := mkState {
  marketplaceAddr : string;
  account : option string;
  userNFTs : list NFT;
  selectedNFTs : list NFT;
  isLoading : bool;
  isFusing : bool;
  fusionResult : option NFT
}.

Definition initial (addr : string) (acct : option string) : State :=
  mkState addr acct [] [] false false None.

(** [account] is what [useWallet] hands the page at each render. *)
Definition setAccount (v : option string) (s : State) : State :=
  mkState (marketplaceAddr s) v (userNFTs s) (selectedNFTs s) (isLoading s)
          (isFusing s) (fusionResult s).
Definition setUserNFTs (v : list NFT) (s : State) : State :=
  mkState (marketplaceAddr s) (account s) v (selectedNFTs s) (isLoading s)
          (isFusing s) (fusionResult s).
Definition setSelectedNFTs (v : list NFT) (s : State) : State :=
  mkState (marketplaceAddr s) (account s) (userNFTs s) v (isLoading s)
          (isFusing s) (fusionResult s).
Definition setIsLoading (v : bool) (s : State) : State :=
  mkState (marketplaceAddr s) (account s) (userNFTs s) (selectedNFTs s) v
          (isFusing s) (fusionResult s).
Definition setIsFusing (v : bool) (s : State) : State :=
  mkState (marketplaceAddr s) (account s) (userNFTs s) (selectedNFTs s)
          (isLoading s) v (fusionResult s).
Definition setFusionResult (v : option NFT) (s : State) : State :=
  mkState (marketplaceAddr s) (account s) (userNFTs s) (selectedNFTs s)
          (isLoading s) (isFusing s) v.

(** The mapping of [fetchUserNFTs] over the answers (lines 44-50): the id
    and the rarity go through [Number]. *)
Definition decodeDetails (d : RawDetails) : NFT :=
  mkNFT (JS.Number_of_integer (rd_id d))
        (decodeText (rd_name d)) (decodeText (rd_description d))
        (decodeText (rd_uri d)) (JS.Number_of_integer (rd_rarity d)).

(** [Promise.all] over the detail reads: every read is issued; the
    result is the list of all answers, or a rejection when one rejects. *)
Fixpoint all_details (w : World) (addr : string) (ids : list Z)
  : option (list NFT) :=
  match ids with
  | [] => Some []
  | i :: r =>
      match view_get_nft_details w addr i, all_details w addr r with
      | Some d, Some l => Some (decodeDetails d :: l)
      | _, _ => None
      end
  end.

Definition detail_call (addr : string) (i : Z) : Action :=
  View (fn_name addr "get_nft_details") [addr; JS.show_Z i].

Definition owner_ids_call (addr owner : string) : Action :=
  View (fn_name addr "get_all_nfts_for_owner") [addr; owner; "100"; "0"].

Definition fetch_failed : Log :=
  [ConsoleError "Error fetching user NFTs:";
   Message LError "Failed to fetch your NFTs."].

(** [fetchUserNFTs] (NFTFusion.tsx, lines 25-60): the id list with limit
    ["100"] and offset ["0"], then the details of every id; any rejection
    lands in the one [catch] and leaves [userNFTs] as it was. *)
Definition fetchUserNFTs (w : World) (s : State) : State * Log :=
  match account s with
  | None => (s, [])
  | Some address =>
      let addr := marketplaceAddr s in
      let s1 := setIsLoading true s in
      match view_get_all_nfts_for_owner w addr address "100" "0" with
      | None =>
          (setIsLoading false s1, owner_ids_call addr address :: fetch_failed)
      | Some nftIds =>
          let calls :=
            owner_ids_call addr address :: map (detail_call addr) nftIds in
          match all_details w addr nftIds with
          | Some nfts => (setIsLoading false (setUserNFTs nfts s1), calls)
          | None => (setIsLoading false s1, (calls ++ fetch_failed)%list)
          end
      end
  end.

Definition is_selected (nft : NFT) (selected : NFT) : bool :=
  id selected =? id nft.

(** [handleNFTSelect] (NFTFusion.tsx, lines 68-76). *)
Definition handleNFTSelect (nft : NFT) (s : State) : State * Log :=
  if existsb (is_selected nft) (selectedNFTs s) then
    (setSelectedNFTs
       (filter (fun selected => negb (is_selected nft selected))
               (selectedNFTs s)) s, [])
  else if (Z.of_nat (List.length (selectedNFTs s)) <? 2) then
    (setSelectedNFTs (selectedNFTs s ++ [nft])%list s, [])
  else
    (s, [Message LWarning "You can only select two NFTs for fusion."]).

Definition fuse_payload (addr : string) (a b : Z) : Payload :=
  entry_function_payload (fn_name addr "fuse_nfts")
    [addr; JS.show_Z a; JS.show_Z b].

Definition decodeMinted (m : RawMinted) : NFT :=
  mkNFT (JS.Number_of_integer (rm_id m))
        (decodeText (rm_name m)) (decodeText (rm_description m))
        (decodeText (rm_uri m)) (JS.Number_of_integer (rm_rarity m)).

Definition fusion_failed : Log :=
  [ConsoleError "Error during NFT fusion:";
   Message LError "Failed to fuse NFTs. Please try again."].

(** [handleFusion] (NFTFusion.tsx, lines 78-120): refuses unless exactly
    two NFTs are selected; then signs, waits, reads the minted NFT and
    refetches.  [isFusing] is reset in the [finally]. *)
Definition handleFusion (w : World) (s : State) : State * Log :=
  match selectedNFTs s with
  | [a; b] =>
      let addr := marketplaceAddr s in
      let payload := fuse_payload addr (id a) (id b) in
      match signAndSubmitTransaction w payload with
      | None => (setIsFusing false s, SignAndSubmit payload :: fusion_failed)
      | Some hash =>
          let sent := [SignAndSubmit payload; WaitForTransaction hash] in
          if waitForTransaction w hash then
            match account s with
            | None => (setIsFusing false s, (sent ++ fusion_failed)%list)
            | Some address =>
                let call :=
                  View (fn_name addr "get_last_minted_nft") [addr; address] in
                match view_get_last_minted_nft w addr address with
                | None =>
                    (setIsFusing false s,
                     (sent ++ call :: fusion_failed)%list)
                | Some m =>
                    let s1 := setFusionResult (Some (decodeMinted m))
                                (setIsFusing true s) in
                    let '(s2, l) := fetchUserNFTs w s1 in
                    (setIsFusing false s2,
                     (sent ++ call ::
                      Message LSuccess "NFT Fusion successful!" :: l)%list)
                end
            end
          else (setIsFusing false s, (sent ++ fusion_failed)%list)
      end
  | _ => (s, [Message LError "Please select exactly two NFTs for fusion."])
  end.

(** The [disabled] property of the Fuse button. *)
Definition fuseDisabled (s : State) : bool :=
  negb (Z.of_nat (List.length (selectedNFTs s)) =? 2) || isFusing s.

Inductive UIEvent :=
| LoadNFTs
| ClickCard (card : nat)
| ClickFuse
| CloseResult
| WalletChange (acct : option string).

(** One event on the rendered page: the effect that loads the owner's
    NFTs, a click on the card at position [card] of the NFT grid, a click
    on the Fuse button, closing the result dialog, or the wallet reporting
    another account (a connection, a disconnection, a switch).  The effect
    of lines 62-66 depends on [account]: it runs again after the change
    and fetches the NFTs of the new account, if there is one.  The
    selection is a state of its own and stays. *)
Definition step (w : World) (s : State) (e : UIEvent) : State * Log :=
  match e with
  | WalletChange acct => fetchUserNFTs w (setAccount acct s)
  | LoadNFTs => fetchUserNFTs w s
  | ClickCard card =>
      match isLoading s, nth_error (userNFTs s) card with
      | false, Some nft => handleNFTSelect nft s
      | _, _ => (s, [])
      end
  | ClickFuse =>
      if negb (isLoading s) && negb (fuseDisabled s)
      then handleFusion w s else (s, [])
  | CloseResult => (setFusionResult None s, [])
  end.

Fixpoint run (evs : list (World * UIEvent)) (s : State) : State * Log :=
  match evs with
  | [] => (s, [])
  | (w, e) :: r =>
      let '(s1, l1) := step w s e in
      let '(s2, l2) := run r s1 in
      (s2, (l1 ++ l2)%list)
  end.

(** The selection invariant: at most two NFTs, with pairwise distinct
    ids. *)
Definition selection_ok (sel : list NFT) : Prop :=
  (List.length sel <= 2)%nat /\ NoDup (map id sel).

End NFTFusion.

(** ** Array.prototype.sort *)

Section ArraySort.
Context {A : Type}.

(** The comparator's verdict on [(a, b)]: [Lt] when its result is
    negative ([a] first), [Gt] when positive, [Eq] otherwise. *)
Variable cmp : A -> A -> comparison.

Fixpoint sort_insert (x : A) (l : list A) : list A :=
  match l with
  | [] => [x]
  | y :: r =>
      match cmp x y with
      | Gt => y :: sort_insert x r
      | _ => x :: y :: r
      end
  end.

(** [Array.prototype.sort(comparefn)]: the stable sort, which is what
    ECMAScript prescribes for a consistent comparator (for another
    comparator the order is the engine's own choice). *)
Fixpoint Array_sort (l : list A) : list A :=
  match l with
  | [] => []
  | x :: r => sort_insert x (Array_sort r)
  end.

(** [a] is placed no later than [b]. *)
Definition not_after (a b : A) : Prop := cmp a b <> Gt.

(** [b] compares equal to [a]. *)
Definition tied (a b : A) : bool :=
  match cmp a b with Eq => true | _ => false end.

(** The comparator is consistent on the elements of [l]: a strict weak
    order read off its sign. *)
Definition consistent (l : list A) : Prop :=
  (forall a b, In a l -> In b l -> cmp a b = Gt -> cmp b a <> Gt) /\
  (forall a b c, In a l -> In b l -> In c l ->
                 cmp a b <> Gt -> cmp b c <> Gt -> cmp a c <> Gt) /\
  (forall a b c, In a l -> In b l -> In c l ->
                 cmp a b = Eq -> cmp a c = Eq -> cmp b c = Eq).

End ArraySort.

(** The sign of a comparator's numeric result; [NaN] counts as [+0]. *)
Definition sign_of_number (v : float) : comparison :=
  if (v <? 0)%float then Lt else if (0 <? v)%float then Gt else Eq.

(** ** MarketView *)

Module MarketView.

Record NFT := mkNFT {
  id : Z;
  owner : string;
  name : string;
  description : string;
  uri : string;
  price : float;
  for_sale : bool;
  rarity : Z;
  listed_at : Z
}.

Record State := mkState {
  marketplaceAddr : string;
  nfts : list NFT;
  filteredNfts : list NFT;
  (** The [rarity] state (the name [rarity] is taken by the field of
      [NFT]); ['all'] is [None]. *)
  rarityFilter : option Z;
  currentPage : Z;
  isBuyModalVisible : bool;
  selectedNft : option NFT;
  isLoading : bool;
  priceRange : float * float;
  (** The two ends of the date picker, in milliseconds; [None] is [null]. *)
  dateRange : option Z * option Z;
  sortBy : string;
  searchTerm : string
}.

Definition pageSize : Z := 8.

Definition initial (addr : string) : State :=
  mkState addr [] [] None 1 false None true (0%float, 1000%float)
          (None, None) "price_asc" "".

Definition setNfts (v : list NFT) (s : State) : State :=
  mkState (marketplaceAddr s) v (filteredNfts s) (rarityFilter s)
    (currentPage s) (isBuyModalVisible s) (selectedNft s) (isLoading s)
    (priceRange s) (dateRange s) (sortBy s) (searchTerm s).
Definition setFilteredNfts (v : list NFT) (s : State) : State :=
  mkState (marketplaceAddr s) (nfts s) v (rarityFilter s)
    (currentPage s) (isBuyModalVisible s) (selectedNft s) (isLoading s)
    (priceRange s) (dateRange s) (sortBy s) (searchTerm s).
Definition setRarity (v : option Z) (s : State) : State :=
  mkState (marketplaceAddr s) (nfts s) (filteredNfts s) v
    (currentPage s) (isBuyModalVisible s) (selectedNft s) (isLoading s)
    (priceRange s) (dateRange s) (sortBy s) (searchTerm s).
Definition setCurrentPage (v : Z) (s : State) : State :=
  mkState (marketplaceAddr s) (nfts s) (filteredNfts s) (rarityFilter s)
    v (isBuyModalVisible s) (selectedNft s) (isLoading s)
    (priceRange s) (dateRange s) (sortBy s) (searchTerm s).
Definition setIsBuyModalVisible (v : bool) (s : State) : State :=
  mkState (marketplaceAddr s) (nfts s) (filteredNfts s) (rarityFilter s)
    (currentPage s) v (selectedNft s) (isLoading s)
    (priceRange s) (dateRange s) (sortBy s) (searchTerm s).
Definition setSelectedNft (v : option NFT) (s : State) : State :=
  mkState (marketplaceAddr s) (nfts s) (filteredNfts s) (rarityFilter s)
    (currentPage s) (isBuyModalVisible s) v (isLoading s)
    (priceRange s) (dateRange s) (sortBy s) (searchTerm s).
Definition setIsLoading (v : bool) (s : State) : State :=
  mkState (marketplaceAddr s) (nfts s) (filteredNfts s) (rarityFilter s)
    (currentPage s) (isBuyModalVisible s) (selectedNft s) v
    (priceRange s) (dateRange s) (sortBy s) (searchTerm s).
Definition setSortBy (v : string) (s : State) : State :=
  mkState (marketplaceAddr s) (nfts s) (filteredNfts s) (rarityFilter s)
    (currentPage s) (isBuyModalVisible s) (selectedNft s) (isLoading s)
    (priceRange s) (dateRange s) v (searchTerm s).

(** The mapping of [fetchNfts] over the resource's records. *)
Definition decodeNft (now : Z) (n : RawNFT) : NFT :=
  mkNFT (rn_id n) (rn_owner n)
    (decodeText (rn_name n)) (decodeText (rn_description n))
    (decodeText (rn_uri n))
    (JS.b64 (rn_price n) / OCTAS)%float
    (rn_for_sale n) (rn_rarity n)
    (if rn_listed_at n =? 0 then now else rn_listed_at n).

(** [fetchNfts] (MarketView.tsx, lines 65-99). *)
Definition fetchNfts (w : World) (s : State) : State * Log :=
  let s1 := setIsLoading true s in
  let addr := marketplaceAddr s in
  let call := GetAccountResource addr (fn_name addr "Marketplace") in
  match getAccountResource w addr with
  | Some nftList =>
      let decodedNfts := map (decodeNft (date_now w)) nftList in
      (setIsLoading false (setFilteredNfts decodedNfts (setNfts decodedNfts s1)),
       [call])
  | None =>
      (setIsLoading false s1,
       [call; ConsoleError "Error fetching NFTs:";
        Message LError "Failed to fetch NFTs."])
  end.

(** [String.prototype.toLowerCase] on the letters A to Z.  The letters
    outside ASCII, which JavaScript lowers as well, are left as they are:
    the embedding of the search is exact on ASCII text. *)
Definition lower_ascii (c : ascii) : ascii :=
  let n := nat_of_ascii c in
  if ((65 <=? n) && (n <=? 90))%nat then ascii_of_nat (n + 32) else c.

Fixpoint toLowerCase (s : string) : string :=
  match s with
  | EmptyString => EmptyString
  | String c r => String (lower_ascii c) (toLowerCase r)
  end.

(** [hay.includes(needle)]. *)
Definition includes (hay needle : string) : bool :=
  match index 0 needle hay with Some _ => true | None => false end.

(** The comparator of each sort key; [None] for a key the switch does
    not know, which leaves the order as it is.  Every comparator subtracts
    two numbers: a date or a rarity enters the subtraction as the number
    that JavaScript holds for it. *)
Definition comparator (key : string) : option (NFT -> NFT -> comparison) :=
  if String.eqb key "price_asc" then
    Some (fun a b => sign_of_number (price a - price b)%float)
  else if String.eqb key "price_desc" then
    Some (fun a b => sign_of_number (price b - price a)%float)
  else if String.eqb key "date_asc" then
    Some (fun a b =>
            sign_of_number (JS.b64 (listed_at a) - JS.b64 (listed_at b))%float)
  else if String.eqb key "date_desc" then
    Some (fun a b =>
            sign_of_number (JS.b64 (listed_at b) - JS.b64 (listed_at a))%float)
  else if String.eqb key "rarity_asc" then
    Some (fun a b =>
            sign_of_number (JS.b64 (rarity a) - JS.b64 (rarity b))%float)
  else if String.eqb key "rarity_desc" then
    Some (fun a b =>
            sign_of_number (JS.b64 (rarity b) - JS.b64 (rarity a))%float)
  else None.

Definition applySort (key : string) (l : list NFT) : list NFT :=
  match comparator key with
  | Some cmp => Array_sort cmp l
  | None => l
  end.

(** The filters of [applyFilters], in the order it applies them. *)
Definition applyFilter (s : State) (l : list NFT) : list NFT :=
  let l1 :=
    match rarityFilter s with
    | Some r => filter (fun nft => rarity nft =? r) l
    | None => l
    end in
  let l2 :=
    filter (fun nft => (fst (priceRange s) <=? price nft)%float
                       && (price nft <=? snd (priceRange s))%float) l1 in
  let l3 :=
    match dateRange s with
    | (Some d0, Some d1) =>
        filter (fun nft => (d0 <=? listed_at nft) && (listed_at nft <=? d1)) l2
    | _ => l2
    end in
  if JS.truthy_string (searchTerm s) then
    let lowercaseTerm := toLowerCase (searchTerm s) in
    filter (fun nft => includes (toLowerCase (name nft)) lowercaseTerm
                       || includes (toLowerCase (description nft)) lowercaseTerm)
           l3
  else l3.

(** [applyFilters] (MarketView.tsx, lines 140-192): filter, sort, store the
    result and go back to page 1. *)
Definition applyFilters (s : State) : State :=
  setCurrentPage 1
    (setFilteredNfts (applySort (sortBy s) (applyFilter s (nfts s))) s).

(** [Array.prototype.slice(from, to)]: an index below 0 counts from the
    end, and both indexes are brought into the bounds of the array. *)
Definition slice {A} (from to : Z) (l : list A) : list A :=
  let len := Z.of_nat (List.length l) in
  let rel i := if i <? 0 then Z.max (len + i) 0 else Z.min i len in
  firstn (Z.to_nat (rel to - rel from)) (skipn (Z.to_nat (rel from)) l).

(** [filteredNfts.slice((currentPage - 1) * pageSize, currentPage *
    pageSize)]. *)
Definition paginatedNfts (s : State) : list NFT :=
  slice ((currentPage s - 1) * pageSize) (currentPage s * pageSize)
        (filteredNfts s).

(** The [total] property of the pagination control. *)
Definition paginationTotal (s : State) : Z :=
  Z.of_nat (List.length (filteredNfts s)).

Definition purchase_payload (addr : string) (nft : NFT) : Payload :=
  entry_function_payload (fn_name addr "purchase_nft")
    [addr; JS.show_Z (id nft); JS.toString (price nft * OCTAS)%float].

(** [handleConfirmPurchase] (MarketView.tsx, lines 115-138). *)
Definition handleConfirmPurchase (w : World) (s : State) : State * Log :=
  match selectedNft s with
  | None => (s, [])
  | Some nft =>
      let payload := purchase_payload (marketplaceAddr s) nft in
      let failed :=
        [ConsoleError "Error purchasing NFT:";
         Message LError "Failed to purchase NFT."] in
      match signAndSubmitTransaction w payload with
      | None => (s, SignAndSubmit payload :: failed)
      | Some hash =>
          if waitForTransaction w hash then
            let '(s1, l) := fetchNfts w (setIsBuyModalVisible false s) in
            (s1, SignAndSubmit payload :: WaitForTransaction hash ::
                 Message LSuccess "NFT purchased successfully!" :: l)
          else
            (s, SignAndSubmit payload :: WaitForTransaction hash :: failed)
      end
  end.

End MarketView.

(** ** MyNFTs *)

Module MyNFTs.

Record NFT := mkNFT {
  id : Z;
  name : string;
  description : string;
  uri : string;
  rarity : Z;
  price : float;
  for_sale : bool
}.

Record State := mkState {
  account : option string;
  currentPage : Z;
  nfts : list NFT;
  totalNFTs : Z;
  isModalVisible : bool;
  selectedNft : option NFT;
  salePrice : string;
  isAuctionModalVisible : bool;
  auctionStartingPrice : string;
  (** The chosen end time as [moment.unix()] gives it; [None] is [null]. *)
  auctionEndTime : option Z;
  isLoading : bool
}.

Definition pageSize : Z := 8.

Definition marketplaceAddr : string :=
  "0x75cfca25296896f907a457e20a245f9af304cb1e48723d864e17f2e08ad93159".

Definition initial (acct : option string) : State :=
  mkState acct 1 [] 0 false None "" false "" None false.

Definition setNfts (v : list NFT) (s : State) : State :=
  mkState (account s) (currentPage s) v (totalNFTs s) (isModalVisible s)
    (selectedNft s) (salePrice s) (isAuctionModalVisible s)
    (auctionStartingPrice s) (auctionEndTime s) (isLoading s).
Definition setTotalNFTs (v : Z) (s : State) : State :=
  mkState (account s) (currentPage s) (nfts s) v (isModalVisible s)
    (selectedNft s) (salePrice s) (isAuctionModalVisible s)
    (auctionStartingPrice s) (auctionEndTime s) (isLoading s).
Definition setIsModalVisible (v : bool) (s : State) : State :=
  mkState (account s) (currentPage s) (nfts s) (totalNFTs s) v
    (selectedNft s) (salePrice s) (isAuctionModalVisible s)
    (auctionStartingPrice s) (auctionEndTime s) (isLoading s).
Definition setSelectedNft (v : option NFT) (s : State) : State :=
  mkState (account s) (currentPage s) (nfts s) (totalNFTs s)
    (isModalVisible s) v (salePrice s) (isAuctionModalVisible s)
    (auctionStartingPrice s) (auctionEndTime s) (isLoading s).
Definition setSalePrice (v : string) (s : State) : State :=
  mkState (account s) (currentPage s) (nfts s) (totalNFTs s)
    (isModalVisible s) (selectedNft s) v (isAuctionModalVisible s)
    (auctionStartingPrice s) (auctionEndTime s) (isLoading s).
Definition setIsAuctionModalVisible (v : bool) (s : State) : State :=
  mkState (account s) (currentPage s) (nfts s) (totalNFTs s)
    (isModalVisible s) (selectedNft s) (salePrice s) v
    (auctionStartingPrice s) (auctionEndTime s) (isLoading s).
Definition setAuctionStartingPrice (v : string) (s : State) : State :=
  mkState (account s) (currentPage s) (nfts s) (totalNFTs s)
    (isModalVisible s) (selectedNft s) (salePrice s)
    (isAuctionModalVisible s) v (auctionEndTime s) (isLoading s).
Definition setAuctionEndTime (v : option Z) (s : State) : State :=
  mkState (account s) (currentPage s) (nfts s) (totalNFTs s)
    (isModalVisible s) (selectedNft s) (salePrice s)
    (isAuctionModalVisible s) (auctionStartingPrice s) v (isLoading s).
Definition setIsLoading (v : bool) (s : State) : State :=
  mkState (account s) (currentPage s) (nfts s) (totalNFTs s)
    (isModalVisible s) (selectedNft s) (salePrice s)
    (isAuctionModalVisible s) (auctionStartingPrice s) (auctionEndTime s) v.

Definition decodeDetails (d : RawDetails) : NFT :=
  mkNFT (rd_id d) (decodeText (rd_name d)) (decodeText (rd_description d))
        (decodeText (rd_uri d)) (rd_rarity d)
        (JS.b64 (rd_price d) / OCTAS)%float (rd_for_sale d).

Definition owner_ids_call (owner : string) : Action :=
  View (fn_name marketplaceAddr "get_all_nfts_for_owner")
       [marketplaceAddr; owner; "100"; "0"].

Definition detail_call (i : Z) : Action :=
  View (fn_name marketplaceAddr "get_nft_details")
       [marketplaceAddr; JS.show_Z i].

(** What the detail reads give, each inside its own [try]: the NFT, or an
    entry on the console and [null], which the final [filter] drops. *)
Fixpoint detail_outcomes (w : World) (ids : list Z) : list NFT * Log :=
  match ids with
  | [] => ([], [])
  | i :: r =>
      let '(l, errors) := detail_outcomes w r in
      match view_get_nft_details w marketplaceAddr i with
      | Some d => (decodeDetails d :: l, errors)
      | None =>
          (l, ConsoleError ("Error fetching details for NFT ID " ++
                            JS.show_Z i ++ ":") :: errors)
      end
  end.

(** The detail reads under [Promise.all]: every read is started, in the
    order of the ids, before any of them answers; the failures are logged
    as the answers come in. *)
Definition fetch_details (w : World) (ids : list Z) : list NFT * Log :=
  let '(l, errors) := detail_outcomes w ids in
  (l, (map detail_call ids ++ errors)%list).

(** [fetchUserNFTs] of [MyNFTs] (lines 356-432): the id list with limit
    ["100"] and offset ["0"]; a failure of that read lands in the outer
    [catch]. *)
Definition fetchUserNFTs (w : World) (s : State) : State * Log :=
  match account s with
  | None => (s, [])
  | Some address =>
      let s1 := setIsLoading true s in
      match view_get_all_nfts_for_owner w marketplaceAddr address "100" "0" with
      | None =>
          (setIsLoading false s1,
           [owner_ids_call address; ConsoleError "Error fetching NFTs:";
            Message LError "Failed to fetch your NFTs."])
      | Some nftIds =>
          let s2 := setTotalNFTs (Z.of_nat (List.length nftIds)) s1 in
          match nftIds with
          | [] => (setIsLoading false (setNfts [] s2), [owner_ids_call address])
          | _ =>
              let '(userNFTs, log) := fetch_details w nftIds in
              (setIsLoading false (setNfts userNFTs s2),
               owner_ids_call address :: log)
          end
      end
  end.

Definition list_payload (nftId : Z) (price : string) : Payload :=
  entry_function_payload (fn_name marketplaceAddr "list_for_sale")
    [marketplaceAddr; JS.show_Z nftId;
     JS.toString (JS.parseFloat price * OCTAS)%float].

(** [handleConfirmListing] (lines 453-477). *)
Definition handleConfirmListing (w : World) (s : State) : State * Log :=
  match selectedNft s, JS.truthy_string (salePrice s) with
  | Some nft, true =>
      let payload := list_payload (id nft) (salePrice s) in
      let failed :=
        [ConsoleError "Error listing NFT for sale:";
         Message LError "Failed to list NFT for sale."] in
      match signAndSubmitTransaction w payload with
      | None => (s, SignAndSubmit payload :: failed)
      | Some hash =>
          if waitForTransaction w hash then
            let '(s1, l) :=
              fetchUserNFTs w (setSalePrice "" (setIsModalVisible false s)) in
            (s1, SignAndSubmit payload :: WaitForTransaction hash ::
                 Message LSuccess "NFT listed for sale successfully!" :: l)
          else
            (s, SignAndSubmit payload :: WaitForTransaction hash :: failed)
      end
  | _, _ => (s, [])
  end.

Definition auction_payload (nftId : Z) (startingPrice : string) (endTime : Z)
  : Payload :=
  entry_function_payload (fn_name marketplaceAddr "create_auction")
    [marketplaceAddr; JS.show_Z nftId;
     JS.toString (JS.parseFloat startingPrice * OCTAS)%float;
     JS.show_Z endTime].

(** [createAuction] (lines 484-513). *)
Definition createAuction (w : World) (nftId : Z) (startingPrice : string)
           (endTime : Z) (s : State) : State * Log :=
  match account s with
  | None =>
      (s, [Message LError "Please connect your wallet to create an auction."])
  | Some _ =>
      let payload := auction_payload nftId startingPrice endTime in
      let failed :=
        [ConsoleError "Error creating auction:";
         Message LError "Failed to create auction. Please try again."] in
      match signAndSubmitTransaction w payload with
      | None => (s, SignAndSubmit payload :: failed)
      | Some hash =>
          if waitForTransaction w hash then
            let '(s1, l) :=
              fetchUserNFTs w
                (setAuctionEndTime None
                   (setAuctionStartingPrice ""
                      (setIsAuctionModalVisible false s))) in
            (s1, SignAndSubmit payload :: WaitForTransaction hash ::
                 Message LSuccess "Auction created successfully!" :: l)
          else
            (s, SignAndSubmit payload :: WaitForTransaction hash :: failed)
      end
  end.

(** [handleConfirmAuction] (lines 479-482). *)
Definition handleConfirmAuction (w : World) (s : State) : State * Log :=
  match selectedNft s, JS.truthy_string (auctionStartingPrice s),
        auctionEndTime s with
  | Some nft, true, Some endTime =>
      createAuction w (id nft) (auctionStartingPrice s) endTime s
  | _, _, _ => (s, [])
  end.

End MyNFTs.

(** ** The ledger's owner listing *)

(** Modelled from the spec: the ledger function [get_all_nfts_for_owner],
    whose code is not part of the client; the spec describes it as a
    "paged owner-NFT id list".  Of the ids the owner holds it returns the
    page of [limit] ids that starts at [offset]. *)
Definition paged_owner_ids (owned : list Z) (limit offset : Z) : list Z :=
  firstn (Z.to_nat limit) (skipn (Z.to_nat offset) owned).

(** The decimal integer an argument string stands for. *)
Definition parse_u64 (s : string) : Z :=
  let '(v, _, _) := JS.read_digits s 0 0 in v.

(** A gateway in front of that ledger function, every other request
    answered from [w]. *)
Definition with_owned (owned : list Z) (w : World) : World :=
  mkWorld (date_now w) (view_get_all_auctions w)
    (fun _ _ limit offset =>
       Some (paged_owner_ids owned (parse_u64 limit) (parse_u64 offset)))
    (view_get_nft_details w) (view_get_last_minted_nft w)
    (getAccountResource w) (signAndSubmitTransaction w) (waitForTransaction w).

(** The gateway honours the page limit it is given. *)
Definition honours_limit (w : World) : Prop :=
  forall addr owner limit offset ids,
    view_get_all_nfts_for_owner w addr owner limit offset = Some ids ->
    Z.of_nat (List.length ids) <= parse_u64 limit.

(** * Definitions used by the properties *)

(** ** Currency conversion as the spec words it *)

(** The integer nearest to the exact value of a number (ties away from
    zero); [None] for [NaN] and the infinities. *)
Definition nearest_integer (x : float) : option Z :=
  match Prim2SF x with
  | S754_zero _ => Some 0
  | S754_finite sg m e =>
      let v := if 0 <=? e then Zpos m * 2 ^ e
               else (2 * Zpos m + 2 ^ (- e)) / (2 * 2 ^ (- e)) in
      Some (if sg then - v else v)
  | _ => None
  end.

(** The spec's [toMinorUnits]: the amount times 10^8, rounded to the
    nearest integer, as a decimal string; a negative amount is rejected. *)
Definition toMinorUnits_spec (major : float) : option string :=
  if (major <? 0)%float then None
  else option_map JS.show_Z (nearest_integer (major * OCTAS)%float).

(** The conversions as the handlers and decoders inline them. *)
Definition toMinorUnits (major : float) : float := (major * OCTAS)%float.
Definition toMajorUnits (minor : float) : float := (minor / OCTAS)%float.

(** The number a decimal with two places, [k / 100], is in JavaScript:
    the binary64 value nearest to it (a correctly rounded quotient of two
    integers that binary64 holds exactly). *)
Definition two_places (k : Z) : float := (JS.b64 k / 100)%float.

(** ** Sample data *)

Module Sample.

Definition market : string := "0xcafe".
Definition bidder : string := "0xb1dde4".

(** A gateway that answers every read and a wallet that signs. *)
Definition accepting (now : Z) (auctions : list RawAuction) : World :=
  mkWorld now (fun _ => Some (Some auctions))
    (fun _ _ _ _ => Some []) (fun _ _ => None) (fun _ _ => None)
    (fun _ => Some []) (fun _ => Some "0xabc") (fun _ => true).

Definition rawAuction : RawAuction :=
  mkRawAuction 7 42 "0x5e11e4" 100000000 300000000 "0x0" 100
    (mkRawNftDetails "Sword" "A sword" "ipfs://sword" 2).

Definition auction : AuctionView.Auction :=
  AuctionView.decodeAuction rawAuction.

(** The same auction after another bidder raised the bid to 5. *)
Definition raisedAuction : RawAuction :=
  mkRawAuction 7 42 "0x5e11e4" 100000000 500000000 "0xb0b" 100
    (mkRawNftDetails "Sword" "A sword" "ipfs://sword" 2).

(** The bid dialog open on [auction] with [bid] typed in. *)
Definition bidding (bid : string) : AuctionView.State :=
  AuctionView.mkState market (Some bidder) [auction] false 1
    (Some auction) bid true.

(** The auction page showing [auction], no dialog open. *)
Definition browsing : AuctionView.State :=
  AuctionView.mkState market (Some bidder) [auction] false 1 None "" false.

End Sample.

Module Sample2.

Definition nft : MyNFTs.NFT :=
  MyNFTs.mkNFT 9 "Shield" "A shield" "ipfs://shield" 1 0%float false.

(** The Sell dialog of [MyNFTs] open on [nft] with [price] typed in. *)
Definition selling (price : string) : MyNFTs.State :=
  MyNFTs.mkState (Some Sample.bidder) 1 [nft] 1 true (Some nft) price
                 false "" None false.

(** The Create Auction dialog open on [nft]. *)
Definition auctioning (price : string) (endTime : Z) : MyNFTs.State :=
  MyNFTs.mkState (Some Sample.bidder) 1 [nft] 1 false (Some nft) ""
                 true price (Some endTime) false.

Definition listed : MarketView.NFT :=
  MarketView.mkNFT 9 "0x5e11e4" "Shield" "A shield" "ipfs://shield"
                   (JS.b64 7000000 / OCTAS)%float true 1 1700000000000.

(** The Purchase dialog of [MarketView] open on [listed]. *)
Definition buying : MarketView.State :=
  MarketView.mkState Sample.market [listed] [listed] None 1 true (Some listed)
                     false (0%float, 1000%float) (None, None) "price_asc" "".

End Sample2.

Module Sample3.

Definition details (i : Z) : RawDetails :=
  mkRawDetails i "0x0wner" "Gem" "A gem" "ipfs://gem" 250000000 false 3.

(** The owner holds the NFTs 1 and 2; the detail read of 2 fails. *)
Definition second_detail_fails : World :=
  mkWorld 50000 (fun _ => None)
    (fun _ _ _ _ => Some [1; 2])
    (fun _ i => if i =? 2 then None else Some (details i))
    (fun _ _ => None) (fun _ => None) (fun _ => None) (fun _ => false).

(** Every read fails. *)
Definition unreachable : World :=
  mkWorld 50000 (fun _ => None) (fun _ _ _ _ => None) (fun _ _ => None)
    (fun _ _ => None) (fun _ => None) (fun _ => None) (fun _ => false).

End Sample3.

Section QueryDefinitions.
Import MarketView.

(** Entities that compare equal on the sort key stand in the order of
    their ids. *)
Definition ties_in_id_order (cmp : NFT -> NFT -> comparison) (l : list NFT)
  : Prop :=
  StronglySorted (fun a b => cmp a b = Eq -> id a <= id b) l.

(** The market page holding [snapshot], with the controls as they are
    when the page opens. *)
Definition showing (snapshot : list NFT) : State :=
  setIsLoading false (setFilteredNfts snapshot (setNfts snapshot (initial "0xcafe"))).

Definition entity (i : Z) (r : Z) (p : float) : NFT :=
  mkNFT i "0x5e11e4" "Gem" "A gem" "ipfs://gem" p true r 1700000000000.

Definition tied_prices : list NFT :=
  [entity 2 1 3%float; entity 3 4 0.5%float; entity 1 1 3%float;
   entity 4 2 3%float].

(** The field that a sort key names, as the number that JavaScript
    compares: a price as it is, a date or a rarity as the number nearest
    to the integer, which is the integer itself up to 2^53.  [None] for a
    key that the page does not know. *)
Definition key_field (key : string) : option (NFT -> float) :=
  if (String.eqb key "price_asc" || String.eqb key "price_desc")%bool
  then Some price
  else if (String.eqb key "date_asc" || String.eqb key "date_desc")%bool
  then Some (fun nft => JS.b64 (listed_at nft))
  else if (String.eqb key "rarity_asc" || String.eqb key "rarity_desc")%bool
  then Some (fun nft => JS.b64 (rarity nft))
  else None.

(** Whether the key asks for the greatest first. *)
Definition key_descending (key : string) : bool :=
  String.eqb key "price_desc" || String.eqb key "date_desc"
  || String.eqb key "rarity_desc".

(** The order of each sort key, as its name says it: [a] may stand before
    [b].  A key that the page does not know orders nothing. *)
Definition key_leb (key : string) (a b : NFT) : bool :=
  match key_field key with
  | Some field =>
      if key_descending key then (field b <=? field a)%float
      else (field a <=? field b)%float
  | None => true
  end.

(** [b] has the value of [a] in the field of the sort key. *)
Definition same_key (key : string) (a b : NFT) : bool :=
  match key_field key with
  | Some field => (field a =? field b)%float
  | None => true
  end.

End QueryDefinitions.

Definition two_gems : World :=
  mkWorld 50000 (fun _ => None) (fun _ _ _ _ => Some [1; 2])
    (fun _ i => Some (Sample3.details i)) (fun _ _ => None)
    (fun _ => None) (fun _ => Some "0xabc") (fun _ => true).

(** The argument lists of the reads of the view function [fn] in a log. *)
Definition reads_of (fn : string) (log : Log) : list (list string) :=
  flat_map (fun a =>
              match a with
              | View f args => if String.eqb f fn then [args] else []
              | _ => []
              end) log.

(** An owner of the 150 NFTs 1 .. 150, every one of them readable. *)
Definition holder_of_150 : World :=
  with_owned (map Z.of_nat (seq 1 150))
    (mkWorld 50000 (fun _ => None) (fun _ _ _ _ => None)
       (fun _ i => Some (Sample3.details i)) (fun _ _ => None)
       (fun _ => None) (fun _ => None) (fun _ => false)).

(** Minor units and back, as submission and decoding compute them. *)
Definition roundtrip (x : float) : float := toMajorUnits (toMinorUnits x).

(** The round trip of [k / 100], on the machine integer [k]. *)
Definition roundtrip_ok (k : int) : bool :=
  let x := (PrimFloat.of_uint63 k / 100)%float in
  PrimFloat.eqb (roundtrip x) x.

(** [roundtrip_ok] on the [n] integers from [k]. *)
Fixpoint range_ok (n : nat) (k : int) : bool :=
  match n with
  | O => true
  | S m => roundtrip_ok k && range_ok m (k + 1)%uint63
  end.

(** [range_ok] on [b] consecutive ranges of [n] integers from [k]. *)
Fixpoint blocks_ok (b n : nat) (k : int) : bool :=
  match b with
  | O => true
  | S b' => range_ok n k && blocks_ok b' n (k + Uint63.of_Z (Z.of_nat n))%uint63
  end.

(** ** The order of the numbers *)

(** The least exponent of binary64. *)
Definition emin64 : Z := SpecFloat.emin prec emax.

(** A number that is not zero and has the sign [s]. *)
Definition signed (s : bool) (v : spec_float) : Prop :=
  match v with
  | S754_finite s' _ _ => s' = s
  | S754_infinity s' => s' = s
  | _ => False
  end.

(** [sign_of_number] on the specification of a number. *)
Definition sgn (v : spec_float) : comparison :=
  if SFltb v (S754_zero false) then Lt
  else if SFltb (S754_zero false) v then Gt else Eq.

(** The place of a number among the numbers: the infinities outside, a
    finite number by its value in units of the least positive number. *)
Definition rank (v : spec_float) : Z * Z :=
  match v with
  | S754_infinity s => (if s then -1 else 1, 0)
  | S754_finite s m e => (0, cond_Zopp s (Zpos m * 2 ^ (e - emin64)))
  | _ => (0, 0)
  end.

(** The lexicographic comparison of two places. *)
Definition lex (a b : Z * Z) : comparison :=
  match fst a ?= fst b with
  | Eq => snd a ?= snd b
  | c => c
  end.

(** * The pages as the user drives them *)

(** The account [address] is connected at some point of a session: it is
    the account the page opens with, or the wallet reports it at some
    event ([change] is the event of the page that carries the report). *)
Definition connected_in {E : Type} (change : option string -> E)
           (acct : option string) (evs : list (World * E))
           (address : string) : Prop :=
  acct = Some address \/ exists w, In (w, change (Some address)) evs.

(** ** The market page: events and effects *)

Module MarketPage.
Import MarketView.

Definition setPriceRange (v : float * float) (s : State) : State :=
  mkState (marketplaceAddr s) (nfts s) (filteredNfts s) (rarityFilter s)
    (currentPage s) (isBuyModalVisible s) (selectedNft s) (isLoading s)
    v (dateRange s) (sortBy s) (searchTerm s).
Definition setDateRange (v : option Z * option Z) (s : State) : State :=
  mkState (marketplaceAddr s) (nfts s) (filteredNfts s) (rarityFilter s)
    (currentPage s) (isBuyModalVisible s) (selectedNft s) (isLoading s)
    (priceRange s) v (sortBy s) (searchTerm s).
Definition setSearchTerm (v : string) (s : State) : State :=
  mkState (marketplaceAddr s) (nfts s) (filteredNfts s) (rarityFilter s)
    (currentPage s) (isBuyModalVisible s) (selectedNft s) (isLoading s)
    (priceRange s) (dateRange s) (sortBy s) v.

(** [handleBuyClick] (MarketView.tsx, lines 105-108). *)
Definition handleBuyClick (nft : NFT) (s : State) : State :=
  setIsBuyModalVisible true (setSelectedNft (Some nft) s).

(** [handleCancelBuy] (lines 110-113). *)
Definition handleCancelBuy (s : State) : State :=
  setSelectedNft None (setIsBuyModalVisible false s).

(** The conjunction of the four filters of [applyFilters] on one entity. *)
Definition passes (s : State) (nft : NFT) : bool :=
  match rarityFilter s with
  | Some r => rarity nft =? r
  | None => true
  end
  && ((fst (priceRange s) <=? price nft)%float
      && (price nft <=? snd (priceRange s))%float)
  && match dateRange s with
     | (Some d0, Some d1) => (d0 <=? listed_at nft) && (listed_at nft <=? d1)
     | _ => true
     end
  && (negb (JS.truthy_string (searchTerm s))
      || includes (toLowerCase (name nft)) (toLowerCase (searchTerm s))
      || includes (toLowerCase (description nft)) (toLowerCase (searchTerm s))).

(** What is shown is the filtered and sorted snapshot. *)
Definition view_consistent (s : State) : Prop :=
  filteredNfts s = applySort (sortBy s) (applyFilter s (nfts s)).

Definition option_Z_eqb (a b : option Z) : bool :=
  match a, b with
  | Some x, Some y => x =? y
  | None, None => true
  | _, _ => false
  end.

(** Whether [handleConfirmPurchase] gets as far as replacing the snapshot:
    the wallet signs, the transaction is confirmed and the resource is
    read. *)
Definition purchase_refreshes (w : World) (s : State) : bool :=
  match selectedNft s with
  | Some nft =>
      match signAndSubmitTransaction w (purchase_payload (marketplaceAddr s) nft) with
      | Some hash =>
          waitForTransaction w hash &&
          match getAccountResource w (marketplaceAddr s) with
          | Some _ => true
          | None => false
          end
      | None => false
      end
  | None => false
  end.

(** What happens on the market page. *)
Inductive UIEvent :=
| LoadNfts
| SelectRarity (v : option Z)
| SelectSort (v : string)
| TypeSearch (v : string)
| SlidePrice (v : float * float)
| PickDates (v : option Z * option Z)
| ClearDates
| ChangePage (page : Z)
| ClickBuy (card : nat)
| CancelBuy
| ConfirmPurchase.

(** One event and the effects it triggers.  [applyFilters] is the body
    of an effect that depends on the snapshot and on every filter and sort
    state: it runs after an event that changed one of them (a freshly
    fetched snapshot and the pairs of the range controls are new objects
    every time; a rarity, sort key or search term equal to the present one
    changes nothing).  The cards and the pagination are rendered while the
    page is not loading, the purchase buttons while the dialog is open.

    [PickDates] is the date picker handing over a pair of dates.  When the
    user clears the picker ([ClearDates]) it hands over [null], which line
    248 stores as the date range; the effect then runs [applyFilters],
    whose test [dateRange[0] && dateRange[1]] (line 152) throws on [null].
    Nothing catches the exception and the page is taken down: the state
    after the event is [None]. *)
Definition step (w : World) (s : State) (e : UIEvent) : option State * Log :=
  match e with
  | LoadNfts =>
      let '(s1, l) := fetchNfts w s in
      match getAccountResource w (marketplaceAddr s) with
      | Some _ => (Some (applyFilters s1), l)
      | None => (Some s1, l)
      end
  | SelectRarity v =>
      if option_Z_eqb v (rarityFilter s) then (Some s, [])
      else (Some (applyFilters (setRarity v s)), [])
  | SelectSort v =>
      if String.eqb v (sortBy s) then (Some s, [])
      else (Some (applyFilters (setSortBy v s)), [])
  | TypeSearch v =>
      if String.eqb v (searchTerm s) then (Some s, [])
      else (Some (applyFilters (setSearchTerm v s)), [])
  | SlidePrice v => (Some (applyFilters (setPriceRange v s)), [])
  | PickDates v => (Some (applyFilters (setDateRange v s)), [])
  | ClearDates => (None, [])
  | ChangePage page =>
      if isLoading s then (Some s, []) else (Some (setCurrentPage page s), [])
  | ClickBuy card =>
      match isLoading s, nth_error (paginatedNfts s) card with
      | false, Some nft => (Some (handleBuyClick nft s), [])
      | _, _ => (Some s, [])
      end
  | CancelBuy =>
      if isBuyModalVisible s then (Some (handleCancelBuy s), [])
      else (Some s, [])
  | ConfirmPurchase =>
      if isBuyModalVisible s then
        let '(s1, l) := handleConfirmPurchase w s in
        (Some (if purchase_refreshes w s then applyFilters s1 else s1), l)
      else (Some s, [])
  end.

(** A session: each event with the world it meets.  Once the page is
    taken down no further event reaches it. *)
Fixpoint run (evs : list (World * UIEvent)) (s : State)
  : option State * Log :=
  match evs with
  | [] => (Some s, [])
  | (w, e) :: r =>
      match step w s e with
      | (Some s1, l1) => let '(s2, l2) := run r s1 in (s2, (l1 ++ l2)%list)
      | (None, l1) => (None, l1)
      end
  end.

End MarketPage.

(** ** The page of MyNFTs: events and effects *)

Module MyNFTsPage.
Import MyNFTs.

Definition setCurrentPage (v : Z) (s : State) : State :=
  mkState (account s) v (nfts s) (totalNFTs s) (isModalVisible s)
    (selectedNft s) (salePrice s) (isAuctionModalVisible s)
    (auctionStartingPrice s) (auctionEndTime s) (isLoading s).

(** [account] is what [useWallet] hands the page at each render. *)
Definition setAccount (v : option string) (s : State) : State :=
  mkState v (currentPage s) (nfts s) (totalNFTs s) (isModalVisible s)
    (selectedNft s) (salePrice s) (isAuctionModalVisible s)
    (auctionStartingPrice s) (auctionEndTime s) (isLoading s).

(** [handleSellClick] (lines 434-437). *)
Definition handleSellClick (nft : NFT) (s : State) : State :=
  setIsModalVisible true (setSelectedNft (Some nft) s).

(** [handleAuctionClick] (lines 439-442). *)
Definition handleAuctionClick (nft : NFT) (s : State) : State :=
  setIsAuctionModalVisible true (setSelectedNft (Some nft) s).

(** [handleCancel] (lines 444-451). *)
Definition handleCancel (s : State) : State :=
  setAuctionEndTime None
    (setAuctionStartingPrice ""
       (setSalePrice ""
          (setSelectedNft None
             (setIsAuctionModalVisible false (setIsModalVisible false s))))).

(** [paginatedNFTs] (line 519). *)
Definition paginatedNFTs (s : State) : list NFT :=
  MarketView.slice ((currentPage s - 1) * pageSize) (currentPage s * pageSize)
                   (nfts s).

(** The [total] property of the pagination control (line 590). *)
Definition paginationTotal (s : State) : Z := totalNFTs s.

(** What happens on the page. *)
Inductive UIEvent :=
| LoadNFTs
| ChangePage (page : Z)
| ClickSell (card : nat)
| ClickAuction (card : nat)
| TypeSalePrice (v : string)
| TypeStartingPrice (v : string)
| PickEndTime (v : option Z)
| Cancel
| ConfirmListing
| ConfirmAuction
| WalletChange (acct : option string).

(** One event and the effect it triggers.  The effect that fetches the
    owner's NFTs depends on [currentPage] and, through [fetchUserNFTs], on
    [account]: it runs again after every change of the page and after the
    wallet reports another account (a connection, a disconnection, a
    switch); an open dialog and the NFT it holds stay.  The cards and the
    pagination are rendered while the page is not loading, the controls of
    a dialog while it is open. *)
Definition step (w : World) (s : State) (e : UIEvent) : State * Log :=
  match e with
  | WalletChange acct => fetchUserNFTs w (setAccount acct s)
  | LoadNFTs => fetchUserNFTs w s
  | ChangePage page =>
      if isLoading s || (page =? currentPage s) then (s, [])
      else fetchUserNFTs w (setCurrentPage page s)
  | ClickSell card =>
      match isLoading s, nth_error (paginatedNFTs s) card with
      | false, Some nft => (handleSellClick nft s, [])
      | _, _ => (s, [])
      end
  | ClickAuction card =>
      match isLoading s, nth_error (paginatedNFTs s) card with
      | false, Some nft => (handleAuctionClick nft s, [])
      | _, _ => (s, [])
      end
  | TypeSalePrice v =>
      match isModalVisible s, selectedNft s with
      | true, Some _ => (setSalePrice v s, [])
      | _, _ => (s, [])
      end
  | TypeStartingPrice v =>
      match isAuctionModalVisible s, selectedNft s with
      | true, Some _ => (setAuctionStartingPrice v s, [])
      | _, _ => (s, [])
      end
  | PickEndTime v =>
      match isAuctionModalVisible s, selectedNft s with
      | true, Some _ => (setAuctionEndTime v s, [])
      | _, _ => (s, [])
      end
  | Cancel =>
      if isModalVisible s || isAuctionModalVisible s
      then (handleCancel s, []) else (s, [])
  | ConfirmListing =>
      if isModalVisible s then handleConfirmListing w s else (s, [])
  | ConfirmAuction =>
      if isAuctionModalVisible s then handleConfirmAuction w s else (s, [])
  end.

Fixpoint run (evs : list (World * UIEvent)) (s : State) : State * Log :=
  match evs with
  | [] => (s, [])
  | (w, e) :: r =>
      let '(s1, l1) := step w s e in
      let '(s2, l2) := run r s1 in
      (s2, (l1 ++ l2)%list)
  end.

(** The gateway lists the NFT among the owner's at some event of the
    session. *)
Definition owned_in (address : string) (evs : list (World * UIEvent))
           (nft : NFT) : Prop :=
  exists w e ids i d,
    In (w, e) evs /\
    view_get_all_nfts_for_owner w marketplaceAddr address "100" "0" = Some ids /\
    In i ids /\ view_get_nft_details w marketplaceAddr i = Some d /\
    nft = decodeDetails d.

(** The gateway lists the NFT for an account that is connected at some
    point of the session. *)
Definition owned_by_a_connected (acct : option string)
           (evs : list (World * UIEvent)) (nft : NFT) : Prop :=
  exists address,
    connected_in WalletChange acct evs address /\ owned_in address evs nft.

(** The invariant of a session on the page. *)
Definition page_inv (acct : option string) (evs : list (World * UIEvent))
           (s : State) : Prop :=
  (forall address, account s = Some address ->
     connected_in WalletChange acct evs address) /\
  (forall nft, In nft (nfts s) -> owned_by_a_connected acct evs nft) /\
  (forall nft, selectedNft s = Some nft -> owned_by_a_connected acct evs nft).

(** An intent as the page lets it through: a listing or an auction of an
    NFT that the gateway lists for an account of the session, with an
    amount that was typed in.  The account need not be the one that is
    connected when the intent is sent. *)
Definition owner_intent (acct : option string) (evs : list (World * UIEvent))
           (p : Payload) : Prop :=
  exists nft amount,
    owned_by_a_connected acct evs nft /\ amount <> "" /\
    (p = list_payload (id nft) amount \/
     exists endTime, p = auction_payload (id nft) amount endTime).

End MyNFTsPage.

(** ** Text fields and addresses *)

(** [String.prototype.slice(from, to)]; [to] is [None] when it is left
    out.  A negative index counts from the end. *)
Definition String_slice (s : string) (from : Z) (to : option Z) : string :=
  let len := Z.of_nat (String.length s) in
  let rel i := if i <? 0 then Z.max (len + i) 0 else Z.min i len in
  let a := rel from in
  let b := match to with Some t => rel t | None => len end in
  substring (Z.to_nat a) (Z.to_nat (Z.max (b - a) 0)) s.

(** [truncateAddress] (MarketView.tsx, lines 44-46). *)
Definition truncateAddress (address : string) (start end_ : Z) : string :=
  String_slice address 0 (Some start) ++ "..." ++
  String_slice address (- end_) None.

(** The value of a hexadecimal digit. *)
Definition hex_val (c : ascii) : option Z :=
  let n := nat_of_ascii c in
  if ((48 <=? n) && (n <=? 57))%nat then Some (Z.of_nat n - 48)
  else if ((97 <=? n) && (n <=? 102))%nat then Some (Z.of_nat n - 87)
  else if ((65 <=? n) && (n <=? 70))%nat then Some (Z.of_nat n - 55)
  else None.

(** Reads a run of hexadecimal digits: the value and the number of digits
    read. *)
Fixpoint read_hex (s : string) (acc n : Z) : Z * Z :=
  match s with
  | String c r =>
      match hex_val c with
      | Some d => read_hex r (16 * acc + d) (n + 1)
      | None => (acc, n)
      end
  | EmptyString => (acc, n)
  end.

(** [parseInt(s, 16)]: white space (of the kinds that are one byte long),
    a sign and a [0x] prefix are skipped, then the longest run of
    hexadecimal digits is read; [None] is [NaN].  The value is exact for
    the short strings it is used on. *)
Definition parseInt16 (s : string) : option Z :=
  let '(neg, t) :=
    match JS.skip_space s with
    | String "-" r => (true, r)
    | String "+" r => (false, r)
    | r => (false, r)
    end in
  let digits :=
    if (JS.starts_with "0x" t || JS.starts_with "0X" t)%bool
    then String_slice t 2 None else t in
  let '(v, n) := read_hex digits 0 0 in
  if n =? 0 then None else Some (if neg then - v else v).

(** Storing a number into a [Uint8Array]: [NaN] becomes 0, an integer is
    taken modulo 256. *)
Definition to_uint8 (v : option Z) : Z :=
  match v with
  | Some z => z mod 256
  | None => 0
  end.

(** [hexToUint8Array] (MarketView.tsx, lines 74-80 and 400-406): one byte
    for every two characters.  The array has [hexString.length / 2]
    elements, rounded down, so the write for a last single character is
    out of range and lost. *)
Fixpoint hexToUint8Array (hexString : string) : list Z :=
  match hexString with
  | String a (String b r) =>
      to_uint8 (parseInt16 (String a (String b ""))) :: hexToUint8Array r
  | _ => []
  end.

(** The bytes of a [Uint8Array] as a string of bytes. *)
Definition string_of_bytes (l : list Z) : string :=
  fold_right (fun b r => String (ascii_of_nat (Z.to_nat b)) r) "" l.

(** A text field of the resource as [fetchNfts] decodes it:
    [new TextDecoder().decode(hexToUint8Array(field.slice(2)))]. *)
Definition decodeHexField (field : string) : string :=
  decodeText (string_of_bytes (hexToUint8Array (String_slice field 2 None))).

(** * Definitions used by the further properties *)

(** ** The write path *)

(** A read of the ledger. *)
Definition is_read (a : Action) : bool :=
  match a with
  | View _ _ | GetAccountResource _ _ => true
  | _ => false
  end.

(** An intent handed to the wallet agent. *)
Definition is_intent (a : Action) : bool :=
  match a with SignAndSubmit _ => true | _ => false end.

(** A step of the write path: an intent or a wait for its transaction. *)
Definition is_write (a : Action) : bool :=
  match a with
  | SignAndSubmit _ | WaitForTransaction _ => true
  | _ => false
  end.

(** A log without a step of the write path and without a read: messages
    and nothing else. *)
Definition quiet (log : Log) : bool :=
  negb (existsb is_write log) && negb (existsb is_read log).

(** The write path of one handler run.  Either the handler contacts
    nobody, or the intent is the first entry of its log.  When the wallet
    declines, nothing follows but messages.  When it signs, the wait for
    the transaction it returned comes next; no other intent or wait
    follows, and reads follow only when that transaction was confirmed. *)
Definition write_protocol (w : World) (log : Log) : Prop :=
  quiet log = true \/
  exists p rest,
    log = SignAndSubmit p :: rest /\
    match signAndSubmitTransaction w p with
    | None => quiet rest = true
    | Some hash =>
        exists rest',
          rest = WaitForTransaction hash :: rest' /\
          existsb is_write rest' = false /\
          (existsb is_read rest' = true -> waitForTransaction w hash = true)
    end.

(** The wallet declines every intent, or no transaction is confirmed. *)
Definition nothing_confirmed (w : World) : Prop :=
  (forall p, signAndSubmitTransaction w p = None) \/
  (forall hash, waitForTransaction w hash = false).


(** ** Search terms *)




(** ** Refreshes of the owner's NFTs *)

(** The card the detail read of [i] gives [MyNFTs]: none when it fails. *)
Definition detail_card (w : World) (i : Z) : list MyNFTs.NFT :=
  match view_get_nft_details w MyNFTs.marketplaceAddr i with
  | Some d => [MyNFTs.decodeDetails d]
  | None => []
  end.

(** The detail read of [i] fails. *)
Definition unreadable (w : World) (addr : string) (i : Z) : bool :=
  match view_get_nft_details w addr i with
  | Some _ => false
  | None => true
  end.

Definition is_console_error (a : Action) : bool :=
  match a with ConsoleError _ => true | _ => false end.

(** The card the fusion page shows for the id [i]. *)
Definition fusion_card (w : World) (addr : string) (i : Z)
           (nft : NFTFusion.NFT) : Prop :=
  exists d, view_get_nft_details w addr i = Some d /\
            nft = NFTFusion.decodeDetails d.

(** ** Sessions *)

Section BidSessionDefinitions.
Import AuctionView.

(** The auction is in the gateway's answer at some event of the session. *)
Definition reported (addr : string) (evs : list (World * UIEvent))
           (a : Auction) : Prop :=
  exists w e raws raw,
    In (w, e) evs /\ view_get_all_auctions w addr = Some (Some raws) /\
    In raw raws /\ a = decodeAuction raw.

(** At the time of some event of the session the auction had not ended. *)
Definition seen_running (evs : list (World * UIEvent)) (a : Auction) : Prop :=
  exists w e, In (w, e) evs /\ isAuctionEnded (date_now w) (endTime a) = false.

(** What holds of the auction a bid dialog is open on: the account that
    opened the dialog, one of those connected in the session, is not the
    seller. *)
Definition biddable (addr : string) (acct : option string)
           (evs : list (World * UIEvent)) (a : Auction) : Prop :=
  reported addr evs a /\ seen_running evs a /\
  exists address,
    connected_in WalletChange acct evs address /\ address <> seller a.

(** The invariant of a session on the auction page. *)
Definition bid_inv (addr : string) (acct : option string)
           (evs : list (World * UIEvent)) (s : State) : Prop :=
  marketplaceAddr s = addr /\
  (forall address, account s = Some address ->
     connected_in WalletChange acct evs address) /\
  (forall a, In a (auctions s) -> reported addr evs a) /\
  (forall a, selectedAuction s = Some a -> biddable addr acct evs a).

(** A bid intent as the page lets it through. *)
Definition guarded_bid (addr : string) (acct : option string)
           (evs : list (World * UIEvent)) (p : Payload) : Prop :=
  exists a bid,
    biddable addr acct evs a /\ bid <> "" /\
    (JS.parseFloat bid <=? currentBid a)%float = false /\
    p = place_bid_payload addr (id a) bid.

End BidSessionDefinitions.

Section MarketSessionDefinitions.
Import MarketView MarketPage.

(** The NFT is in the resource the gateway answers with at some event of
    the session. *)
Definition listed_in (addr : string) (evs : list (World * UIEvent))
           (nft : NFT) : Prop :=
  exists w e raws raw,
    In (w, e) evs /\ getAccountResource w addr = Some raws /\
    In raw raws /\ nft = decodeNft (date_now w) raw.

(** The invariant of a session on the market page. *)
Definition market_inv (addr : string) (evs : list (World * UIEvent))
           (s : State) : Prop :=
  marketplaceAddr s = addr /\
  (forall nft, In nft (nfts s) -> listed_in addr evs nft) /\
  (forall nft, In nft (filteredNfts s) -> listed_in addr evs nft) /\
  (forall nft, selectedNft s = Some nft -> listed_in addr evs nft).

End MarketSessionDefinitions.

Section FusionSessionDefinitions.
Import NFTFusion.





End FusionSessionDefinitions.

(** ** The gateway's rendering of bytes *)

(** The gateway's rendering of a byte vector, which the decoding undoes:
    [0x] and two lower-case hexadecimal digits for every byte. *)
Definition hex_digit (d : nat) : ascii :=
  ascii_of_nat (if (d <? 10)%nat then 48 + d else 87 + d).

Fixpoint hex_of_bytes (s : string) : string :=
  match s with
  | EmptyString => EmptyString
  | String c r =>
      String (hex_digit (nat_of_ascii c / 16))
        (String (hex_digit (nat_of_ascii c mod 16)) (hex_of_bytes r))
  end.

Definition hex_field (s : string) : string := "0x" ++ hex_of_bytes s.

(** Bytes that are ASCII text: none above 127. *)
Fixpoint ascii_text (s : string) : bool :=
  match s with
  | EmptyString => true
  | String c r => (nat_of_ascii c <=? 127)%nat && ascii_text r
  end.

(** ** Sample sessions *)

Module Demo.

Definition accepting : World := Sample.accepting 50000 [Sample.rawAuction].

(** A visitor opens the bid dialog on the sample auction and bids 5. *)
Definition bid_session : list (World * AuctionView.UIEvent) :=
  [(accepting, AuctionView.PollTimer);
   (accepting, AuctionView.ClickPlaceBid 0%nat);
   (accepting, AuctionView.TypeBidAmount "5");
   (accepting, AuctionView.ClickSubmitBid)].

Definition shield : RawNFT :=
  mkRawNFT 9 "0x5e11e4" "Shield" "A shield" "ipfs://shield" 250000000 true 1
           1700000000000.

(** A gateway that serves the marketplace resource and a wallet that
    signs. *)
Definition market : World :=
  mkWorld 50000 (fun _ => None) (fun _ _ _ _ => None) (fun _ _ => None)
    (fun _ _ => None) (fun _ => Some [shield]) (fun _ => Some "0xabc")
    (fun _ => true).

(** A visitor loads the market page and buys the first card. *)
Definition purchase_session : list (World * MarketPage.UIEvent) :=
  [(market, MarketPage.LoadNfts); (market, MarketPage.ClickBuy 0%nat);
   (market, MarketPage.ConfirmPurchase)].

(** The owner lists the first card of the collection for 2.5. *)
Definition listing_session : list (World * MyNFTsPage.UIEvent) :=
  [(two_gems, MyNFTsPage.LoadNFTs); (two_gems, MyNFTsPage.ClickSell 0%nat);
   (two_gems, MyNFTsPage.TypeSalePrice "2.5");
   (two_gems, MyNFTsPage.ConfirmListing)].

(** The market page holding ten entities. *)
Definition ten_gems : MarketView.State :=
  showing (map (fun i => entity (Z.of_nat i) 1 3%float) (seq 1 10)).

Definition gem (i : Z) : NFTFusion.NFT :=
  NFTFusion.decodeDetails (Sample3.details i).

(** The fusion page with the gems 1 and 2 selected. *)
Definition two_selected : NFTFusion.State :=
  NFTFusion.mkState "0xcafe" (Some "0x0wner") [gem 1; gem 2] [gem 1; gem 2]
                    false false None.

(** The fusion page with the gem 1 selected. *)
Definition one_selected : NFTFusion.State :=
  NFTFusion.mkState "0xcafe" (Some "0x0wner") [gem 1; gem 2] [gem 1]
                    false false None.


End Demo.

(** ** Proof steps *)

(** The outcome of the wallet request in the goal, for a world in which
    nothing is confirmed. *)
Ltac failed_write w Hw :=
  match goal with
  | |- context [signAndSubmitTransaction w ?p] =>
      let hash := fresh "hash" in
      let Es := fresh "Es" in
      destruct (signAndSubmitTransaction w p) as [hash|] eqn:Es;
      [ destruct Hw as [Hw|Hw];
        [ rewrite Hw in Es; discriminate
        | rewrite (Hw hash) ]
      | ]
  end.


(** The parts of a session invariant. *)
Ltac inv_split := split; [|split; [|split]].
Ltac page_split := split; [|split].

(** * Properties *)

(** ** Bids *)

Section Bids.
Import AuctionView.

Lemma sample_current_bid : currentBid Sample.auction = 3%float.
Proof. reflexivity. Qed.

(** C1, as the spec states it, fails.  [handleBidSubmit] checks nothing
    about the amount: with the bid [3.0] entered against a current bid of
    [3.0] it hands the intent to the wallet agent.  The check lives in the
    submit button, and it reads the auction as it was when the dialog was
    opened: after a refresh that shows the bid raised to 5, a bid of 4 is
    still enabled and submitted. *)
Lemma equal_bid_reaches_wallet :
  let s := Sample.bidding "3.0" in
  let w := Sample.accepting 50000 [Sample.rawAuction] in
  let raised := Sample.accepting 60000 [Sample.raisedAuction] in
  let stale :=
    fst (run [(w, ClickPlaceBid 0%nat); (raised, PollTimer);
              (raised, TypeBidAmount "4")] Sample.browsing) in
  (selectedAuction s = Some Sample.auction /\
   (JS.parseFloat (bidAmount s) <=? currentBid Sample.auction)%float = true /\
   snd (handleBidSubmit w s) =
     [SignAndSubmit
        (mkPayload "entry_function_payload" "0xcafe::NFTMarketplace::place_bid"
                   [] ["0xcafe"; "7"; "300000000"]);
      WaitForTransaction "0xabc";
      Message LSuccess "Bid placed successfully!";
      View "0xcafe::NFTMarketplace::get_all_auctions" []] /\
   ~ no_wallet_call (snd (handleBidSubmit w s))) /\
  (map (fun a => (id a, currentBid a)) (auctions stale) = [(7, 5%float)] /\
   bidAmount stale = "4" /\
   hd_error (snd (step raised stale ClickSubmitBid)) =
     Some (SignAndSubmit
             (mkPayload "entry_function_payload"
                "0xcafe::NFTMarketplace::place_bid"
                [] ["0xcafe"; "7"; "400000000"]))).
Proof.
  cbv zeta. split.
  - repeat split; try reflexivity.
    intro H. apply (H (place_bid_payload "0xcafe" 7 "3.0")).
    vm_compute. left. reflexivity.
  - repeat split.
Qed.

(** C1, amended: whenever the entered amount is not above the current
    bid ([parseFloat(bidAmount) <= currentBid]) the submit button of the
    bid dialog is disabled, so the click runs no handler: the state is
    unchanged and nothing is sent to the wallet agent or the network. *)
Theorem low_bid_cannot_be_submitted :
  forall (w : World) (s : State) (a : Auction),
    selectedAuction s = Some a ->
    (JS.parseFloat (bidAmount s) <=? currentBid a)%float = true ->
    bidSubmitDisabled s = true /\
    step w s ClickSubmitBid = (s, []).
Proof.
  intros w s a Hsel Hle.
  assert (Hd : bidSubmitDisabled s = true).
  { unfold bidSubmitDisabled. rewrite Hsel, Hle. apply orb_true_r. }
  split; [exact Hd|].
  unfold step. rewrite Hd. cbn [negb]. rewrite andb_false_r. reflexivity.
Qed.

Lemma low_bid_cannot_be_submitted_witness :
  bidSubmitDisabled (Sample.bidding "3.0") = true /\
  step (Sample.accepting 50000 [Sample.rawAuction]) (Sample.bidding "3.0")
       ClickSubmitBid = (Sample.bidding "3.0", []).
Proof.
  apply (low_bid_cannot_be_submitted _ (Sample.bidding "3.0") Sample.auction).
  - reflexivity.
  - vm_compute. reflexivity.
Defined.

(** C5, as the spec states it, fails: the end time is looked at only
    when the cards are rendered.  A dialog opened at 99 s on an auction
    that ends at 100 s still submits at 200 s. *)
Lemma bid_after_end_reaches_wallet :
  let before := Sample.accepting 99000 [Sample.rawAuction] in
  let after := Sample.accepting 200000 [Sample.rawAuction] in
  isAuctionEnded (date_now after) (endTime Sample.auction) = true /\
  snd (run [(before, ClickPlaceBid 0%nat); (before, TypeBidAmount "5");
            (after, ClickSubmitBid)] Sample.browsing) =
    [SignAndSubmit
       (mkPayload "entry_function_payload" "0xcafe::NFTMarketplace::place_bid"
                  [] ["0xcafe"; "7"; "500000000"]);
     WaitForTransaction "0xabc";
     Message LSuccess "Bid placed successfully!";
     View "0xcafe::NFTMarketplace::get_all_auctions" []].
Proof. split; reflexivity. Qed.

(** C5, amended: for an auction whose end time is in the past when the
    page is rendered, no Place Bid button is rendered; a click on its
    card opens no dialog and sends nothing. *)
Theorem ended_auction_offers_no_bid :
  forall (w : World) (s : State) (card : nat) (a : Auction),
    nth_error (paginatedAuctions s) card = Some a ->
    isAuctionEnded (date_now w) (endTime a) = true ->
    step w s (ClickPlaceBid card) = (s, []).
Proof.
  intros w s card a Hcard Hend. unfold step.
  rewrite Hcard, Hend. cbn [negb]. rewrite andb_false_r. reflexivity.
Qed.

Lemma ended_auction_offers_no_bid_witness :
  step (Sample.accepting 200000 [Sample.rawAuction]) Sample.browsing
       (ClickPlaceBid 0%nat) = (Sample.browsing, []).
Proof.
  apply (ended_auction_offers_no_bid _ _ _ Sample.auction); reflexivity.
Defined.

End Bids.

(** ** Amounts sent to the ledger *)

Lemma place_bid_argument :
  forall (w : World) (s : AuctionView.State) (a : AuctionView.Auction)
         (address : string),
    AuctionView.selectedAuction s = Some a ->
    JS.truthy_string (AuctionView.bidAmount s) = true ->
    AuctionView.account s = Some address ->
    hd_error (snd (AuctionView.handleBidSubmit w s)) =
      Some (SignAndSubmit
              (entry_function_payload
                 (fn_name (AuctionView.marketplaceAddr s) "place_bid")
                 [AuctionView.marketplaceAddr s;
                  JS.show_Z (AuctionView.id a);
                  JS.toString
                    (toMinorUnits (JS.parseFloat (AuctionView.bidAmount s)))])).
Proof.
  intros w s a address Hsel Hbid Hacc.
  unfold AuctionView.handleBidSubmit. rewrite Hsel, Hbid, Hacc.
  destruct (signAndSubmitTransaction w _) as [hash|]; [|reflexivity].
  destruct (waitForTransaction w hash); [|reflexivity].
  destruct (AuctionView.fetchAuctions w _). reflexivity.
Qed.

Lemma purchase_argument :
  forall (w : World) (s : MarketView.State) (nft : MarketView.NFT),
    MarketView.selectedNft s = Some nft ->
    hd_error (snd (MarketView.handleConfirmPurchase w s)) =
      Some (SignAndSubmit
              (entry_function_payload
                 (fn_name (MarketView.marketplaceAddr s) "purchase_nft")
                 [MarketView.marketplaceAddr s;
                  JS.show_Z (MarketView.id nft);
                  JS.toString (toMinorUnits (MarketView.price nft))])).
Proof.
  intros w s nft Hsel.
  unfold MarketView.handleConfirmPurchase. rewrite Hsel.
  destruct (signAndSubmitTransaction w _) as [hash|]; [|reflexivity].
  destruct (waitForTransaction w hash); [|reflexivity].
  destruct (MarketView.fetchNfts w _). reflexivity.
Qed.

Lemma list_for_sale_argument :
  forall (w : World) (s : MyNFTs.State) (nft : MyNFTs.NFT),
    MyNFTs.selectedNft s = Some nft ->
    JS.truthy_string (MyNFTs.salePrice s) = true ->
    hd_error (snd (MyNFTs.handleConfirmListing w s)) =
      Some (SignAndSubmit
              (entry_function_payload
                 (fn_name MyNFTs.marketplaceAddr "list_for_sale")
                 [MyNFTs.marketplaceAddr;
                  JS.show_Z (MyNFTs.id nft);
                  JS.toString
                    (toMinorUnits (JS.parseFloat (MyNFTs.salePrice s)))])).
Proof.
  intros w s nft Hsel Hprice.
  unfold MyNFTs.handleConfirmListing. rewrite Hsel, Hprice.
  destruct (signAndSubmitTransaction w _) as [hash|]; [|reflexivity].
  destruct (waitForTransaction w hash); [|reflexivity].
  destruct (MyNFTs.fetchUserNFTs w _). reflexivity.
Qed.

Lemma create_auction_argument :
  forall (w : World) (s : MyNFTs.State) (nft : MyNFTs.NFT)
         (endTime : Z) (address : string),
    MyNFTs.selectedNft s = Some nft ->
    JS.truthy_string (MyNFTs.auctionStartingPrice s) = true ->
    MyNFTs.auctionEndTime s = Some endTime ->
    MyNFTs.account s = Some address ->
    hd_error (snd (MyNFTs.handleConfirmAuction w s)) =
      Some (SignAndSubmit
              (entry_function_payload
                 (fn_name MyNFTs.marketplaceAddr "create_auction")
                 [MyNFTs.marketplaceAddr;
                  JS.show_Z (MyNFTs.id nft);
                  JS.toString
                    (toMinorUnits
                       (JS.parseFloat (MyNFTs.auctionStartingPrice s)));
                  JS.show_Z endTime])).
Proof.
  intros w s nft endTime address Hsel Hprice Hend Hacc.
  unfold MyNFTs.handleConfirmAuction, MyNFTs.createAuction.
  rewrite Hsel, Hprice, Hend, Hacc.
  destruct (signAndSubmitTransaction w _) as [hash|]; [|reflexivity].
  destruct (waitForTransaction w hash); [|reflexivity].
  destruct (MyNFTs.fetchUserNFTs w _). reflexivity.
Qed.

(** C2, as the spec states it, fails: nothing rounds the product and
    nothing rejects a negative amount.  Listing at [0.07] sends
    [7000000.000000001] where the rounded amount is [7000000]; buying an
    NFT whose price was decoded from 7000000 octas sends the same; listing
    at [-1] sends [-100000000]. *)
Lemma unrounded_and_negative_amounts_are_sent :
  let w := Sample.accepting 50000 [] in
  hd_error (snd (MyNFTs.handleConfirmListing w (Sample2.selling "0.07"))) =
    Some (SignAndSubmit
            (mkPayload "entry_function_payload"
               (fn_name MyNFTs.marketplaceAddr "list_for_sale") []
               [MyNFTs.marketplaceAddr; "9"; "7000000.000000001"])) /\
  toMinorUnits_spec (JS.parseFloat "0.07") = Some "7000000" /\
  hd_error (snd (MarketView.handleConfirmPurchase w Sample2.buying)) =
    Some (SignAndSubmit
            (mkPayload "entry_function_payload"
               "0xcafe::NFTMarketplace::purchase_nft" []
               ["0xcafe"; "9"; "7000000.000000001"])) /\
  hd_error (snd (MyNFTs.handleConfirmListing w (Sample2.selling "-1"))) =
    Some (SignAndSubmit
            (mkPayload "entry_function_payload"
               (fn_name MyNFTs.marketplaceAddr "list_for_sale") []
               [MyNFTs.marketplaceAddr; "9"; "-100000000"])) /\
  toMinorUnits_spec (JS.parseFloat "-1") = None.
Proof. cbv zeta. split; [|split; [|split; [|split]]]; vm_compute; reflexivity. Qed.

(** C2, amended: for every price or bid amount crossing the boundary
    (place-bid, purchase, list-for-sale, create-auction) the argument sent
    is the decimal string ([Number.prototype.toString]) of the binary64
    product of the major-unit amount and 10^8; the product is not rounded
    to an integer and the sign of the amount is not looked at. *)
Theorem amount_sent_is_unrounded_product :
  (forall w s a address,
      AuctionView.selectedAuction s = Some a ->
      JS.truthy_string (AuctionView.bidAmount s) = true ->
      AuctionView.account s = Some address ->
      hd_error (snd (AuctionView.handleBidSubmit w s)) =
        Some (SignAndSubmit
                (entry_function_payload
                   (fn_name (AuctionView.marketplaceAddr s) "place_bid")
                   [AuctionView.marketplaceAddr s;
                    JS.show_Z (AuctionView.id a);
                    JS.toString
                      (JS.parseFloat (AuctionView.bidAmount s) * 100000000)%float])))
  /\
  (forall w s nft,
      MarketView.selectedNft s = Some nft ->
      hd_error (snd (MarketView.handleConfirmPurchase w s)) =
        Some (SignAndSubmit
                (entry_function_payload
                   (fn_name (MarketView.marketplaceAddr s) "purchase_nft")
                   [MarketView.marketplaceAddr s;
                    JS.show_Z (MarketView.id nft);
                    JS.toString (MarketView.price nft * 100000000)%float])))
  /\
  (forall w s nft,
      MyNFTs.selectedNft s = Some nft ->
      JS.truthy_string (MyNFTs.salePrice s) = true ->
      hd_error (snd (MyNFTs.handleConfirmListing w s)) =
        Some (SignAndSubmit
                (entry_function_payload
                   (fn_name MyNFTs.marketplaceAddr "list_for_sale")
                   [MyNFTs.marketplaceAddr;
                    JS.show_Z (MyNFTs.id nft);
                    JS.toString
                      (JS.parseFloat (MyNFTs.salePrice s) * 100000000)%float])))
  /\
  (forall w s nft endTime address,
      MyNFTs.selectedNft s = Some nft ->
      JS.truthy_string (MyNFTs.auctionStartingPrice s) = true ->
      MyNFTs.auctionEndTime s = Some endTime ->
      MyNFTs.account s = Some address ->
      hd_error (snd (MyNFTs.handleConfirmAuction w s)) =
        Some (SignAndSubmit
                (entry_function_payload
                   (fn_name MyNFTs.marketplaceAddr "create_auction")
                   [MyNFTs.marketplaceAddr;
                    JS.show_Z (MyNFTs.id nft);
                    JS.toString
                      (JS.parseFloat (MyNFTs.auctionStartingPrice s)
                       * 100000000)%float;
                    JS.show_Z endTime]))).
Proof.
  split; [|split; [|split]].
  - exact place_bid_argument.
  - exact purchase_argument.
  - exact list_for_sale_argument.
  - exact create_auction_argument.
Qed.

Lemma amount_sent_is_unrounded_product_witness :
  let w := Sample.accepting 50000 [Sample.rawAuction] in
  hd_error (snd (AuctionView.handleBidSubmit w (Sample.bidding "3.5"))) =
    Some (SignAndSubmit (mkPayload "entry_function_payload"
            "0xcafe::NFTMarketplace::place_bid" [] ["0xcafe"; "7"; "350000000"]))
  /\
  hd_error (snd (MarketView.handleConfirmPurchase w Sample2.buying)) =
    Some (SignAndSubmit (mkPayload "entry_function_payload"
            "0xcafe::NFTMarketplace::purchase_nft" []
            ["0xcafe"; "9"; "7000000.000000001"]))
  /\
  hd_error (snd (MyNFTs.handleConfirmListing w (Sample2.selling "-1"))) =
    Some (SignAndSubmit (mkPayload "entry_function_payload"
            (fn_name MyNFTs.marketplaceAddr "list_for_sale") []
            [MyNFTs.marketplaceAddr; "9"; "-100000000"]))
  /\
  hd_error (snd (MyNFTs.handleConfirmAuction w
                   (Sample2.auctioning "0.07" 1800000000))) =
    Some (SignAndSubmit (mkPayload "entry_function_payload"
            (fn_name MyNFTs.marketplaceAddr "create_auction") []
            [MyNFTs.marketplaceAddr; "9"; "7000000.000000001"; "1800000000"])).
Proof.
  destruct amount_sent_is_unrounded_product as (Hbid & Hbuy & Hlist & Hauction).
  split; [|split; [|split]].
  - exact (Hbid _ (Sample.bidding "3.5") Sample.auction Sample.bidder
             eq_refl eq_refl eq_refl).
  - exact (Hbuy _ Sample2.buying Sample2.listed eq_refl).
  - exact (Hlist _ (Sample2.selling "-1") Sample2.nft eq_refl eq_refl).
  - exact (Hauction _ (Sample2.auctioning "0.07" 1800000000) Sample2.nft
             1800000000 Sample.bidder eq_refl eq_refl eq_refl eq_refl).
Defined.

(** ** Fetches that fail *)

Lemma fetchNfts_failure :
  forall (w : World) (s : MarketView.State),
    getAccountResource w (MarketView.marketplaceAddr s) = None ->
    MarketView.nfts (fst (MarketView.fetchNfts w s)) = MarketView.nfts s /\
    MarketView.filteredNfts (fst (MarketView.fetchNfts w s))
      = MarketView.filteredNfts s /\
    error_surfaced (snd (MarketView.fetchNfts w s)) = true.
Proof.
  intros w s H. unfold MarketView.fetchNfts. rewrite H.
  repeat split.
Qed.

Lemma fetchAuctions_failure :
  forall (w : World) (s : AuctionView.State),
    view_get_all_auctions w (AuctionView.marketplaceAddr s) = None ->
    AuctionView.auctions (fst (AuctionView.fetchAuctions w s))
      = AuctionView.auctions s /\
    error_surfaced (snd (AuctionView.fetchAuctions w s)) = true.
Proof.
  intros w s H. unfold AuctionView.fetchAuctions. rewrite H.
  repeat split.
Qed.

Lemma owned_ids_failure :
  forall (w : World) (s : MyNFTs.State) (address : string),
    MyNFTs.account s = Some address ->
    view_get_all_nfts_for_owner w MyNFTs.marketplaceAddr address "100" "0"
      = None ->
    MyNFTs.nfts (fst (MyNFTs.fetchUserNFTs w s)) = MyNFTs.nfts s /\
    MyNFTs.totalNFTs (fst (MyNFTs.fetchUserNFTs w s)) = MyNFTs.totalNFTs s /\
    error_surfaced (snd (MyNFTs.fetchUserNFTs w s)) = true.
Proof.
  intros w s address Hacc H. unfold MyNFTs.fetchUserNFTs. rewrite Hacc, H.
  repeat split.
Qed.

Lemma all_details_failure :
  forall (w : World) (addr : string) (ids : list Z) (i : Z),
    In i ids -> view_get_nft_details w addr i = None ->
    NFTFusion.all_details w addr ids = None.
Proof.
  intros w addr ids i. induction ids as [|j r IH]; intros Hin Hfail.
  - destruct Hin.
  - cbn [NFTFusion.all_details]. destruct Hin as [->|Hin].
    + rewrite Hfail. reflexivity.
    + rewrite (IH Hin Hfail).
      destruct (view_get_nft_details w addr j); reflexivity.
Qed.

Lemma error_surfaced_app :
  forall l1 l2, error_surfaced (l1 ++ l2)%list
                = error_surfaced l1 || error_surfaced l2.
Proof. intros. unfold error_surfaced. apply existsb_app. Qed.

Lemma fusion_fetch_failure :
  forall (w : World) (s : NFTFusion.State) (address : string),
    NFTFusion.account s = Some address ->
    (view_get_all_nfts_for_owner w (NFTFusion.marketplaceAddr s) address
       "100" "0" = None \/
     exists ids i,
       view_get_all_nfts_for_owner w (NFTFusion.marketplaceAddr s) address
         "100" "0" = Some ids /\
       In i ids /\
       view_get_nft_details w (NFTFusion.marketplaceAddr s) i = None) ->
    NFTFusion.userNFTs (fst (NFTFusion.fetchUserNFTs w s))
      = NFTFusion.userNFTs s /\
    error_surfaced (snd (NFTFusion.fetchUserNFTs w s)) = true.
Proof.
  intros w s address Hacc H. unfold NFTFusion.fetchUserNFTs. rewrite Hacc.
  destruct H as [H | (ids & i & H & Hin & Hfail)]; rewrite H.
  - repeat split.
  - rewrite (all_details_failure _ _ _ _ Hin Hfail). split; [reflexivity|].
    cbv zeta. cbn [snd]. rewrite error_surfaced_app.
    apply orb_true_r.
Qed.

(** The detail reads of [MyNFTs] are the best-effort batch that the spec
    sets apart from the rule on read failures: a detail read that fails is
    caught on its own, logged to the console, and its id is dropped; the
    snapshot is replaced by the NFTs that could be read and no error
    message is shown. *)
Lemma failed_detail_read_is_dropped :
  let s := Sample2.selling "" in
  let r := MyNFTs.fetchUserNFTs Sample3.second_detail_fails s in
  view_get_nft_details Sample3.second_detail_fails MyNFTs.marketplaceAddr 2
    = None /\
  map MyNFTs.id (MyNFTs.nfts s) = [9] /\
  map MyNFTs.id (MyNFTs.nfts (fst r)) = [1] /\
  error_surfaced (snd r) = false /\
  In (ConsoleError "Error fetching details for NFT ID 2:") (snd r).
Proof.
  cbv zeta. split; [|split; [|split; [|split]]]; try reflexivity.
  vm_compute. tauto.
Qed.

(** C3: for every repository fetch (the marketplace NFTs, the auctions, the
    owned NFTs of the collection page and of the fusion page), if the read
    fails, the previously held snapshot is left unchanged and an error
    message is shown to the user.  On the fusion page a failing detail read
    fails the fetch as well.  The detail reads of the collection page are
    the best-effort batch, which the spec exempts from this rule: their
    failures are logged and the ids dropped. *)
Theorem failed_fetch_keeps_snapshot :
  (forall w s,
      getAccountResource w (MarketView.marketplaceAddr s) = None ->
      MarketView.nfts (fst (MarketView.fetchNfts w s)) = MarketView.nfts s /\
      MarketView.filteredNfts (fst (MarketView.fetchNfts w s))
        = MarketView.filteredNfts s /\
      error_surfaced (snd (MarketView.fetchNfts w s)) = true)
  /\
  (forall w s,
      view_get_all_auctions w (AuctionView.marketplaceAddr s) = None ->
      AuctionView.auctions (fst (AuctionView.fetchAuctions w s))
        = AuctionView.auctions s /\
      error_surfaced (snd (AuctionView.fetchAuctions w s)) = true)
  /\
  (forall w s address,
      MyNFTs.account s = Some address ->
      view_get_all_nfts_for_owner w MyNFTs.marketplaceAddr address "100" "0"
        = None ->
      MyNFTs.nfts (fst (MyNFTs.fetchUserNFTs w s)) = MyNFTs.nfts s /\
      MyNFTs.totalNFTs (fst (MyNFTs.fetchUserNFTs w s)) = MyNFTs.totalNFTs s /\
      error_surfaced (snd (MyNFTs.fetchUserNFTs w s)) = true)
  /\
  (forall w s address,
      NFTFusion.account s = Some address ->
      (view_get_all_nfts_for_owner w (NFTFusion.marketplaceAddr s) address
         "100" "0" = None \/
       exists ids i,
         view_get_all_nfts_for_owner w (NFTFusion.marketplaceAddr s) address
           "100" "0" = Some ids /\
         In i ids /\
         view_get_nft_details w (NFTFusion.marketplaceAddr s) i = None) ->
      NFTFusion.userNFTs (fst (NFTFusion.fetchUserNFTs w s))
        = NFTFusion.userNFTs s /\
      error_surfaced (snd (NFTFusion.fetchUserNFTs w s)) = true).
Proof.
  split; [|split; [|split]].
  - exact fetchNfts_failure.
  - exact fetchAuctions_failure.
  - exact owned_ids_failure.
  - exact fusion_fetch_failure.
Qed.

Lemma failed_fetch_keeps_snapshot_witness :
  let w := Sample3.unreachable in
  (MarketView.nfts (fst (MarketView.fetchNfts w Sample2.buying))
     = [Sample2.listed] /\
   error_surfaced (snd (MarketView.fetchNfts w Sample2.buying)) = true) /\
  (AuctionView.auctions (fst (AuctionView.fetchAuctions w Sample.browsing))
     = [Sample.auction] /\
   error_surfaced (snd (AuctionView.fetchAuctions w Sample.browsing)) = true) /\
  (MyNFTs.nfts (fst (MyNFTs.fetchUserNFTs w (Sample2.selling "")))
     = [Sample2.nft] /\
   error_surfaced (snd (MyNFTs.fetchUserNFTs w (Sample2.selling ""))) = true) /\
  (NFTFusion.userNFTs
     (fst (NFTFusion.fetchUserNFTs Sample3.second_detail_fails
             (NFTFusion.initial Sample.market (Some Sample.bidder)))) = [] /\
   error_surfaced
     (snd (NFTFusion.fetchUserNFTs Sample3.second_detail_fails
             (NFTFusion.initial Sample.market (Some Sample.bidder)))) = true).
Proof.
  destruct failed_fetch_keeps_snapshot as (Hm & Ha & Ho & Hf).
  split; [|split; [|split]].
  - destruct (Hm Sample3.unreachable Sample2.buying eq_refl) as (H1 & _ & H2).
    split; assumption.
  - exact (Ha Sample3.unreachable Sample.browsing eq_refl).
  - destruct (Ho Sample3.unreachable (Sample2.selling "") Sample.bidder
                eq_refl eq_refl) as (H1 & _ & H2).
    split; assumption.
  - apply (Hf Sample3.second_detail_fails
              (NFTFusion.initial Sample.market (Some Sample.bidder))
              Sample.bidder eq_refl).
    right. exists [1; 2], 2. repeat split. right. left. reflexivity.
Defined.

(** ** The stable sort *)

Section SortFacts.
Context {A : Type}.
Variable cmp : A -> A -> comparison.

Lemma sort_insert_perm :
  forall (x : A) (l : list A), Permutation (sort_insert cmp x l) (x :: l).
Proof.
  intros x l. induction l as [|y r IH]; cbn [sort_insert].
  - apply Permutation_refl.
  - destruct (cmp x y); try apply Permutation_refl.
    eapply Permutation_trans; [apply perm_skip, IH | apply perm_swap].
Qed.

Lemma Array_sort_perm :
  forall l : list A, Permutation (Array_sort cmp l) l.
Proof.
  induction l as [|x r IH]; cbn [Array_sort].
  - apply perm_nil.
  - eapply Permutation_trans; [apply sort_insert_perm | apply perm_skip, IH].
Qed.

Lemma Array_sort_In :
  forall (l : list A) (a : A), In a (Array_sort cmp l) <-> In a l.
Proof.
  intros l a. split; apply Permutation_in;
    [apply Array_sort_perm | apply Permutation_sym, Array_sort_perm].
Qed.

Lemma consistent_tail :
  forall (x : A) (l : list A), consistent cmp (x :: l) -> consistent cmp l.
Proof.
  intros x l (H1 & H2 & H3). repeat split.
  - intros a b Ha Hb. apply H1; right; assumption.
  - intros a b c Ha Hb Hc. apply H2; right; assumption.
  - intros a b c Ha Hb Hc. apply H3; right; assumption.
Qed.

Lemma consistent_perm :
  forall l l' : list A,
    Permutation l l' -> consistent cmp l -> consistent cmp l'.
Proof.
  intros l l' HP (H1 & H2 & H3).
  assert (Hin : forall a, In a l' -> In a l)
    by (intro a; apply Permutation_in, Permutation_sym, HP).
  repeat split.
  - intros a b Ha Hb. apply H1; auto.
  - intros a b c Ha Hb Hc. apply H2; auto.
  - intros a b c Ha Hb Hc. apply H3; auto.
Qed.

Lemma sort_insert_sorted :
  forall (x : A) (l : list A),
    consistent cmp (x :: l) ->
    StronglySorted (not_after cmp) l ->
    StronglySorted (not_after cmp) (sort_insert cmp x l).
Proof.
  intros x l. induction l as [|y r IH]; intros Hc Hs; cbn [sort_insert].
  - constructor; constructor.
  - inversion Hs as [|? ? Hr Hy]; subst.
    assert (Hle : cmp x y <> Gt ->
                  StronglySorted (not_after cmp) (x :: y :: r)).
    { intro Hxy. constructor; [exact Hs|]. constructor; [exact Hxy|].
      rewrite Forall_forall in Hy |- *. intros z Hz.
      destruct Hc as (_ & Htrans & _).
      apply (Htrans x y z);
        [left; reflexivity | right; left; reflexivity | right; right; exact Hz
        | exact Hxy | exact (Hy z Hz)]. }
    destruct (cmp x y) eqn:E; try (apply Hle; congruence).
    constructor.
    + apply IH; [|exact Hr].
      apply (consistent_perm (x :: y :: r) (y :: x :: r)) in Hc;
        [|apply perm_swap].
      exact (consistent_tail _ _ Hc).
    + rewrite Forall_forall in Hy |- *. intros z Hz.
      apply (Permutation_in _ (sort_insert_perm x r)) in Hz.
      destruct Hz as [<-|Hz]; [|exact (Hy z Hz)].
      destruct Hc as (Hanti & _ & _).
      apply Hanti; [left; reflexivity | right; left; reflexivity | exact E].
Qed.

Lemma Array_sort_sorted :
  forall l : list A,
    consistent cmp l -> StronglySorted (not_after cmp) (Array_sort cmp l).
Proof.
  induction l as [|x r IH]; intro Hc; cbn [Array_sort].
  - constructor.
  - apply sort_insert_sorted.
    + apply (consistent_perm (x :: r)); [|exact Hc].
      apply perm_skip, Permutation_sym, Array_sort_perm.
    + apply IH, (consistent_tail x), Hc.
Qed.

Lemma sort_insert_stable :
  forall (a x : A) (l : list A),
    (forall b c, In b (x :: l) -> In c (x :: l) ->
                 cmp a b = Eq -> cmp a c = Eq -> cmp b c = Eq) ->
    filter (tied cmp a) (sort_insert cmp x l) = filter (tied cmp a) (x :: l).
Proof.
  intros a x l. induction l as [|y r IH]; intro Hcls; cbn [sort_insert].
  - reflexivity.
  - destruct (cmp x y) eqn:E; try reflexivity.
    cbn [filter]. rewrite IH.
    + cbn [filter].
      destruct (tied cmp a x) eqn:Tx, (tied cmp a y) eqn:Ty; try reflexivity.
      exfalso. unfold tied in Tx, Ty.
      destruct (cmp a x) eqn:Ex; try discriminate.
      destruct (cmp a y) eqn:Ey; try discriminate.
      rewrite (Hcls x y) in E; cbn; auto; discriminate.
    + intros b c Hb Hc. apply Hcls; cbn in *; tauto.
Qed.

Lemma Array_sort_stable :
  forall (a : A) (l : list A),
    (forall b c, In b l -> In c l ->
                 cmp a b = Eq -> cmp a c = Eq -> cmp b c = Eq) ->
    filter (tied cmp a) (Array_sort cmp l) = filter (tied cmp a) l.
Proof.
  intros a l. induction l as [|x r IH]; intro Hcls; cbn [Array_sort].
  - reflexivity.
  - rewrite sort_insert_stable.
    + cbn [filter]. rewrite IH; [reflexivity|].
      intros b c Hb Hc. apply Hcls; right; assumption.
    + intros b c Hb Hc. apply Hcls.
      * destruct Hb as [Hb|Hb]; [left; exact Hb|right].
        apply Array_sort_In, Hb.
      * destruct Hc as [Hc|Hc]; [left; exact Hc|right].
        apply Array_sort_In, Hc.
Qed.

(** What a stable sort by one key is: the same elements, in the order of
    the key, those that compare equal in the order they came in. *)
Lemma Array_sort_spec :
  forall l : list A,
    consistent cmp l ->
    Permutation (Array_sort cmp l) l /\
    StronglySorted (not_after cmp) (Array_sort cmp l) /\
    (forall a, In a l ->
       filter (tied cmp a) (Array_sort cmp l) = filter (tied cmp a) l).
Proof.
  intros l Hc. split; [apply Array_sort_perm|].
  split; [apply Array_sort_sorted, Hc|].
  intros a Ha. apply Array_sort_stable.
  destruct Hc as (_ & _ & Hcls). intros b c Hb Hc. apply Hcls; assumption.
Qed.

(** A list that is already in the order of the key is left as it is,
    whatever else distinguishes its elements. *)
Lemma Array_sort_sorted_input :
  forall l : list A,
    Sorted (not_after cmp) l -> Array_sort cmp l = l.
Proof.
  induction l as [|x r IH]; intro Hs; cbn [Array_sort].
  - reflexivity.
  - inversion Hs as [|? ? Hr Hx]; subst. rewrite (IH Hr).
    destruct Hx as [|y r' Hxy]; cbn [sort_insert]; [reflexivity|].
    unfold not_after in Hxy. destruct (cmp x y); congruence.
Qed.

End SortFacts.

(** ** The sign of a difference of numbers *)

Section SignOfDifference.

Lemma digits2_pos_lower :
  forall m : positive, 2 ^ (Zpos (digits2_pos m) - 1) <= Zpos m.
Proof.
  induction m as [m IH|m IH|]; cbn [digits2_pos].
  - rewrite Pos2Z.inj_succ.
    replace (Z.succ (Zpos (digits2_pos m)) - 1)
      with (Z.succ (Zpos (digits2_pos m) - 1)) by lia.
    rewrite Z.pow_succ_r by lia. lia.
  - rewrite Pos2Z.inj_succ.
    replace (Z.succ (Zpos (digits2_pos m)) - 1)
      with (Z.succ (Zpos (digits2_pos m) - 1)) by lia.
    rewrite Z.pow_succ_r by lia. lia.
  - cbn. lia.
Qed.

Lemma shr_1_m :
  forall mrs : shr_record, 0 <= shr_m mrs -> shr_m (shr_1 mrs) = shr_m mrs / 2.
Proof.
  intros [m r s] Hm. cbn [shr_m] in *. unfold shr_1.
  destruct m as [|[p|p|]|p]; cbn [shr_m]; try lia; try reflexivity.
  - apply (Z.div_unique (Zpos p~1) 2 (Zpos p) 1); lia.
  - apply (Z.div_unique (Zpos p~0) 2 (Zpos p) 0); lia.
Qed.

Lemma iter_shr_m :
  forall (p : positive) (mrs : shr_record),
    0 <= shr_m mrs ->
    shr_m (iter_pos shr_1 p mrs) = shr_m mrs / 2 ^ Zpos p.
Proof.
  induction p as [p IH|p IH|]; intros mrs Hm; cbn [iter_pos].
  - assert (H1 : 0 <= shr_m (shr_1 mrs)).
    { rewrite shr_1_m by exact Hm. apply Z.div_pos; lia. }
    assert (H2 : 0 <= shr_m (iter_pos shr_1 p (shr_1 mrs))).
    { rewrite IH by exact H1. apply Z.div_pos; [exact H1|]. apply Z.pow_pos_nonneg; lia. }
    rewrite IH by exact H2. rewrite IH by exact H1. rewrite shr_1_m by exact Hm.
    assert (E : 2 ^ Zpos p~1 = 2 * (2 ^ Zpos p * 2 ^ Zpos p)).
    { rewrite (Pos2Z.inj_xI p).
      replace (2 * Zpos p + 1) with (Zpos p + Zpos p + 1) by lia.
      rewrite !Z.pow_add_r by lia. rewrite Z.pow_1_r. ring. }
    rewrite E.
    assert (Hpow : 0 < 2 ^ Zpos p) by (apply Z.pow_pos_nonneg; lia).
    rewrite !Z.div_div by lia. reflexivity.
  - assert (H2 : 0 <= shr_m (iter_pos shr_1 p mrs)).
    { rewrite IH by exact Hm. apply Z.div_pos; [exact Hm|]. apply Z.pow_pos_nonneg; lia. }
    rewrite IH by exact H2. rewrite IH by exact Hm.
    assert (E : 2 ^ Zpos p~0 = 2 ^ Zpos p * 2 ^ Zpos p).
    { rewrite (Pos2Z.inj_xO p).
      replace (2 * Zpos p) with (Zpos p + Zpos p) by lia.
      rewrite !Z.pow_add_r by lia. reflexivity. }
    rewrite E.
    assert (Hpow : 0 < 2 ^ Zpos p) by (apply Z.pow_pos_nonneg; lia).
    rewrite !Z.div_div by lia. reflexivity.
  - rewrite shr_1_m by exact Hm. reflexivity.
Qed.

Lemma shr_record_of_loc_m :
  forall m l, shr_m (shr_record_of_loc m l) = m.
Proof. intros m [|[]]; reflexivity. Qed.

(** Shifting a positive mantissa to its working precision keeps it
    positive, when its exponent is at least the least one. *)
Lemma shr_fexp_pos :
  forall (m e : Z) (l : location),
    0 < m -> emin64 <= e ->
    0 < shr_m (fst (shr_fexp prec emax m e l)) /\
    emin64 <= snd (shr_fexp prec emax m e l).
Proof.
  intros m e l Hm He. unfold shr_fexp, shr.
  destruct m as [|m|m]; try lia. cbn [Zdigits2].
  destruct (fexp prec emax (Zpos (digits2_pos m) + e) - e) as [|p|p] eqn:En;
    cbn [fst snd]; rewrite ?shr_record_of_loc_m; try (split; [lia|exact He]).
  rewrite iter_shr_m by (rewrite shr_record_of_loc_m; lia).
  rewrite shr_record_of_loc_m.
  unfold fexp in En. fold emin64 in En.
  assert (Hp : Zpos p = Zpos (digits2_pos m) - prec).
  { destruct (Z.max_spec (Zpos (digits2_pos m) + e - prec) emin64) as [[_ H]|[_ H]];
      rewrite H in En; lia. }
  split; [|lia].
  pose proof (digits2_pos_lower m) as Hlow.
  apply Z.div_str_pos. split; [apply Z.pow_pos_nonneg; lia|].
  eapply Z.le_trans; [|exact Hlow].
  apply Z.pow_le_mono_r; [lia|]. rewrite Hp. unfold prec. lia.
Qed.

Lemma round_nearest_even_ge :
  forall mx lx, mx <= round_nearest_even mx lx.
Proof.
  intros mx [|[]]; cbn; try lia. destruct (Z.even mx); lia.
Qed.

Lemma binary_round_aux_signed :
  forall (sx : bool) (mx ex : Z) (lx : location),
    0 < mx -> emin64 <= ex ->
    signed sx (binary_round_aux prec emax sx mx ex lx).
Proof.
  intros sx mx ex lx Hm He. unfold binary_round_aux.
  pose proof (shr_fexp_pos mx ex lx Hm He) as [H1 H2].
  destruct (shr_fexp prec emax mx ex lx) as [mrs' e']. cbn [fst snd] in *.
  pose proof (round_nearest_even_ge (shr_m mrs') (loc_of_shr_record mrs')) as Hr.
  assert (Hpos : 0 < round_nearest_even (shr_m mrs') (loc_of_shr_record mrs'))
    by lia.
  pose proof (shr_fexp_pos _ e' loc_Exact Hpos H2) as [H3 _].
  destruct (shr_fexp prec emax _ e' loc_Exact) as [mrs'' e'']. cbn [fst snd] in *.
  destruct (shr_m mrs'') as [|m|m]; try lia.
  destruct (e'' <=? emax - prec); reflexivity.
Qed.

Lemma binary_round_signed :
  forall (sx : bool) (mx : positive) (ex : Z),
    emin64 <= ex -> signed sx (binary_round prec emax sx mx ex).
Proof.
  intros sx mx ex He. unfold binary_round, shl_align.
  assert (Hf : emin64 <= fexp prec emax (Zpos (digits2_pos mx) + ex)).
  { unfold fexp. fold emin64. lia. }
  destruct (fexp prec emax (Zpos (digits2_pos mx) + ex) - ex) as [|d|d];
    apply binary_round_aux_signed; lia.
Qed.

Lemma binary_normalize_sign :
  forall (m e : Z),
    emin64 <= e ->
    match m ?= 0 with
    | Eq => binary_normalize prec emax m e false = S754_zero false
    | Lt => signed true (binary_normalize prec emax m e false)
    | Gt => signed false (binary_normalize prec emax m e false)
    end.
Proof.
  intros [|m|m] e He; cbn [Z.compare binary_normalize].
  - reflexivity.
  - apply binary_round_signed, He.
  - apply binary_round_signed, He.
Qed.


Lemma sgn_signed :
  forall (s : bool) (v : spec_float),
    signed s v -> sgn v = if s then Lt else Gt.
Proof.
  intros s [| | |s' m e] H; cbn in H; try contradiction; subst;
    destruct s; reflexivity.
Qed.

Lemma valid_exponent :
  forall s m e,
    valid_binary (S754_finite s m e) = true -> emin64 <= e.
Proof.
  intros s m e H. cbn [valid_binary] in H. unfold bounded in H.
  apply andb_prop in H. destruct H as [H _].
  unfold canonical_mantissa in H. apply Z.eqb_eq in H.
  unfold fexp in H. fold emin64 in H. lia.
Qed.

Lemma shl_align_value :
  forall (m : positive) (e ez : Z),
    ez <= e -> Zpos (fst (shl_align m e ez)) = Zpos m * 2 ^ (e - ez).
Proof.
  intros m e ez H. unfold shl_align.
  destruct (ez - e) as [|d|d] eqn:E; cbn [fst]; try lia.
  - replace (e - ez) with 0 by lia. lia.
  - replace (e - ez) with (Zpos d) by lia.
    change (Pos.iter xO m d) with (shift_pos d m).
    rewrite shift_pos_correct. change (2 ^ Zpos d) with (Z.pow_pos 2 d). lia.
Qed.

Lemma SFsub_sgn :
  forall x y : spec_float,
    valid_binary x = true -> valid_binary y = true ->
    x <> S754_nan -> y <> S754_nan ->
    sgn (SF64sub x y) = lex (rank x) (rank y).
Proof.
  intros x y Vx Vy Nx Ny.
  destruct x as [sx|sx| |sx mx ex], y as [sy|sy| |sy my ey];
    try congruence;
    try (destruct sx, sy; reflexivity);
    try (destruct sx; reflexivity);
    try (destruct sy; reflexivity).
  - (* 0 - finite *)
    pose proof (valid_exponent _ _ _ Vy) as Hy.
    assert (0 < Zpos my * 2 ^ (ey - emin64))
      by (apply Z.mul_pos_pos; [lia|apply Z.pow_pos_nonneg; lia]).
    unfold SF64sub, lex; cbn [SFsub rank fst snd]; rewrite Z.compare_refl.
    rewrite (sgn_signed (negb sy)) by reflexivity.
    destruct sy; cbn [negb cond_Zopp]; symmetry.
    + apply Z.compare_gt_iff. lia.
    + apply Z.compare_lt_iff. lia.
  - (* finite - 0 *)
    pose proof (valid_exponent _ _ _ Vx) as Hx.
    assert (0 < Zpos mx * 2 ^ (ex - emin64))
      by (apply Z.mul_pos_pos; [lia|apply Z.pow_pos_nonneg; lia]).
    unfold SF64sub, lex; cbn [SFsub rank fst snd]; rewrite Z.compare_refl.
    rewrite (sgn_signed sx) by reflexivity.
    destruct sx; cbn [cond_Zopp]; symmetry.
    + apply Z.compare_lt_iff. lia.
    + apply Z.compare_gt_iff. lia.
  - (* finite - finite *)
    pose proof (valid_exponent _ _ _ Vx) as Hx.
    pose proof (valid_exponent _ _ _ Vy) as Hy.
    unfold SF64sub, lex; cbn [SFsub rank fst snd]; rewrite Z.compare_refl.
    set (ez := Z.min ex ey).
    assert (Hez : emin64 <= ez) by (unfold ez; lia).
    rewrite !shl_align_value by (unfold ez; lia).
    set (D := cond_Zopp sx (Zpos mx * 2 ^ (ex - ez))
              - cond_Zopp sy (Zpos my * 2 ^ (ey - ez))).
    assert (Hscale : cond_Zopp sx (Zpos mx * 2 ^ (ex - emin64))
                     - cond_Zopp sy (Zpos my * 2 ^ (ey - emin64))
                     = D * 2 ^ (ez - emin64)).
    { unfold D.
      replace (ex - emin64) with ((ex - ez) + (ez - emin64)) by lia.
      replace (ey - emin64) with ((ey - ez) + (ez - emin64)) by lia.
      rewrite !Z.pow_add_r by (unfold ez; lia).
      destruct sx, sy; cbn [cond_Zopp]; ring. }
    assert (Hp : 0 < 2 ^ (ez - emin64)) by (apply Z.pow_pos_nonneg; lia).
    pose proof (binary_normalize_sign D ez Hez) as Hn.
    destruct (Z.compare_spec D 0) as [HD|HD|HD].
    + rewrite Hn. symmetry. apply Z.compare_eq_iff.
      rewrite HD in Hscale. lia.
    + rewrite (sgn_signed true) by exact Hn. symmetry.
      apply Z.compare_lt_iff. nia.
    + rewrite (sgn_signed false) by exact Hn. symmetry.
      apply Z.compare_gt_iff. nia.
Qed.

Lemma not_nan_spec :
  forall x : float, PrimFloat.is_nan x = false -> Prim2SF x <> S754_nan.
Proof.
  intros x H E. unfold PrimFloat.is_nan in H.
  rewrite FloatAxioms.eqb_spec, E in H. discriminate.
Qed.

Lemma sign_of_difference :
  forall x y : float,
    PrimFloat.is_nan x = false -> PrimFloat.is_nan y = false ->
    sign_of_number (x - y)%float = lex (rank (Prim2SF x)) (rank (Prim2SF y)).
Proof.
  intros x y Hx Hy. unfold sign_of_number.
  rewrite !FloatAxioms.ltb_spec, FloatAxioms.sub_spec.
  change (Prim2SF 0%float) with (S754_zero false).
  apply (SFsub_sgn (Prim2SF x) (Prim2SF y));
    auto using Prim2SF_valid, not_nan_spec.
Qed.

Lemma SFcompare_swap :
  forall x y : spec_float,
    SFcompare y x = option_map CompOpp (SFcompare x y).
Proof.
  intros [sx|sx| |sx mx ex] [sy|sy| |sy my ey]; cbn [SFcompare option_map];
    try reflexivity;
    try (destruct sx; reflexivity); try (destruct sy; reflexivity);
    try (destruct sx, sy; reflexivity).
  destruct sx, sy; cbn [CompOpp]; try reflexivity.
  - rewrite (Z.compare_antisym ey ex).
    destruct (ey ?= ex); cbn [CompOpp]; try reflexivity.
    first [rewrite (Pos.compare_cont_antisym my mx Eq)
          |rewrite (Pos.compare_cont_antisym mx my Eq)].
    cbn [CompOpp]. rewrite ?CompOpp_involutive. reflexivity.
  - rewrite (Z.compare_antisym ey ex).
    destruct (ey ?= ex); cbn [CompOpp]; try reflexivity.
    first [rewrite (Pos.compare_cont_antisym my mx Eq)
          |rewrite (Pos.compare_cont_antisym mx my Eq)].
    cbn [CompOpp]. rewrite ?CompOpp_involutive. reflexivity.
Qed.

Lemma SFcompare_nan :
  forall x y : spec_float,
    SFcompare x y = None <-> x = S754_nan \/ y = S754_nan.
Proof.
  intros [sx|sx| |sx mx ex] [sy|sy| |sy my ey]; cbn [SFcompare];
    split; intro H; try discriminate; try reflexivity; auto;
    destruct H as [H|H]; discriminate.
Qed.

Lemma is_nan_spec :
  forall x : float, PrimFloat.is_nan x = true <-> Prim2SF x = S754_nan.
Proof.
  intro x. unfold PrimFloat.is_nan. rewrite FloatAxioms.eqb_spec.
  unfold SFeqb. split.
  - intro H. destruct (SFcompare (Prim2SF x) (Prim2SF x)) as [c|] eqn:E.
    + assert (Hc : c = Eq).
      { pose proof (SFcompare_swap (Prim2SF x) (Prim2SF x)) as Hs.
        rewrite E in Hs. cbn in Hs. injection Hs as Hs.
        destruct (Prim2SF x) as [s|s| |s m e]; cbn in E; try discriminate;
          try (injection E as <-; reflexivity);
          try (destruct s; injection E as <-; reflexivity).
        destruct s; rewrite Z.compare_refl in E;
          change (PosDef.Pos.compare_cont Eq m m) with (Pos.compare m m) in E;
          rewrite Pos.compare_refl in E; injection E as <-; reflexivity. }
      subst c. discriminate.
    + apply SFcompare_nan in E. tauto.
  - intro H. rewrite H. reflexivity.
Qed.

Lemma digits2_pos_upper :
  forall m : positive, Zpos m < 2 ^ Zpos (digits2_pos m).
Proof.
  induction m as [m IH|m IH|]; cbn [digits2_pos].
  - rewrite Pos2Z.inj_succ, Z.pow_succ_r by lia. lia.
  - rewrite Pos2Z.inj_succ, Z.pow_succ_r by lia. lia.
  - reflexivity.
Qed.

(** The mantissa of a number has at most 53 bits, and exactly 53 above the
    least exponent. *)
Lemma valid_mantissa :
  forall s m e,
    valid_binary (S754_finite s m e) = true ->
    Zpos m < 2 ^ 53 /\ (emin64 < e -> 2 ^ 52 <= Zpos m).
Proof.
  intros s m e H. cbn [valid_binary] in H. unfold bounded in H.
  apply andb_prop in H. destruct H as [H _].
  unfold canonical_mantissa in H. apply Z.eqb_eq in H.
  unfold fexp in H. fold emin64 in H.
  change prec with 53 in H.
  pose proof (digits2_pos_upper m) as Hu.
  pose proof (digits2_pos_lower m) as Hl.
  split.
  - assert (Hd : Zpos (digits2_pos m) <= 53) by lia.
    eapply Z.lt_le_trans; [exact Hu|].
    apply Z.pow_le_mono_r; lia.
  - intro He. assert (Hd : Zpos (digits2_pos m) = 53) by lia.
    rewrite Hd in Hl. exact Hl.
Qed.

Lemma finite_order :
  forall s1 m1 e1 s2 m2 e2,
    valid_binary (S754_finite s1 m1 e1) = true ->
    valid_binary (S754_finite s2 m2 e2) = true ->
    (Zpos m1 * 2 ^ (e1 - emin64) ?= Zpos m2 * 2 ^ (e2 - emin64))
    = match e1 ?= e2 with
      | Eq => Pos.compare_cont Eq m1 m2
      | c => c
      end.
Proof.
  intros s1 m1 e1 s2 m2 e2 V1 V2.
  pose proof (valid_exponent _ _ _ V1) as H1.
  pose proof (valid_exponent _ _ _ V2) as H2.
  destruct (valid_mantissa _ _ _ V1) as [U1 L1].
  destruct (valid_mantissa _ _ _ V2) as [U2 L2].
  assert (Hstep : forall ma ea mb eb,
             emin64 <= ea -> ea < eb -> Zpos ma < 2 ^ 53 ->
             2 ^ 52 <= Zpos mb ->
             Zpos ma * 2 ^ (ea - emin64) < Zpos mb * 2 ^ (eb - emin64)).
  { clear. intros ma ea mb eb Ha Hab Hma Hmb.
    replace (eb - emin64) with ((eb - ea - 1) + 1 + (ea - emin64)) by lia.
    rewrite !Z.pow_add_r by lia.
    assert (0 < 2 ^ (ea - emin64)) by (apply Z.pow_pos_nonneg; lia).
    assert (0 < 2 ^ (eb - ea - 1)) by (apply Z.pow_pos_nonneg; lia).
    change (2 ^ 1) with 2. change (2 ^ 53) with (2 * 2 ^ 52) in Hma.
    assert (HK : 0 < 2 ^ 52) by reflexivity.
    generalize dependent (2 ^ 52). intros K Hma Hmb HK.
    generalize dependent (2 ^ (ea - emin64)). intros A HA.
    generalize dependent (2 ^ (eb - ea - 1)). intros P HP.
    assert (H1 : Zpos ma * A < 2 * K * A)
      by (apply Z.mul_lt_mono_pos_r; lia).
    assert (H2 : Zpos mb * 1 <= Zpos mb * P)
      by (apply Z.mul_le_mono_nonneg_l; lia).
    assert (H3 : K * (2 * A) <= Zpos mb * P * (2 * A))
      by (apply Z.mul_le_mono_nonneg_r; lia).
    replace (Zpos mb * (P * 2 * A)) with (Zpos mb * P * (2 * A)) by ring.
    lia. }
  destruct (Z.compare_spec e1 e2) as [E|E|E].
  - subst e2.
    assert (0 < 2 ^ (e1 - emin64)) by (apply Z.pow_pos_nonneg; lia).
    change (Pos.compare_cont Eq m1 m2) with (Zpos m1 ?= Zpos m2).
    destruct (Z.compare_spec (Zpos m1) (Zpos m2)) as [E|E|E].
    + rewrite E. apply Z.compare_refl.
    + apply Z.compare_lt_iff. nia.
    + apply Z.compare_gt_iff. nia.
  - apply Z.compare_lt_iff. apply Hstep; auto; lia.
  - apply Z.compare_gt_iff. apply Hstep; auto; lia.
Qed.

(** The comparison of two numbers is the order of their places. *)
Lemma SFcompare_rank :
  forall x y : spec_float,
    valid_binary x = true -> valid_binary y = true ->
    x <> S754_nan -> y <> S754_nan ->
    SFcompare x y = Some (lex (rank x) (rank y)).
Proof.
  intros x y Vx Vy Nx Ny.
  destruct x as [sx|sx| |sx mx ex], y as [sy|sy| |sy my ey];
    try congruence;
    try (destruct sx, sy; reflexivity);
    try (destruct sx; reflexivity);
    try (destruct sy; reflexivity).
  - (* 0, finite *)
    pose proof (valid_exponent _ _ _ Vy) as Hy.
    assert (0 < Zpos my * 2 ^ (ey - emin64))
      by (apply Z.mul_pos_pos; [lia|apply Z.pow_pos_nonneg; lia]).
    unfold lex; cbn [SFcompare rank fst snd]; rewrite Z.compare_refl.
    f_equal. destruct sy; cbn [cond_Zopp]; symmetry.
    + apply Z.compare_gt_iff. lia.
    + apply Z.compare_lt_iff. lia.
  - (* finite, 0 *)
    pose proof (valid_exponent _ _ _ Vx) as Hx.
    assert (0 < Zpos mx * 2 ^ (ex - emin64))
      by (apply Z.mul_pos_pos; [lia|apply Z.pow_pos_nonneg; lia]).
    unfold lex; cbn [SFcompare rank fst snd]; rewrite Z.compare_refl.
    f_equal. destruct sx; cbn [cond_Zopp]; symmetry.
    + apply Z.compare_lt_iff. lia.
    + apply Z.compare_gt_iff. lia.
  - (* finite, finite *)
    pose proof (valid_exponent _ _ _ Vx) as Hx.
    pose proof (valid_exponent _ _ _ Vy) as Hy.
    assert (Px : 0 < Zpos mx * 2 ^ (ex - emin64))
      by (apply Z.mul_pos_pos; [lia|apply Z.pow_pos_nonneg; lia]).
    assert (Py : 0 < Zpos my * 2 ^ (ey - emin64))
      by (apply Z.mul_pos_pos; [lia|apply Z.pow_pos_nonneg; lia]).
    pose proof (finite_order sx mx ex sy my ey Vx Vy) as Ho.
    unfold lex; cbn [SFcompare rank fst snd]; rewrite Z.compare_refl.
    f_equal. destruct sx, sy; cbn [cond_Zopp].
    + rewrite Z.compare_opp.
      rewrite (Z.compare_antisym (Zpos mx * 2 ^ (ex - emin64))), Ho.
      destruct (ex ?= ey); reflexivity.
    + symmetry. apply Z.compare_lt_iff. lia.
    + symmetry. apply Z.compare_gt_iff. lia.
    + rewrite Ho. destruct (ex ?= ey); reflexivity.
Qed.

Lemma leb_not_nan :
  forall x y : float,
    (x <=? y)%float = true ->
    PrimFloat.is_nan x = false /\ PrimFloat.is_nan y = false.
Proof.
  intros x y H. rewrite FloatAxioms.leb_spec in H. unfold SFleb in H.
  pose proof (SFcompare_nan (Prim2SF x) (Prim2SF y)) as Hn.
  destruct (SFcompare (Prim2SF x) (Prim2SF y)) as [c|]; [|discriminate].
  split.
  - destruct (PrimFloat.is_nan x) eqn:E; [|reflexivity].
    apply is_nan_spec in E.
    assert (Hc : @None comparison = Some c) by (symmetry; apply Hn; auto).
    discriminate.
  - destruct (PrimFloat.is_nan y) eqn:E; [|reflexivity].
    apply is_nan_spec in E.
    assert (Hc : @None comparison = Some c) by (symmetry; apply Hn; auto).
    discriminate.
Qed.

(** The sign of a difference of two numbers is their comparison. *)
Lemma difference_compares :
  forall x y : float,
    PrimFloat.is_nan x = false -> PrimFloat.is_nan y = false ->
    (sign_of_number (x - y)%float <> Gt <-> (x <=? y)%float = true) /\
    (sign_of_number (x - y)%float = Eq <-> (x =? y)%float = true).
Proof.
  intros x y Hx Hy. rewrite (sign_of_difference x y Hx Hy).
  rewrite FloatAxioms.leb_spec, FloatAxioms.eqb_spec. unfold SFleb, SFeqb.
  rewrite (SFcompare_rank (Prim2SF x) (Prim2SF y))
    by auto using Prim2SF_valid, not_nan_spec.
  destruct (lex _ _); split; split; intro H; try reflexivity;
    try discriminate; congruence.
Qed.

Lemma shr_fexp_nonneg :
  forall (m e : Z) (l : location),
    0 <= m -> 0 <= shr_m (fst (shr_fexp prec emax m e l)).
Proof.
  intros m e l Hm. unfold shr_fexp, shr.
  destruct (fexp prec emax (Zdigits2 m + e) - e) as [|p|p]; cbn [fst];
    rewrite ?iter_shr_m by (rewrite shr_record_of_loc_m; exact Hm);
    rewrite shr_record_of_loc_m; try exact Hm.
  apply Z.div_pos; [exact Hm|]. apply Z.pow_pos_nonneg; lia.
Qed.

Lemma binary_round_aux_not_nan :
  forall (sx : bool) (mx ex : Z) (lx : location),
    0 <= mx -> binary_round_aux prec emax sx mx ex lx <> S754_nan.
Proof.
  intros sx mx ex lx Hm. unfold binary_round_aux.
  pose proof (shr_fexp_nonneg mx ex lx Hm) as H1.
  destruct (shr_fexp prec emax mx ex lx) as [mrs' e']. cbn [fst] in H1.
  pose proof (round_nearest_even_ge (shr_m mrs') (loc_of_shr_record mrs')) as Hr.
  pose proof (shr_fexp_nonneg
                (round_nearest_even (shr_m mrs') (loc_of_shr_record mrs'))
                e' loc_Exact ltac:(lia)) as H2.
  destruct (shr_fexp prec emax _ e' loc_Exact) as [mrs'' e'']. cbn [fst] in H2.
  destruct (shr_m mrs'') as [|m|m]; try lia; try discriminate.
  destruct (e'' <=? emax - prec); discriminate.
Qed.

Lemma binary_round_not_nan :
  forall (sx : bool) (mx : positive) (ex : Z),
    binary_round prec emax sx mx ex <> S754_nan.
Proof.
  intros sx mx ex. unfold binary_round.
  destruct (shl_align mx ex _) as [mz ez].
  apply binary_round_aux_not_nan. lia.
Qed.

Lemma binary_normalize_not_nan :
  forall (m e : Z), binary_normalize prec emax m e false <> S754_nan.
Proof.
  intros [|m|m] e; cbn [binary_normalize];
    [discriminate|apply binary_round_not_nan|apply binary_round_not_nan].
Qed.

Lemma SF2Prim_not_nan :
  forall v : spec_float, v <> S754_nan -> Prim2SF (SF2Prim v) <> S754_nan.
Proof.
  intros [[]|[]| |s m e] Hv; try (vm_compute; discriminate);
    [destruct (Hv eq_refl)|].
  cbn [SF2Prim].
  assert (Hf : Prim2SF (Z.ldexp (of_uint63 (of_Z (Zpos m))) e) <> S754_nan).
  { rewrite Z_ldexp_spec, FloatAxioms.of_uint63_spec.
    pose proof (binary_normalize_not_nan (Uint63.to_Z (of_Z (Zpos m))) 0) as Hn.
    destruct (binary_normalize prec emax _ 0 false) as [| | |s' m' e'];
      cbn [SFldexp]; try discriminate; [exact Hn|].
    apply binary_round_not_nan. }
  destruct s; [|exact Hf].
  rewrite FloatAxioms.opp_spec.
  destruct (Prim2SF (Z.ldexp (of_uint63 (of_Z (Zpos m))) e));
    cbn [SFopp]; try discriminate. exact Hf.
Qed.

(** The number made of an integer is a number. *)
Lemma b64_is_a_number :
  forall z : Z, PrimFloat.is_nan (JS.b64 z) = false.
Proof.
  intro z. destruct (PrimFloat.is_nan (JS.b64 z)) eqn:E; [|reflexivity].
  apply is_nan_spec in E. unfold JS.b64 in E.
  destruct (SF2Prim_not_nan _ (binary_normalize_not_nan z 0) E).
Qed.

Lemma digits2_pos_shift :
  forall (m k : positive),
    digits2_pos (Pos.iter xO m k) = (digits2_pos m + k)%positive.
Proof.
  intros m k. induction k as [|k IH] using Pos.peano_ind.
  - cbn. lia.
  - rewrite Pos.iter_succ. cbn [digits2_pos]. rewrite IH. lia.
Qed.

(** An integer below 2^53 is a number as it stands: the mantissa is the
    integer moved up to 53 bits, the exponent moves it back. *)
Lemma binary_normalize_small :
  forall m : positive,
    Zpos m < 2 ^ 53 ->
    exists (mz : positive) (k : Z),
      0 <= k /\ Zpos mz = Zpos m * 2 ^ k /\
      binary_normalize prec emax (Zpos m) 0 false = S754_finite false mz (- k) /\
      valid_binary (S754_finite false mz (- k)) = true.
Proof.
  intros m Hm.
  pose proof (digits2_pos_lower m) as Hl.
  assert (Hd : Zpos (digits2_pos m) <= 53).
  { destruct (Z_le_gt_dec (Zpos (digits2_pos m)) 53) as [H|H]; [exact H|].
    exfalso.
    assert (2 ^ 53 <= 2 ^ (Zpos (digits2_pos m) - 1))
      by (apply Z.pow_le_mono_r; lia).
    lia. }
  set (d := Zpos (digits2_pos m)) in *.
  assert (Hfexp : forall mz : positive,
             Zpos (digits2_pos mz) = 53 ->
             binary_round_aux prec emax false (Zpos mz) (d - 53) loc_Exact
             = S754_finite false mz (d - 53) /\
             valid_binary (S754_finite false mz (d - 53)) = true).
  { intros mz Hmz.
    assert (E : SpecFloat.fexp prec emax (Zpos (digits2_pos mz) + (d - 53))
                = d - 53).
    { unfold SpecFloat.fexp. rewrite Hmz. change prec with 53.
      change (SpecFloat.emin 53 emax) with (-1074). unfold d. lia. }
    split.
    - unfold binary_round_aux, shr_fexp. cbn [Zdigits2 shr_record_of_loc].
      rewrite E, Z.sub_diag. cbn [shr shr_m loc_of_shr_record round_nearest_even].
      cbn [Zdigits2 shr_record_of_loc]. rewrite E, Z.sub_diag.
      cbn [shr shr_m].
      replace (d - 53 <=? emax - prec) with true; [reflexivity|].
      symmetry. apply Z.leb_le. change (emax - prec) with 971. lia.
    - cbn [valid_binary]. unfold bounded, canonical_mantissa.
      rewrite E, Z.eqb_refl. cbn [andb]. apply Z.leb_le.
      change (emax - prec) with 971. lia. }
  assert (Hf0 : SpecFloat.fexp prec emax (d + 0) = d - 53).
  { unfold SpecFloat.fexp. change prec with 53.
    change (SpecFloat.emin 53 emax) with (-1074). unfold d. lia. }
  cbn [binary_normalize]. unfold binary_round. fold d. rewrite Hf0.
  unfold shl_align. rewrite Z.sub_0_r.
  destruct (d - 53) as [|p|p] eqn:Ek; try (unfold d in *; lia).
  - exists m, 0. rewrite <- Ek.
    destruct (Hfexp m ltac:(fold d; lia)) as [H1 H2].
    rewrite Ek in *. split; [lia|]. split; [lia|]. split; assumption.
  - exists (Pos.iter xO m p), (Zpos p). rewrite <- Ek.
    assert (Hdig : Zpos (digits2_pos (Pos.iter xO m p)) = 53).
    { rewrite digits2_pos_shift, Pos2Z.inj_add. fold d. lia. }
    destruct (Hfexp _ Hdig) as [H1 H2]. rewrite Ek in *.
    split; [lia|]. split; [|split; assumption].
    change (Pos.iter xO m p) with (shift_pos p m).
    rewrite shift_pos_correct. change (2 ^ Zpos p) with (Z.pow_pos 2 p). lia.
Qed.

(** The place of an integer up to 2^53 among the numbers is the integer
    itself. *)
Lemma rank_of_integer :
  forall z : Z,
    0 <= z -> JS.safe_integer z = true ->
    rank (Prim2SF (JS.b64 z)) = (0, z * 2 ^ 1074).
Proof.
  intros z Hz Hs. unfold JS.safe_integer in Hs. apply Z.leb_le in Hs.
  rewrite Z.abs_eq in Hs by exact Hz.
  destruct (Z.eq_dec z (2 ^ 53)) as [->|Hne]; [vm_compute; reflexivity|].
  destruct z as [|m|m]; [reflexivity| |lia].
  destruct (binary_normalize_small m ltac:(lia))
    as (mz & k & Hk & Hmz & Hn & Hv).
  unfold JS.b64. rewrite Hn, (FloatAxioms.Prim2SF_SF2Prim _ Hv).
  cbn [rank cond_Zopp]. f_equal. rewrite Hmz, <- Z.mul_assoc. f_equal.
  assert (Hb : - 1074 <= - k).
  { cbn [valid_binary] in Hv. unfold bounded, canonical_mantissa in Hv.
    apply andb_prop in Hv. destruct Hv as [Hv _]. apply Z.eqb_eq in Hv.
    unfold SpecFloat.fexp in Hv.
    change (SpecFloat.emin prec emax) with (- 1074) in Hv. lia. }
  change emin64 with (- 1074). rewrite <- Z.pow_add_r by lia.
  f_equal. lia.
Qed.

(** On the integers from 0 to 2^53 the order of the numbers is the order
    of the integers: there the comparators of the date and rarity keys
    order the integers themselves. *)
Lemma number_order_of_integers :
  forall x y : Z,
    0 <= x -> 0 <= y ->
    JS.safe_integer x = true -> JS.safe_integer y = true ->
    (JS.b64 x <=? JS.b64 y)%float = (x <=? y) /\
    (JS.b64 x =? JS.b64 y)%float = (x =? y).
Proof.
  intros x y Hx Hy Sx Sy.
  rewrite FloatAxioms.leb_spec, FloatAxioms.eqb_spec. unfold SFleb, SFeqb.
  rewrite (SFcompare_rank (Prim2SF (JS.b64 x)) (Prim2SF (JS.b64 y)))
    by auto using Prim2SF_valid, not_nan_spec, b64_is_a_number.
  rewrite (rank_of_integer x Hx Sx), (rank_of_integer y Hy Sy).
  unfold lex. cbn [fst snd Z.compare].
  assert (Hp : 0 < 2 ^ 1074) by (apply Z.pow_pos_nonneg; lia).
  generalize dependent (2 ^ 1074). intros p Hp.
  replace (x * p ?= y * p) with (x ?= y).
  - unfold Z.leb. rewrite Z.eqb_compare.
    destruct (x ?= y); split; reflexivity.
  - destruct (Z.compare_spec x y) as [E|E|E]; symmetry;
      [apply Z.compare_eq_iff|apply Z.compare_lt_iff|apply Z.compare_gt_iff];
      nia.
Qed.

(** Beyond 2^53 distinct integers can be the same number: the two are
    tied for every comparator. *)
Lemma integers_beyond_the_safe_range_are_tied :
  (JS.b64 9007199254740993 =? JS.b64 9007199254740992)%float = true.
Proof. reflexivity. Qed.

End SignOfDifference.

Lemma lex_consistent :
  forall {A : Type} (key : A -> Z * Z) (l : list A),
    consistent (fun a b => lex (key a) (key b)) l.
Proof.
  intros A key l. unfold lex. repeat split.
  - intros a b _ _ H.
    destruct (Z.compare_spec (fst (key a)) (fst (key b)));
      destruct (Z.compare_spec (fst (key b)) (fst (key a))); try lia;
      try discriminate.
    rewrite Z.compare_gt_iff in *. lia.
  - intros a b c _ _ _ H1 H2.
    destruct (Z.compare_spec (fst (key a)) (fst (key b)));
      destruct (Z.compare_spec (fst (key b)) (fst (key c)));
      destruct (Z.compare_spec (fst (key a)) (fst (key c)));
      try lia; try congruence.
    rewrite Z.compare_gt_iff in *. lia.
  - intros a b c _ _ _ H1 H2.
    destruct (Z.compare_spec (fst (key a)) (fst (key b)));
      destruct (Z.compare_spec (fst (key a)) (fst (key c)));
      destruct (Z.compare_spec (fst (key b)) (fst (key c)));
      try lia; try congruence.
    rewrite Z.compare_eq_iff in *. lia.
Qed.

Lemma lex_desc_consistent :
  forall {A : Type} (key : A -> Z * Z) (l : list A),
    consistent (fun a b => lex (key b) (key a)) l.
Proof.
  intros A key l. unfold lex. repeat split.
  - intros a b _ _ H.
    destruct (Z.compare_spec (fst (key a)) (fst (key b)));
      destruct (Z.compare_spec (fst (key b)) (fst (key a))); try lia;
      try discriminate.
    rewrite Z.compare_gt_iff in *. lia.
  - intros a b c _ _ _ H1 H2.
    destruct (Z.compare_spec (fst (key b)) (fst (key a)));
      destruct (Z.compare_spec (fst (key c)) (fst (key b)));
      destruct (Z.compare_spec (fst (key c)) (fst (key a)));
      try lia; try congruence.
    rewrite Z.compare_gt_iff in *. lia.
  - intros a b c _ _ _ H1 H2.
    destruct (Z.compare_spec (fst (key b)) (fst (key a)));
      destruct (Z.compare_spec (fst (key c)) (fst (key a)));
      destruct (Z.compare_spec (fst (key c)) (fst (key b)));
      try lia; try congruence.
    rewrite Z.compare_eq_iff in *. lia.
Qed.

(** Two comparators that agree on the elements of a list are consistent
    on it together. *)
Lemma consistent_ext :
  forall {A : Type} (c1 c2 : A -> A -> comparison) (l : list A),
    (forall a b, In a l -> In b l -> c1 a b = c2 a b) ->
    consistent c2 l -> consistent c1 l.
Proof.
  intros A c1 c2 l Heq (H1 & H2 & H3). repeat split.
  - intros a b Ha Hb. rewrite !Heq by assumption. apply H1; assumption.
  - intros a b c Ha Hb Hc. rewrite !Heq by assumption. apply H2; assumption.
  - intros a b c Ha Hb Hc. rewrite !Heq by assumption. apply H3; assumption.
Qed.

(** Subtracting a numeric key is a consistent comparator on every list
    without a [NaN] key. *)
Lemma number_key_consistent :
  forall {A : Type} (key : A -> float) (l : list A),
    (forall a, In a l -> PrimFloat.is_nan (key a) = false) ->
    consistent (fun a b => sign_of_number (key a - key b)%float) l /\
    consistent (fun a b => sign_of_number (key b - key a)%float) l.
Proof.
  intros A key l Hnan. split.
  - apply (consistent_ext _ (fun a b => lex (rank (Prim2SF (key a)))
                                            (rank (Prim2SF (key b))))).
    + intros a b Ha Hb. apply sign_of_difference; apply Hnan; assumption.
    + apply (lex_consistent (fun a => rank (Prim2SF (key a)))).
  - apply (consistent_ext _ (fun a b => lex (rank (Prim2SF (key b)))
                                            (rank (Prim2SF (key a))))).
    + intros a b Ha Hb. apply sign_of_difference; apply Hnan; assumption.
    + apply (lex_desc_consistent (fun a => rank (Prim2SF (key a)))).
Qed.

(** ** The query of the market page *)

Section Query.
Import MarketView MarketPage.

(** C4: the snapshot [{id:1, rarity:2, price:5}, {id:2, rarity:1,
    price:3}] under the filter rarity = 1, sorted by price ascending,
    page size 8: page 1 is exactly the entity with id 2 and the total
    count is 1, the filtered count and not the size of the snapshot.
    The other fields of the two entities are arbitrary. *)
Theorem rarity_filter_scenario :
  forall (owner1 name1 description1 uri1 : string) (sale1 : bool) (at1 : Z)
         (owner2 name2 description2 uri2 : string) (sale2 : bool) (at2 : Z),
    let e1 := mkNFT 1 owner1 name1 description1 uri1 5%float sale1 2 at1 in
    let e2 := mkNFT 2 owner2 name2 description2 uri2 3%float sale2 1 at2 in
    let s := applyFilters
               (setSortBy "price_asc" (setRarity (Some 1) (showing [e1; e2]))) in
    pageSize = 8 /\
    currentPage s = 1 /\
    paginatedNfts s = [e2] /\
    paginationTotal s = 1 /\
    Z.of_nat (List.length (nfts s)) = 2.
Proof. intros. repeat split. Qed.

(** C7, as the spec states it, fails: the comparators look at the sort
    key only.  Two entities of equal price stay in the order of the
    snapshot, here id 2 before id 1. *)
Lemma equal_prices_keep_snapshot_order :
  let s := applyFilters (showing [entity 2 1 3%float; entity 1 1 3%float]) in
  sortBy s = "price_asc" /\
  map id (filteredNfts s) = [2; 1] /\
  (forall cmp, comparator "price_asc" = Some cmp ->
               ~ ties_in_id_order cmp (filteredNfts s)).
Proof.
  cbv zeta. split; [reflexivity|]. split; [reflexivity|].
  intros cmp Hcmp. injection Hcmp as <-. intro H.
  inversion H as [|? ? _ Hall]; subst.
  inversion Hall as [|? ? Hle _]; subst.
  cbn in Hle. specialize (Hle eq_refl). lia.
Qed.

Lemma StronglySorted_impl :
  forall {A} (R R' : A -> A -> Prop) (l : list A),
    (forall a b, In a l -> In b l -> R a b -> R' a b) ->
    StronglySorted R l -> StronglySorted R' l.
Proof.
  intros A R R' l. induction l as [|x r IH]; intros Himp Hs.
  - constructor.
  - inversion Hs as [|? ? Hr Hx]; subst. constructor.
    + apply IH; [|exact Hr]. intros a b Ha Hb. apply Himp; right; assumption.
    + rewrite Forall_forall in Hx |- *. intros b Hb.
      apply Himp; [left; reflexivity|right; exact Hb|exact (Hx b Hb)].
Qed.

(** A stable sort read in the terms of the key: what the comparator calls
    not after is [leb], what it calls equal is [eq]. *)
Lemma Array_sort_by_key :
  forall (cmp : NFT -> NFT -> comparison) (leb eq : NFT -> NFT -> bool)
         (l : list NFT),
    consistent cmp l ->
    (forall a b, In a l -> In b l -> (cmp a b <> Gt <-> leb a b = true)) ->
    (forall a b, In a l -> In b l -> (cmp a b = Eq <-> eq a b = true)) ->
    Permutation (Array_sort cmp l) l /\
    StronglySorted (fun a b => leb a b = true) (Array_sort cmp l) /\
    (forall a, In a l ->
       filter (eq a) (Array_sort cmp l) = filter (eq a) l).
Proof.
  intros cmp leb eq l Hc Hleb Heq.
  destruct (Array_sort_spec cmp l Hc) as (HP & HS & HT).
  assert (Hin : forall a, In a (Array_sort cmp l) -> In a l)
    by (intro a; apply Array_sort_In).
  assert (Htied : forall a b, In a l -> In b l -> tied cmp a b = eq a b).
  { intros a b Ha Hb. unfold tied. pose proof (Heq a b Ha Hb) as H.
    destruct (cmp a b), (eq a b); try reflexivity;
      try (destruct H as [H _]; discriminate (H eq_refl));
      destruct H as [_ H]; discriminate (H eq_refl). }
  split; [exact HP|]. split.
  - apply (StronglySorted_impl (not_after cmp)); [|exact HS].
    intros a b Ha Hb. apply Hleb; auto.
  - intros a Ha.
    rewrite <- (filter_ext_in (tied cmp a) (eq a) (Array_sort cmp l))
      by (intros b Hb; apply Htied; auto).
    rewrite <- (filter_ext_in (tied cmp a) (eq a) l)
      by (intros b Hb; apply Htied; auto).
    apply HT, Ha.
Qed.

Lemma float_eqb_sym :
  forall x y : float, (x =? y)%float = (y =? x)%float.
Proof.
  intros x y. rewrite !FloatAxioms.eqb_spec. unfold SFeqb.
  rewrite (SFcompare_swap (Prim2SF x) (Prim2SF y)).
  destruct (SFcompare (Prim2SF x) (Prim2SF y)) as [[]|]; reflexivity.
Qed.

Lemma filter_true :
  forall {A} (l : list A), filter (fun _ => true) l = l.
Proof.
  intros A l. induction l as [|x r IH]; [reflexivity|].
  cbn [filter]. rewrite IH. reflexivity.
Qed.

Lemma StronglySorted_trivial :
  forall {A} (R : A -> A -> Prop) (l : list A),
    (forall a b, R a b) -> StronglySorted R l.
Proof.
  intros A R l H. induction l as [|x r IH]; constructor; [exact IH|].
  apply Forall_forall. intros b _. apply H.
Qed.

(** The stable sort by a numeric field, in both directions. *)
Lemma Array_sort_by_field :
  forall (field : NFT -> float) (l : list NFT),
    (forall a, In a l -> PrimFloat.is_nan (field a) = false) ->
    let asc :=
      Array_sort (fun a b => sign_of_number (field a - field b)%float) l in
    let desc :=
      Array_sort (fun a b => sign_of_number (field b - field a)%float) l in
    (Permutation asc l /\
     StronglySorted (fun a b => (field a <=? field b)%float = true) asc /\
     (forall a, In a l ->
        filter (fun b => (field a =? field b)%float) asc
        = filter (fun b => (field a =? field b)%float) l)) /\
    (Permutation desc l /\
     StronglySorted (fun a b => (field b <=? field a)%float = true) desc /\
     (forall a, In a l ->
        filter (fun b => (field a =? field b)%float) desc
        = filter (fun b => (field a =? field b)%float) l)).
Proof.
  intros field l Hnan. cbv zeta.
  destruct (number_key_consistent field l Hnan) as [Hasc Hdesc]. split.
  - apply (Array_sort_by_key _ (fun a b => (field a <=? field b)%float)
             (fun a b => (field a =? field b)%float)); [exact Hasc| |];
      intros a b Ha Hb; apply difference_compares; auto.
  - apply (Array_sort_by_key _ (fun a b => (field b <=? field a)%float)
             (fun a b => (field a =? field b)%float)); [exact Hdesc| |];
      intros a b Ha Hb.
    + apply difference_compares; auto.
    + rewrite float_eqb_sym. apply difference_compares; auto.
Qed.

(** The sort of [applyFilters], key by key: the stable sort by the field
    and the direction that the key names. *)
Lemma applySort_by_key :
  forall (key : string) (l : list NFT),
    (forall a, In a l -> PrimFloat.is_nan (price a) = false) ->
    Permutation (applySort key l) l /\
    StronglySorted (fun a b => key_leb key a b = true) (applySort key l) /\
    (forall a, In a l ->
       filter (same_key key a) (applySort key l) = filter (same_key key a) l).
Proof.
  intros key l Hnan.
  pose proof (Array_sort_by_field price l Hnan) as Hprice.
  pose proof (Array_sort_by_field (fun nft => JS.b64 (listed_at nft)) l
                (fun a _ => b64_is_a_number (listed_at a))) as Hdate.
  pose proof (Array_sort_by_field (fun nft => JS.b64 (rarity nft)) l
                (fun a _ => b64_is_a_number (rarity a))) as Hrarity.
  cbv zeta in Hprice, Hdate, Hrarity.
  unfold applySort, comparator, key_leb, same_key, key_field, key_descending.
  destruct (String.eqb key "price_asc") eqn:E;
    [apply String.eqb_eq in E; subst key; exact (proj1 Hprice)|clear E].
  destruct (String.eqb key "price_desc") eqn:E;
    [apply String.eqb_eq in E; subst key; exact (proj2 Hprice)|clear E].
  destruct (String.eqb key "date_asc") eqn:E;
    [apply String.eqb_eq in E; subst key; exact (proj1 Hdate)|clear E].
  destruct (String.eqb key "date_desc") eqn:E;
    [apply String.eqb_eq in E; subst key; exact (proj2 Hdate)|clear E].
  destruct (String.eqb key "rarity_asc") eqn:E;
    [apply String.eqb_eq in E; subst key; exact (proj1 Hrarity)|clear E].
  destruct (String.eqb key "rarity_desc") eqn:E;
    [apply String.eqb_eq in E; subst key; exact (proj2 Hrarity)|clear E].
  split; [apply Permutation_refl|]. split.
  - apply StronglySorted_trivial. reflexivity.
  - reflexivity.
Qed.

Lemma filter_filter_and :
  forall {A} (f g : A -> bool) (l : list A),
    filter f (filter g l) = filter (fun x => g x && f x) l.
Proof.
  intros A f g l. induction l as [|x r IH]; [reflexivity|].
  cbn [filter]. destruct (g x); cbn [andb filter]; rewrite IH; reflexivity.
Qed.

Lemma applyFilter_passes :
  forall (s : State) (l : list NFT), applyFilter s l = filter (passes s) l.
Proof.
  intros s l. unfold applyFilter, passes.
  destruct (rarityFilter s) as [r|];
    destruct (dateRange s) as [[d0|] [d1|]];
    destruct (JS.truthy_string (searchTerm s));
    rewrite ?filter_filter_and; apply filter_ext; intro a;
    cbn [negb orb]; rewrite ?andb_true_r, ?andb_true_l, ?andb_assoc;
    reflexivity.
Qed.

(** The price filter lets no [NaN] through: what [applyFilters] sorts has
    numbers for prices. *)
Lemma applyFilter_prices :
  forall (s : State) (l : list NFT) (a : NFT),
    In a (applyFilter s l) -> PrimFloat.is_nan (price a) = false.
Proof.
  intros s l a H. rewrite applyFilter_passes in H.
  apply filter_In in H. destruct H as [_ H]. unfold passes in H.
  apply andb_prop in H. destruct H as [H _].
  apply andb_prop in H. destruct H as [H _].
  apply andb_prop in H. destruct H as [_ H].
  apply andb_prop in H. destruct H as [H _].
  apply leb_not_nan in H. tauto.
Qed.

(** C7, amended: for every snapshot and every sort key (price,
    listed-date or rarity, ascending or descending) the sort of the query
    transformation is the stable sort by that key alone: the displayed
    list holds the entities of the snapshot that pass the filters, in the
    order of the key's field and direction, and entities with the same
    value of the field keep the order they have in the snapshot (their ids
    are not looked at).  The fields are compared as the numbers that the
    comparators subtract.  No condition on the snapshot is needed: the
    price filter lets no [NaN] through, and a date or a rarity is never
    one, so each comparator is consistent on what it sorts, as ECMAScript
    asks. *)
Theorem sort_is_stable_by_key :
  forall s : State,
    let shown := filteredNfts (applyFilters s) in
    let kept := filter (passes s) (nfts s) in
    Permutation shown kept /\
    StronglySorted (fun a b => key_leb (sortBy s) a b = true) shown /\
    (forall a, In a shown ->
       filter (same_key (sortBy s) a) shown
       = filter (same_key (sortBy s) a) kept).
Proof.
  intros s. cbv zeta.
  cbn [applyFilters filteredNfts setCurrentPage setFilteredNfts].
  destruct (applySort_by_key (sortBy s) (applyFilter s (nfts s))
              (applyFilter_prices s (nfts s))) as (HP & HS & HT).
  rewrite <- applyFilter_passes.
  split; [exact HP|]. split; [exact HS|].
  intros a Ha. apply HT. apply (Permutation_in _ HP), Ha.
Qed.

Lemma sort_is_stable_by_key_witness :
  let s := showing tied_prices in
  let shown := filteredNfts (applyFilters s) in
  map id shown = [3; 2; 1; 4] /\
  Permutation shown (filter (passes s) tied_prices) /\
  StronglySorted (fun a b => (price a <=? price b)%float = true) shown /\
  (forall a, In a shown ->
     filter (fun b => (price a =? price b)%float) shown
     = filter (fun b => (price a =? price b)%float)
         (filter (passes s) tied_prices)).
Proof.
  split; [reflexivity|].
  apply (sort_is_stable_by_key (showing tied_prices)).
Defined.

(** The sample sorted: the cheapest first, the three at price 3 in the
    order of the snapshot. *)
Lemma tied_prices_sorted :
  map id (applySort "price_asc" tied_prices) = [3; 2; 1; 4].
Proof. reflexivity. Qed.

End Query.

(** ** The fusion selection *)

Section Fusion.
Import NFTFusion.

Lemma is_selected_In :
  forall (nft : NFT) (sel : list NFT),
    existsb (is_selected nft) sel = true <-> In (id nft) (map id sel).
Proof.
  intros nft sel. rewrite existsb_exists, in_map_iff. unfold is_selected.
  split; intros (x & H1 & H2).
  - exists x. split; [apply Z.eqb_eq|]; assumption.
  - exists x. split; [|apply Z.eqb_eq]; assumption.
Qed.

Lemma deselect_length :
  forall (nft : NFT) (sel : list NFT),
    (List.length (filter (fun s => negb (is_selected nft s)) sel)
     <= List.length sel)%nat.
Proof.
  intros nft sel. induction sel as [|x r IH]; cbn; [lia|].
  destruct (negb (is_selected nft x)); cbn; lia.
Qed.

Lemma deselect_ids :
  forall (nft : NFT) (sel : list NFT) (i : Z),
    In i (map id (filter (fun s => negb (is_selected nft s)) sel)) <->
    In i (map id sel) /\ i <> id nft.
Proof.
  intros nft sel i. rewrite !in_map_iff. split.
  - intros (x & <- & Hx). apply filter_In in Hx. destruct Hx as [Hin Hne].
    split; [exists x; auto|].
    unfold is_selected in Hne. apply negb_true_iff, Z.eqb_neq in Hne. exact Hne.
  - intros ((x & <- & Hin) & Hne). exists x. split; [reflexivity|].
    apply filter_In. split; [exact Hin|].
    unfold is_selected. apply negb_true_iff, Z.eqb_neq. exact Hne.
Qed.

Lemma deselect_NoDup :
  forall (nft : NFT) (sel : list NFT),
    NoDup (map id sel) ->
    NoDup (map id (filter (fun s => negb (is_selected nft s)) sel)).
Proof.
  intros nft sel. induction sel as [|x r IH]; cbn; intro H; [constructor|].
  inversion H as [|? ? Hx Hr]; subst.
  destruct (negb (is_selected nft x)); cbn; [|exact (IH Hr)].
  constructor; [|exact (IH Hr)].
  intro Hin. apply deselect_ids in Hin. tauto.
Qed.

Lemma select_NoDup :
  forall (nft : NFT) (sel : list NFT),
    NoDup (map id sel) -> ~ In (id nft) (map id sel) ->
    NoDup (map id (sel ++ [nft])%list).
Proof.
  intros nft sel Hnd Hnew. rewrite map_app. cbn [map].
  apply NoDup_rev in Hnd. rewrite <- (rev_involutive (map id sel ++ [id nft])).
  apply NoDup_rev. rewrite rev_app_distr. cbn [rev app].
  constructor; [|exact Hnd].
  rewrite <- in_rev. exact Hnew.
Qed.

Lemma handleNFTSelect_ok :
  forall (nft : NFT) (s : State),
    selection_ok (selectedNFTs s) ->
    selection_ok (selectedNFTs (fst (handleNFTSelect nft s))).
Proof.
  intros nft s [Hlen Hnd]. unfold handleNFTSelect.
  destruct (existsb (is_selected nft) (selectedNFTs s)) eqn:E; cbn [fst].
  - split; [|apply deselect_NoDup, Hnd].
    pose proof (deselect_length nft (selectedNFTs s)). cbn. lia.
  - destruct (Z.ltb_spec (Z.of_nat (List.length (selectedNFTs s))) 2) as [Hlt|Hge];
      cbn [fst]; [|split; assumption].
    split.
    + cbn. rewrite length_app. cbn. lia.
    + apply select_NoDup; [exact Hnd|].
      rewrite <- is_selected_In, E. discriminate.
Qed.

Lemma fetchUserNFTs_keeps :
  forall (w : World) (s : State),
    selectedNFTs (fst (fetchUserNFTs w s)) = selectedNFTs s /\
    marketplaceAddr (fst (fetchUserNFTs w s)) = marketplaceAddr s.
Proof.
  intros w s. unfold fetchUserNFTs.
  destruct (account s); [|split; reflexivity].
  destruct (view_get_all_nfts_for_owner w _ _ _ _); [|split; reflexivity].
  destruct (all_details w _ _); split; reflexivity.
Qed.

Lemma fetchUserNFTs_no_wallet :
  forall (w : World) (s : State), no_wallet_call (snd (fetchUserNFTs w s)).
Proof.
  intros w s p. unfold fetchUserNFTs.
  destruct (account s); [|intros []].
  assert (Hd : forall ids,
             ~ In (SignAndSubmit p) (map (detail_call (marketplaceAddr s)) ids)).
  { intros ids H. apply in_map_iff in H. destruct H as (i & H & _).
    discriminate. }
  destruct (view_get_all_nfts_for_owner w _ _ _ _) as [ids|]; cbn [snd].
  - destruct (all_details w _ _); cbn [snd].
    + intros [H|H]; [discriminate|exact (Hd _ H)].
    + intros [H|H]; [discriminate|].
      apply in_app_or in H. destruct H as [H|H]; [exact (Hd _ H)|].
      cbn in H. intuition discriminate.
  - cbn. intuition discriminate.
Qed.

Lemma handleFusion_keeps :
  forall (w : World) (s : State),
    selectedNFTs (fst (handleFusion w s)) = selectedNFTs s /\
    marketplaceAddr (fst (handleFusion w s)) = marketplaceAddr s.
Proof.
  intros w s. unfold handleFusion.
  destruct (selectedNFTs s) as [|a [|b [|c r]]] eqn:Hsel;
    try (split; [exact Hsel | reflexivity]).
  destruct (signAndSubmitTransaction w _) as [hash|];
    [|split; [exact Hsel | reflexivity]].
  destruct (waitForTransaction w hash);
    [|split; [exact Hsel | reflexivity]].
  destruct (account s) as [address|] eqn:Hacc;
    [|split; [exact Hsel | reflexivity]].
  destruct (view_get_last_minted_nft w _ _) as [m|];
    [|split; [exact Hsel | reflexivity]].
  match goal with
  | |- context [fetchUserNFTs w ?s1] =>
      pose proof (fetchUserNFTs_keeps w s1) as [H1 H2];
      destruct (fetchUserNFTs w s1) as [s2 l]
  end.
  cbn [fst] in *. cbn. rewrite H1, H2. cbn. split; [exact Hsel|reflexivity].
Qed.

(** The only intent [handleFusion] hands to the wallet agent is the
    fusion of the two selected NFTs. *)
Lemma handleFusion_intent :
  forall (w : World) (s : State) (p : Payload),
    In (SignAndSubmit p) (snd (handleFusion w s)) ->
    exists a b, selectedNFTs s = [a; b] /\
                p = fuse_payload (marketplaceAddr s) (id a) (id b).
Proof.
  intros w s p. unfold handleFusion.
  destruct (selectedNFTs s) as [|a [|b [|c r]]] eqn:Hsel;
    try (cbn; intuition discriminate).
  intro H. exists a, b. split; [reflexivity|].
  assert (Hhead : forall l,
            (forall q, ~ In (SignAndSubmit q) l) ->
            In (SignAndSubmit p)
               (SignAndSubmit (fuse_payload (marketplaceAddr s) (id a) (id b))
                :: l) ->
            p = fuse_payload (marketplaceAddr s) (id a) (id b)).
  { intros l Hl [Hp|Hp]; [injection Hp as <-; reflexivity|].
    destruct (Hl _ Hp). }
  destruct (signAndSubmitTransaction w _) as [hash|]; cbn [snd] in H.
  - destruct (waitForTransaction w hash); cbn [snd] in H.
    + destruct (account s) as [address|]; cbn [snd] in H.
      * destruct (view_get_last_minted_nft w _ _) as [m|]; cbn [snd] in H.
        -- match type of H with
           | context [fetchUserNFTs w ?s1] =>
               pose proof (fetchUserNFTs_no_wallet w s1) as Hno;
               destruct (fetchUserNFTs w s1) as [s2 l]
           end.
           cbn [snd app] in H. eapply Hhead; [|exact H].
           intros q [Hq|[Hq|[Hq|Hq]]]; try discriminate.
           exact (Hno q Hq).
        -- cbn [app] in H. eapply Hhead; [|exact H].
           cbn. intuition discriminate.
      * cbn [app] in H. eapply Hhead; [|exact H].
        cbn. intuition discriminate.
    + cbn [app] in H. eapply Hhead; [|exact H].
      cbn. intuition discriminate.
  - eapply Hhead; [|exact H]. cbn. intuition discriminate.
Qed.

Lemma step_keeps :
  forall (w : World) (s : State) (e : UIEvent),
    selection_ok (selectedNFTs s) ->
    selection_ok (selectedNFTs (fst (step w s e))) /\
    marketplaceAddr (fst (step w s e)) = marketplaceAddr s.
Proof.
  intros w s e Hok. destruct e; cbn [step].
  - destruct (fetchUserNFTs_keeps w s) as [H1 H2]. rewrite H1, H2.
    split; [exact Hok|reflexivity].
  - destruct (isLoading s); [split; [exact Hok|reflexivity]|].
    destruct (nth_error (userNFTs s) card) as [nft|];
      [|split; [exact Hok|reflexivity]].
    split; [apply handleNFTSelect_ok, Hok|].
    unfold handleNFTSelect.
    destruct (existsb _ _); [reflexivity|].
    destruct (_ <? 2); reflexivity.
  - destruct (negb (isLoading s) && negb (fuseDisabled s));
      [|split; [exact Hok|reflexivity]].
    destruct (handleFusion_keeps w s) as [H1 H2]. rewrite H1, H2.
    split; [exact Hok|reflexivity].
  - split; [exact Hok|reflexivity].
  - destruct (fetchUserNFTs_keeps w (setAccount acct s)) as [H1 H2].
    rewrite H1, H2. split; [exact Hok|reflexivity].
Qed.

Lemma step_intent :
  forall (w : World) (s : State) (e : UIEvent) (p : Payload),
    selection_ok (selectedNFTs s) ->
    In (SignAndSubmit p) (snd (step w s e)) ->
    exists a b, a <> b /\ p = fuse_payload (marketplaceAddr s) a b.
Proof.
  intros w s e p [_ Hnd] H. destruct e; cbn [step] in H.
  - destruct (fetchUserNFTs_no_wallet w s p H).
  - destruct (isLoading s); [destruct H|].
    destruct (nth_error (userNFTs s) card) as [nft|]; [|destruct H].
    unfold handleNFTSelect in H.
    destruct (existsb _ _); [destruct H|].
    destruct (_ <? 2); cbn in H; intuition discriminate.
  - destruct (negb (isLoading s) && negb (fuseDisabled s)); [|destruct H].
    apply handleFusion_intent in H. destruct H as (a & b & Hsel & ->).
    exists (id a), (id b). split; [|reflexivity].
    rewrite Hsel in Hnd. cbn in Hnd. inversion Hnd as [|? ? Hin _]; subst.
    cbn in Hin. intuition.
  - destruct H.
  - destruct (fetchUserNFTs_no_wallet w (setAccount acct s) p H).
Qed.

Lemma run_intent :
  forall (evs : list (World * UIEvent)) (s : State) (p : Payload),
    selection_ok (selectedNFTs s) ->
    In (SignAndSubmit p) (snd (run evs s)) ->
    exists a b, a <> b /\ p = fuse_payload (marketplaceAddr s) a b.
Proof.
  induction evs as [|[w e] r IH]; intros s p Hok H; cbn [run] in H.
  - destruct H.
  - pose proof (step_keeps w s e Hok) as [Hok' Haddr].
    pose proof (step_intent w s e p Hok) as Hstep.
    destruct (step w s e) as [s1 l1]. cbn [fst snd] in *.
    pose proof (IH s1 p Hok') as Hrest.
    destruct (run r s1) as [s2 l2]. cbn [fst snd] in *.
    apply in_app_or in H. destruct H as [H|H].
    + exact (Hstep H).
    + rewrite <- Haddr. exact (Hrest H).
Qed.

Lemma initial_selection_ok :
  forall addr acct, selection_ok (selectedNFTs (initial addr acct)).
Proof. intros. split; [cbn; lia|constructor]. Qed.

(** C6, as the spec states it, fails: [handleFusion] compares no ids and
    knows no error about distinct inputs.  Given a selection whose two
    NFTs both have id 5 it hands the intent to the wallet agent; and on
    the page, choosing NFT 5 a second time changes the state: it is
    deselected, without any message. *)
Lemma equal_inputs_are_not_rejected :
  let gem := mkNFT 5 "Gem" "A gem" "ipfs://gem" 3 in
  let w := Sample.accepting 50000 [] in
  let s := mkState "0xcafe" (Some "0xb1dde4") [gem] [] false false None in
  hd_error (snd (handleFusion w (setSelectedNFTs [gem; gem] s))) =
    Some (SignAndSubmit
            (mkPayload "entry_function_payload"
               "0xcafe::NFTMarketplace::fuse_nfts" [] ["0xcafe"; "5"; "5"])) /\
  ~ no_wallet_call (snd (handleFusion w (setSelectedNFTs [gem; gem] s))) /\
  selectedNFTs (fst (step w s (ClickCard 0%nat))) = [gem] /\
  run [(w, ClickCard 0%nat); (w, ClickCard 0%nat)] s = (s, []).
Proof.
  cbv zeta. split; [reflexivity|]. split; [|split; reflexivity].
  intro H. apply (H (fuse_payload "0xcafe" 5 5)). left. reflexivity.
Qed.

(** C6, amended: in every session of the fusion page, each intent that
    reaches the wallet agent fuses two NFTs with different ids, because
    the selection never holds the same id twice (choosing a selected NFT
    again deselects it).  [handleFusion] itself checks only the count:
    unless exactly two NFTs are selected it shows "Please select exactly
    two NFTs for fusion.", contacts nobody and leaves the state as it is. *)
Theorem fusion_intents_have_distinct_inputs :
  (forall (evs : list (World * UIEvent)) (addr : string)
          (acct : option string) (p : Payload),
      In (SignAndSubmit p) (snd (run evs (initial addr acct))) ->
      exists a b, a <> b /\ p = fuse_payload addr a b)
  /\
  (forall (w : World) (s : State),
      List.length (selectedNFTs s) <> 2%nat ->
      handleFusion w s =
        (s, [Message LError "Please select exactly two NFTs for fusion."])).
Proof.
  split.
  - intros evs addr acct p H.
    exact (run_intent evs (initial addr acct) p
             (initial_selection_ok addr acct) H).
  - intros w s H. unfold handleFusion.
    destruct (selectedNFTs s) as [|a [|b [|c r]]]; try reflexivity.
    cbn in H. congruence.
Qed.

Lemma fusion_intents_have_distinct_inputs_witness :
  (exists a b, a <> b /\ fuse_payload "0xcafe" 1 2 = fuse_payload "0xcafe" a b)
  /\
  handleFusion two_gems (initial "0xcafe" (Some "0xb1dde4")) =
    (initial "0xcafe" (Some "0xb1dde4"),
     [Message LError "Please select exactly two NFTs for fusion."]).
Proof.
  destruct fusion_intents_have_distinct_inputs as [Hrun Hcount].
  split.
  - apply (Hrun [(two_gems, LoadNFTs); (two_gems, ClickCard 0%nat);
                 (two_gems, ClickCard 1%nat); (two_gems, ClickFuse)]
                "0xcafe" (Some "0xb1dde4")).
    vm_compute. do 3 right. left. reflexivity.
  - apply Hcount. cbn. discriminate.
Defined.

(** C10: the fusion selection holds at most 2 NFTs with pairwise distinct
    ids, initially and after every select or deselect action; selecting
    an NFT that is selected removes it, and selecting a new one while 2
    are selected is refused with a warning. *)
Theorem selection_invariant :
  forall (nft : NFT) (s : State),
    selection_ok (selectedNFTs s) ->
    selection_ok (selectedNFTs (initial (marketplaceAddr s) (account s))) /\
    selection_ok (selectedNFTs (fst (handleNFTSelect nft s))) /\
    (In (id nft) (map id (selectedNFTs s)) ->
     ~ In (id nft) (map id (selectedNFTs (fst (handleNFTSelect nft s)))) /\
     (forall i, i <> id nft ->
        (In i (map id (selectedNFTs (fst (handleNFTSelect nft s)))) <->
         In i (map id (selectedNFTs s)))) /\
     snd (handleNFTSelect nft s) = []) /\
    (~ In (id nft) (map id (selectedNFTs s)) ->
     List.length (selectedNFTs s) = 2%nat ->
     handleNFTSelect nft s =
       (s, [Message LWarning "You can only select two NFTs for fusion."])) /\
    (~ In (id nft) (map id (selectedNFTs s)) ->
     (List.length (selectedNFTs s) < 2)%nat ->
     handleNFTSelect nft s
       = (setSelectedNFTs (selectedNFTs s ++ [nft])%list s, [])).
Proof.
  intros nft s Hok.
  split; [apply initial_selection_ok|].
  split; [apply handleNFTSelect_ok, Hok|].
  unfold handleNFTSelect.
  destruct (existsb (is_selected nft) (selectedNFTs s)) eqn:E.
  - split; [|split; intro Hnew; apply is_selected_In in E; contradiction].
    intros _. cbn [fst snd selectedNFTs setSelectedNFTs].
    split; [|split; [|reflexivity]].
    + intro H. apply deselect_ids in H. destruct H as [_ H]. apply H.
      reflexivity.
    + intros i Hi. rewrite deselect_ids. tauto.
  - assert (Hnot : ~ In (id nft) (map id (selectedNFTs s))).
    { rewrite <- is_selected_In, E. discriminate. }
    split; [intro H; contradiction|].
    split; intros _ Hlen.
    + rewrite Hlen. reflexivity.
    + destruct (Z.ltb_spec (Z.of_nat (List.length (selectedNFTs s))) 2);
        [reflexivity|lia].
Qed.

Lemma selection_invariant_witness :
  let a := mkNFT 1 "Gem" "A gem" "ipfs://gem" 3 in
  let b := mkNFT 2 "Orb" "An orb" "ipfs://orb" 2 in
  let c := mkNFT 3 "Rod" "A rod" "ipfs://rod" 1 in
  let s := mkState "0xcafe" (Some "0xb1dde4") [a; b; c] [a; b] false false None in
  selection_ok (selectedNFTs (fst (handleNFTSelect a s))) /\
  selectedNFTs (fst (handleNFTSelect a s)) = [b] /\
  handleNFTSelect c s =
    (s, [Message LWarning "You can only select two NFTs for fusion."]).
Proof.
  cbv zeta.
  pose (a := mkNFT 1 "Gem" "A gem" "ipfs://gem" 3).
  pose (b := mkNFT 2 "Orb" "An orb" "ipfs://orb" 2).
  pose (c := mkNFT 3 "Rod" "A rod" "ipfs://rod" 1).
  pose (s := mkState "0xcafe" (Some "0xb1dde4") [a; b; c] [a; b]
                     false false None).
  assert (Hok : selection_ok (selectedNFTs s)).
  { split; [cbn; lia|]. cbn. repeat constructor; cbn; intuition discriminate. }
  split; [exact (proj1 (proj2 (selection_invariant a s Hok)))|].
  split; [reflexivity|].
  destruct (selection_invariant c s Hok) as (_ & _ & _ & Hfull & _).
  apply Hfull; [|reflexivity].
  cbn. intuition discriminate.
Defined.

End Fusion.

(** ** The owner's NFTs are read one page of 100 at a time *)

Lemma append_eqb_prefix :
  forall a x y : string, String.eqb (a ++ x) (a ++ y) = String.eqb x y.
Proof.
  induction a as [|c a IH]; intros x y; cbn; [reflexivity|].
  rewrite Ascii.eqb_refl. apply IH.
Qed.

Lemma fn_name_eqb :
  forall addr x y : string,
    String.eqb (fn_name addr x) (fn_name addr y) = String.eqb x y.
Proof.
  intros. unfold fn_name. rewrite !append_eqb_prefix. reflexivity.
Qed.

Lemma reads_of_app :
  forall fn l1 l2,
    reads_of fn (l1 ++ l2)%list = (reads_of fn l1 ++ reads_of fn l2)%list.
Proof. intros. unfold reads_of. apply flat_map_app. Qed.

Lemma digit_val_nonneg :
  forall c : ascii, JS.is_digit c = true -> 0 <= JS.digit_val c.
Proof.
  intros c H. unfold JS.is_digit in H. unfold JS.digit_val.
  apply andb_prop in H. destruct H as [H _]. apply Nat.leb_le in H. lia.
Qed.

Lemma read_digits_nonneg :
  forall (s : string) (acc n : Z),
    0 <= acc -> 0 <= fst (fst (JS.read_digits s acc n)).
Proof.
  induction s as [|c r IH]; intros acc n Hacc; cbn [JS.read_digits].
  - exact Hacc.
  - destruct (JS.is_digit c) eqn:E; [|exact Hacc].
    apply IH. pose proof (digit_val_nonneg c E). lia.
Qed.

Lemma parse_u64_nonneg : forall s : string, 0 <= parse_u64 s.
Proof.
  intro s. unfold parse_u64.
  pose proof (read_digits_nonneg s 0 0 (Z.le_refl 0)) as H.
  destruct (JS.read_digits s 0 0) as [[v n] r]. exact H.
Qed.

Lemma with_owned_honours_limit :
  forall (owned : list Z) (w : World), honours_limit (with_owned owned w).
Proof.
  intros owned w addr owner limit offset ids H. cbn in H.
  injection H as <-. unfold paged_owner_ids.
  rewrite length_firstn. pose proof (parse_u64_nonneg limit). lia.
Qed.

Section OwnedNFTs.

Lemma console_only_reads :
  forall (fn : string) (log : Log),
    Forall (fun a => is_console_error a = true) log -> reads_of fn log = [].
Proof.
  intros fn log H. induction H as [|a r Ha _ IH]; [reflexivity|].
  destruct a; try discriminate. exact IH.
Qed.

Lemma detail_outcomes_console :
  forall (w : World) (ids : list Z),
    Forall (fun a => is_console_error a = true)
           (snd (MyNFTs.detail_outcomes w ids)).
Proof.
  intros w ids. induction ids as [|i r IH];
    cbn [MyNFTs.detail_outcomes]; [constructor|].
  destruct (MyNFTs.detail_outcomes w r) as [l errors]. cbn [snd] in IH.
  destruct (view_get_nft_details w MyNFTs.marketplaceAddr i); cbn [snd];
    [exact IH|constructor; [reflexivity|exact IH]].
Qed.

Lemma detail_outcomes_length :
  forall (w : World) (ids : list Z),
    (List.length (fst (MyNFTs.detail_outcomes w ids)) <= List.length ids)%nat.
Proof.
  intros w ids. induction ids as [|i r IH];
    cbn [MyNFTs.detail_outcomes]; [cbn; lia|].
  destruct (MyNFTs.detail_outcomes w r) as [l errors]. cbn [fst] in IH.
  destruct (view_get_nft_details w MyNFTs.marketplaceAddr i); cbn; lia.
Qed.

Lemma my_detail_calls :
  forall ids : list Z,
    reads_of (fn_name MyNFTs.marketplaceAddr "get_all_nfts_for_owner")
             (map MyNFTs.detail_call ids) = [] /\
    List.length (reads_of (fn_name MyNFTs.marketplaceAddr "get_nft_details")
                          (map MyNFTs.detail_call ids))
      = List.length ids.
Proof.
  induction ids as [|i r IH]; [split; reflexivity|].
  destruct IH as [IH1 IH2].
  cbn [map reads_of flat_map MyNFTs.detail_call].
  rewrite !fn_name_eqb. cbn [String.eqb Ascii.eqb Bool.eqb app].
  fold (reads_of (fn_name MyNFTs.marketplaceAddr "get_all_nfts_for_owner")
                 (map MyNFTs.detail_call r)).
  fold (reads_of (fn_name MyNFTs.marketplaceAddr "get_nft_details")
                 (map MyNFTs.detail_call r)).
  split; [exact IH1|]. cbn [List.length]. lia.
Qed.

Lemma my_fetch_details_facts :
  forall (w : World) (ids : list Z),
    reads_of (fn_name MyNFTs.marketplaceAddr "get_all_nfts_for_owner")
             (snd (MyNFTs.fetch_details w ids)) = [] /\
    List.length (reads_of (fn_name MyNFTs.marketplaceAddr "get_nft_details")
                          (snd (MyNFTs.fetch_details w ids)))
      = List.length ids /\
    (List.length (fst (MyNFTs.fetch_details w ids)) <= List.length ids)%nat.
Proof.
  intros w ids. unfold MyNFTs.fetch_details.
  pose proof (detail_outcomes_console w ids) as Hc.
  pose proof (detail_outcomes_length w ids) as Hl.
  destruct (MyNFTs.detail_outcomes w ids) as [l errors]. cbn [fst snd] in *.
  destruct (my_detail_calls ids) as [C1 C2].
  rewrite !reads_of_app, !(console_only_reads _ errors Hc), !app_nil_r.
  repeat split; assumption.
Qed.

Lemma my_fetch_capped :
  forall (w : World) (s : MyNFTs.State) (address : string),
    honours_limit w ->
    MyNFTs.account s = Some address ->
    reads_of (fn_name MyNFTs.marketplaceAddr "get_all_nfts_for_owner")
             (snd (MyNFTs.fetchUserNFTs w s))
      = [[MyNFTs.marketplaceAddr; address; "100"; "0"]] /\
    (List.length (reads_of (fn_name MyNFTs.marketplaceAddr "get_nft_details")
                           (snd (MyNFTs.fetchUserNFTs w s))) <= 100)%nat /\
    ((List.length (MyNFTs.nfts s) <= 100)%nat ->
     (List.length (MyNFTs.nfts (fst (MyNFTs.fetchUserNFTs w s))) <= 100)%nat).
Proof.
  intros w s address Hw Hacc. unfold MyNFTs.fetchUserNFTs. rewrite Hacc.
  destruct (view_get_all_nfts_for_owner w MyNFTs.marketplaceAddr address
              "100" "0") as [ids|] eqn:Hids.
  - apply Hw in Hids. change (parse_u64 "100") with 100 in Hids.
    pose proof (my_fetch_details_facts w ids) as (F1 & F2 & F3).
    destruct ids as [|i r].
    + cbn [fst snd reads_of flat_map MyNFTs.owner_ids_call].
      rewrite !fn_name_eqb. cbn. repeat split; lia.
    + destruct (MyNFTs.fetch_details w (i :: r)) as [l log].
      cbn [fst snd] in *.
      cbn [reads_of flat_map MyNFTs.owner_ids_call].
      rewrite !fn_name_eqb. cbn [String.eqb Ascii.eqb Bool.eqb app].
      fold (reads_of (fn_name MyNFTs.marketplaceAddr "get_all_nfts_for_owner") log).
      fold (reads_of (fn_name MyNFTs.marketplaceAddr "get_nft_details") log).
      rewrite F1. split; [reflexivity|]. split; [lia|].
      intros _. cbn [MyNFTs.nfts MyNFTs.setIsLoading MyNFTs.setNfts]. lia.
  - cbn [fst snd reads_of flat_map MyNFTs.owner_ids_call].
    rewrite !fn_name_eqb. cbn. repeat split; try lia; assumption.
Qed.

Lemma fusion_all_details_length :
  forall (w : World) (addr : string) (ids : list Z) (l : list NFTFusion.NFT),
    NFTFusion.all_details w addr ids = Some l ->
    List.length l = List.length ids.
Proof.
  intros w addr ids. induction ids as [|i r IH]; intros l H;
    cbn [NFTFusion.all_details] in H.
  - injection H as <-. reflexivity.
  - destruct (view_get_nft_details w addr i); [|discriminate].
    destruct (NFTFusion.all_details w addr r) as [l'|]; [|discriminate].
    injection H as <-. cbn. rewrite (IH l' eq_refl). reflexivity.
Qed.

Lemma fusion_detail_calls :
  forall (addr : string) (ids : list Z),
    reads_of (fn_name addr "get_all_nfts_for_owner")
             (map (NFTFusion.detail_call addr) ids) = [] /\
    List.length (reads_of (fn_name addr "get_nft_details")
                          (map (NFTFusion.detail_call addr) ids))
      = List.length ids.
Proof.
  intros addr ids. induction ids as [|i r IH]; [split; reflexivity|].
  destruct IH as [IH1 IH2].
  cbn [map reads_of flat_map NFTFusion.detail_call].
  rewrite !fn_name_eqb. cbn [String.eqb Ascii.eqb Bool.eqb app].
  fold (reads_of (fn_name addr "get_all_nfts_for_owner")
                 (map (NFTFusion.detail_call addr) r)).
  fold (reads_of (fn_name addr "get_nft_details")
                 (map (NFTFusion.detail_call addr) r)).
  split; [exact IH1|]. cbn [List.length]. lia.
Qed.

Lemma fusion_fetch_capped :
  forall (w : World) (s : NFTFusion.State) (address : string),
    honours_limit w ->
    NFTFusion.account s = Some address ->
    reads_of (fn_name (NFTFusion.marketplaceAddr s) "get_all_nfts_for_owner")
             (snd (NFTFusion.fetchUserNFTs w s))
      = [[NFTFusion.marketplaceAddr s; address; "100"; "0"]] /\
    (List.length
       (reads_of (fn_name (NFTFusion.marketplaceAddr s) "get_nft_details")
                 (snd (NFTFusion.fetchUserNFTs w s))) <= 100)%nat /\
    ((List.length (NFTFusion.userNFTs s) <= 100)%nat ->
     (List.length (NFTFusion.userNFTs (fst (NFTFusion.fetchUserNFTs w s)))
      <= 100)%nat).
Proof.
  intros w s address Hw Hacc. unfold NFTFusion.fetchUserNFTs. rewrite Hacc.
  destruct (view_get_all_nfts_for_owner w (NFTFusion.marketplaceAddr s) address
              "100" "0") as [ids|] eqn:Hids.
  - apply Hw in Hids. change (parse_u64 "100") with 100 in Hids.
    pose proof (fusion_detail_calls (NFTFusion.marketplaceAddr s) ids)
      as [F1 F2].
    assert (Hfailed : forall fn, reads_of fn NFTFusion.fetch_failed = [])
      by reflexivity.
    destruct (NFTFusion.all_details w _ ids) as [l|] eqn:Hall; cbv zeta;
      cbn [fst snd].
    + apply fusion_all_details_length in Hall.
      cbn [reads_of flat_map NFTFusion.owner_ids_call].
      rewrite !fn_name_eqb. cbn [String.eqb Ascii.eqb Bool.eqb app].
      fold (reads_of (fn_name (NFTFusion.marketplaceAddr s)
                              "get_all_nfts_for_owner")
                     (map (NFTFusion.detail_call (NFTFusion.marketplaceAddr s)) ids)).
      fold (reads_of (fn_name (NFTFusion.marketplaceAddr s) "get_nft_details")
                     (map (NFTFusion.detail_call (NFTFusion.marketplaceAddr s)) ids)).
      rewrite F1. split; [reflexivity|]. split; [lia|].
      intros _. cbn. lia.
    + rewrite <- app_comm_cons.
      cbn [reads_of flat_map NFTFusion.owner_ids_call].
      rewrite !fn_name_eqb. cbn [String.eqb Ascii.eqb Bool.eqb app].
      fold (reads_of (fn_name (NFTFusion.marketplaceAddr s)
                              "get_all_nfts_for_owner")
                     (map (NFTFusion.detail_call (NFTFusion.marketplaceAddr s)) ids
                      ++ NFTFusion.fetch_failed)%list).
      fold (reads_of (fn_name (NFTFusion.marketplaceAddr s) "get_nft_details")
                     (map (NFTFusion.detail_call (NFTFusion.marketplaceAddr s)) ids
                      ++ NFTFusion.fetch_failed)%list).
      rewrite !reads_of_app, !Hfailed, !app_nil_r, F1.
      split; [reflexivity|]. split; [lia|]. intro H; exact H.
  - cbn [fst snd reads_of flat_map NFTFusion.owner_ids_call
         NFTFusion.fetch_failed].
    rewrite !fn_name_eqb. cbn. repeat split; try lia; assumption.
Qed.

End OwnedNFTs.

(** C9: every refresh of the owned NFTs, on the collection page and on the
    fusion page, reads the id list once, with limit 100 and offset 0, and
    no other page of it; over a gateway that honours the limit it reads
    the details of at most 100 NFTs and leaves a snapshot of at most 100
    NFTs, however many the owner holds. *)
Theorem owned_refresh_is_capped :
  forall (w : World),
    honours_limit w ->
    (forall (s : MyNFTs.State) (address : string),
        MyNFTs.account s = Some address ->
        reads_of (fn_name MyNFTs.marketplaceAddr "get_all_nfts_for_owner")
                 (snd (MyNFTs.fetchUserNFTs w s))
          = [[MyNFTs.marketplaceAddr; address; "100"; "0"]] /\
        (List.length
           (reads_of (fn_name MyNFTs.marketplaceAddr "get_nft_details")
                     (snd (MyNFTs.fetchUserNFTs w s))) <= 100)%nat /\
        ((List.length (MyNFTs.nfts s) <= 100)%nat ->
         (List.length (MyNFTs.nfts (fst (MyNFTs.fetchUserNFTs w s)))
          <= 100)%nat))
    /\
    (forall (s : NFTFusion.State) (address : string),
        NFTFusion.account s = Some address ->
        reads_of (fn_name (NFTFusion.marketplaceAddr s) "get_all_nfts_for_owner")
                 (snd (NFTFusion.fetchUserNFTs w s))
          = [[NFTFusion.marketplaceAddr s; address; "100"; "0"]] /\
        (List.length
           (reads_of (fn_name (NFTFusion.marketplaceAddr s) "get_nft_details")
                     (snd (NFTFusion.fetchUserNFTs w s))) <= 100)%nat /\
        ((List.length (NFTFusion.userNFTs s) <= 100)%nat ->
         (List.length (NFTFusion.userNFTs (fst (NFTFusion.fetchUserNFTs w s)))
          <= 100)%nat)).
Proof.
  intros w Hw. split.
  - intros s address Hacc. exact (my_fetch_capped w s address Hw Hacc).
  - intros s address Hacc. exact (fusion_fetch_capped w s address Hw Hacc).
Qed.

Lemma owned_refresh_is_capped_witness :
  (List.length
     (MyNFTs.nfts (fst (MyNFTs.fetchUserNFTs holder_of_150
                          (MyNFTs.initial (Some "0xb1dde4"))))) <= 100)%nat /\
  (List.length
     (NFTFusion.userNFTs
        (fst (NFTFusion.fetchUserNFTs holder_of_150
                (NFTFusion.initial "0xcafe" (Some "0xb1dde4"))))) <= 100)%nat.
Proof.
  destruct (owned_refresh_is_capped holder_of_150
              (with_owned_honours_limit _ _)) as [Hmy Hfusion].
  split.
  - apply (Hmy (MyNFTs.initial (Some "0xb1dde4")) "0xb1dde4" eq_refl).
    cbn. lia.
  - apply (Hfusion (NFTFusion.initial "0xcafe" (Some "0xb1dde4")) "0xb1dde4"
                   eq_refl).
    cbn. lia.
Defined.

(** With 150 NFTs held, the refresh leaves exactly the first 100. *)
Lemma holder_of_150_snapshot :
  map MyNFTs.id
      (MyNFTs.nfts (fst (MyNFTs.fetchUserNFTs holder_of_150
                           (MyNFTs.initial (Some "0xb1dde4")))))
  = map Z.of_nat (seq 1 100).
Proof. vm_compute. reflexivity. Qed.

(** ** Currency round trip *)

Section RoundTrip.

Lemma of_Z_add :
  forall a b : Z, (Uint63.of_Z a + Uint63.of_Z b)%uint63 = Uint63.of_Z (a + b).
Proof.
  intros a b. apply Uint63.to_Z_inj.
  rewrite Uint63.add_spec, !Uint63.of_Z_spec.
  symmetry. apply Zplus_mod.
Qed.

Lemma range_ok_sound :
  forall (n : nat) (z : Z),
    range_ok n (Uint63.of_Z z) = true ->
    forall j, z <= j < z + Z.of_nat n -> roundtrip_ok (Uint63.of_Z j) = true.
Proof.
  induction n as [|m IH]; intros z H j Hj; [lia|].
  cbn [range_ok] in H. apply andb_prop in H. destruct H as [H0 Hr].
  destruct (Z.eq_dec j z) as [->|Hne]; [exact H0|].
  change 1%uint63 with (Uint63.of_Z 1) in Hr. rewrite of_Z_add in Hr.
  apply (IH (z + 1) Hr). lia.
Qed.

Lemma blocks_ok_sound :
  forall (b n : nat) (z : Z),
    blocks_ok b n (Uint63.of_Z z) = true ->
    forall j, z <= j < z + Z.of_nat b * Z.of_nat n ->
              roundtrip_ok (Uint63.of_Z j) = true.
Proof.
  induction b as [|b' IH]; intros n z H j Hj; [lia|].
  cbn [blocks_ok] in H. apply andb_prop in H. destruct H as [H0 Hr].
  destruct (Z_lt_dec j (z + Z.of_nat n)) as [Hlt|Hge].
  - apply (range_ok_sound n z H0). lia.
  - rewrite of_Z_add in Hr. apply (IH n (z + Z.of_nat n) Hr). lia.
Qed.

(** Below 2^63 the number nearest to an integer is what the machine
    conversion gives. *)
Lemma b64_of_uint63 :
  forall k : Z, 0 <= k < 2 ^ 63 -> JS.b64 k = PrimFloat.of_uint63 (Uint63.of_Z k).
Proof.
  intros k Hk. unfold JS.b64.
  rewrite <- (SF2Prim_Prim2SF (PrimFloat.of_uint63 (Uint63.of_Z k))).
  rewrite of_uint63_spec, Uint63.of_Z_spec.
  rewrite Z.mod_small; [reflexivity|exact Hk].
Qed.

Lemma ten_million_checked : blocks_ok 5000 2000 0%uint63 = true.
Proof. vm_compute. reflexivity. Qed.

(** The strings a user types stand for the same numbers. *)
Lemma parseFloat_two_places :
  JS.parseFloat "0.07" = two_places 7 /\
  JS.parseFloat "3.0" = two_places 300 /\
  JS.parseFloat "19.99" = two_places 1999 /\
  JS.parseFloat "100000.00" = two_places 10000000 /\
  JS.parseFloat "5764607523.09" = two_places 576460752309.
Proof. repeat split. Qed.

(** C8, as the spec states it, fails: [5764607523.09] has two decimal
    places, and multiplied by 10^8 and divided by 10^8 again it becomes
    [5764607523.090001]. *)
Lemma roundtrip_changes_a_large_amount :
  let x := JS.parseFloat "5764607523.09" in
  x = two_places 576460752309 /\
  JS.toString x = "5764607523.09" /\
  JS.toString (toMinorUnits x) = "576460752309000100" /\
  JS.toString (roundtrip x) = "5764607523.090001" /\
  PrimFloat.eqb (roundtrip x) x = false.
Proof. cbv zeta. repeat split. Qed.

(** C8, amended: for every amount [x] with two decimal places between 0
    and 100000.00, multiplying [x] by 10^8 as at submission and dividing
    the result by 10^8 as at decoding yields exactly [x]. *)
Theorem roundtrip_of_two_places :
  forall k : Z,
    0 <= k <= 10000000 ->
    PrimFloat.eqb (roundtrip (two_places k)) (two_places k) = true.
Proof.
  intros k Hk. unfold two_places.
  rewrite b64_of_uint63 by lia.
  change (roundtrip_ok (Uint63.of_Z k) = true).
  destruct (Z.eq_dec k 10000000) as [->|Hne]; [vm_compute; reflexivity|].
  apply (blocks_ok_sound 5000 2000 0 ten_million_checked).
  change (Z.of_nat 5000 * Z.of_nat 2000) with 10000000. lia.
Qed.

Lemma roundtrip_of_two_places_witness :
  PrimFloat.eqb (roundtrip (two_places 7)) (two_places 7) = true.
Proof. apply (roundtrip_of_two_places 7). lia. Defined.

End RoundTrip.

(** * Further properties of the pages *)

(** ** Pagination *)

Section Pages.
Context {A : Type}.

(** Between two indexes that are not negative, [slice] takes what lies
    between them. *)
Lemma slice_nonneg :
  forall (from to : Z) (l : list A),
    0 <= from -> 0 <= to ->
    MarketView.slice from to l
    = firstn (Z.to_nat (to - from)) (skipn (Z.to_nat from) l).
Proof.
  intros from to l Hf Ht. unfold MarketView.slice. cbv zeta.
  destruct (Z.ltb_spec from 0) as [|_]; [lia|].
  destruct (Z.ltb_spec to 0) as [|_]; [lia|].
  destruct (Z_lt_le_dec from (Z.of_nat (List.length l))) as [Hlt|Hge].
  - rewrite (Z.min_l from) by lia.
    destruct (Z_le_gt_dec to (Z.of_nat (List.length l))) as [Hle|Hgt].
    + rewrite (Z.min_l to) by lia. reflexivity.
    + rewrite (Z.min_r to) by lia.
      rewrite !firstn_all2; [reflexivity| |]; rewrite length_skipn; lia.
  - rewrite (Z.min_r from) by lia.
    rewrite (skipn_all2 l (n := Z.to_nat (Z.of_nat (List.length l)))) by lia.
    rewrite (skipn_all2 l (n := Z.to_nat from)) by lia.
    rewrite !firstn_nil. reflexivity.
Qed.

Lemma slice_firstn_skipn :
  forall (l : list A) (p : nat) (size : nat),
    (0 < size)%nat ->
    MarketView.slice ((Z.of_nat (S p) - 1) * Z.of_nat size)
                     (Z.of_nat (S p) * Z.of_nat size) l
    = firstn size (skipn (p * size)%nat l).
Proof.
  intros l p size Hs. rewrite slice_nonneg by nia.
  replace (Z.to_nat (Z.of_nat (S p) * Z.of_nat size
                     - (Z.of_nat (S p) - 1) * Z.of_nat size)) with size by nia.
  replace (Z.to_nat ((Z.of_nat (S p) - 1) * Z.of_nat size)) with (p * size)%nat
    by nia.
  reflexivity.
Qed.

Lemma firstn_plus :
  forall (a b : nat) (l : list A),
    firstn (a + b) l = (firstn a l ++ firstn b (skipn a l))%list.
Proof.
  induction a as [|a IH]; intros b l; [reflexivity|].
  destruct l as [|x l]; cbn [plus firstn skipn app].
  - rewrite firstn_nil. reflexivity.
  - rewrite IH. reflexivity.
Qed.

Lemma pages_concat :
  forall (size n : nat) (l : list A),
    List.concat (map (fun p => firstn size (skipn (p * size)%nat l)) (seq 0 n))
    = firstn (n * size)%nat l.
Proof.
  intros size n. induction n as [|n IH]; intro l.
  - reflexivity.
  - rewrite seq_S, map_app, concat_app, IH. cbn [map List.concat plus].
    rewrite app_nil_r.
    replace (S n * size)%nat with (n * size + size)%nat by lia.
    symmetry. apply firstn_plus.
Qed.

(** The pages 1 .. n of a list, [size] entries each. *)
Lemma slice_pages :
  forall (size n : nat) (l : list A),
    (0 < size)%nat ->
    List.concat
      (map (fun p => MarketView.slice ((Z.of_nat p - 1) * Z.of_nat size)
                                      (Z.of_nat p * Z.of_nat size) l)
           (seq 1 n))
    = firstn (n * size)%nat l.
Proof.
  intros size n l Hs. rewrite <- pages_concat, <- seq_shift, map_map.
  f_equal. apply map_ext. intro p. apply slice_firstn_skipn, Hs.
Qed.

Lemma slice_length :
  forall (size : nat) (p : Z) (l : list A),
    1 <= p ->
    Z.of_nat (List.length (MarketView.slice ((p - 1) * Z.of_nat size)
                                            (p * Z.of_nat size) l))
    = Z.min (Z.of_nat size)
            (Z.max 0 (Z.of_nat (List.length l) - (p - 1) * Z.of_nat size)).
Proof.
  intros size p l Hp. rewrite slice_nonneg by nia.
  rewrite length_firstn, length_skipn. nia.
Qed.

End Pages.

Lemma slice_same :
  forall {A} (a b : Z) (l : list A), AuctionView.slice a b l = MarketView.slice a b l.
Proof. reflexivity. Qed.

(** X1: on each of the three paginated pages, the pages 1 to n, one after
    the other, are the whole list, in order and without repetition, as soon
    as 8 n is at least the length of the list. *)
Theorem pages_cover_the_list :
  forall (n : nat),
    (forall s : MarketView.State,
        (List.length (MarketView.filteredNfts s) <= 8 * n)%nat ->
        List.concat
          (map (fun p => MarketView.paginatedNfts
                           (MarketView.setCurrentPage (Z.of_nat p) s))
               (seq 1 n))
        = MarketView.filteredNfts s) /\
    (forall s : AuctionView.State,
        (List.length (AuctionView.auctions s) <= 8 * n)%nat ->
        List.concat
          (map (fun p => AuctionView.paginatedAuctions
                           (AuctionView.setCurrentPage (Z.of_nat p) s))
               (seq 1 n))
        = AuctionView.auctions s) /\
    (forall s : MyNFTs.State,
        (List.length (MyNFTs.nfts s) <= 8 * n)%nat ->
        List.concat
          (map (fun p => MyNFTsPage.paginatedNFTs
                           (MyNFTsPage.setCurrentPage (Z.of_nat p) s))
               (seq 1 n))
        = MyNFTs.nfts s).
Proof.
  intro n. split; [|split]; intros s H.
  - unfold MarketView.paginatedNfts. cbn [MarketView.currentPage
      MarketView.setCurrentPage MarketView.filteredNfts].
    change MarketView.pageSize with (Z.of_nat 8).
    rewrite (slice_pages 8 n) by lia. apply firstn_all2. lia.
  - unfold AuctionView.paginatedAuctions. cbn [AuctionView.currentPage
      AuctionView.setCurrentPage AuctionView.auctions].
    change AuctionView.pageSize with (Z.of_nat 8).
    rewrite (slice_pages 8 n) by lia. apply firstn_all2. lia.
  - unfold MyNFTsPage.paginatedNFTs. cbn [MyNFTs.currentPage
      MyNFTsPage.setCurrentPage MyNFTs.nfts].
    change MyNFTs.pageSize with (Z.of_nat 8).
    rewrite (slice_pages 8 n) by lia. apply firstn_all2. lia.
Qed.

Lemma pages_cover_the_list_witness :
  map (map MarketView.id)
      (map (fun p => MarketView.paginatedNfts
                       (MarketView.setCurrentPage (Z.of_nat p) Demo.ten_gems))
           (seq 1 2))
    = [[1; 2; 3; 4; 5; 6; 7; 8]; [9; 10]] /\
  List.concat
    (map (fun p => MarketView.paginatedNfts
                     (MarketView.setCurrentPage (Z.of_nat p) Demo.ten_gems))
         (seq 1 2))
    = MarketView.filteredNfts Demo.ten_gems.
Proof.
  split; [reflexivity|].
  apply (proj1 (pages_cover_the_list 2) Demo.ten_gems). cbn. lia.
Defined.

(** X2: page p (from 1) holds 8 entries as long as the list reaches that
    far, the rest of the list on the last page, and nothing beyond: min 8
    (max 0 (n - 8 (p - 1))) for a list of n entries. *)
Theorem page_sizes :
  forall (p : Z),
    1 <= p ->
    (forall s : MarketView.State,
        Z.of_nat (List.length (MarketView.paginatedNfts
                                 (MarketView.setCurrentPage p s)))
        = Z.min 8 (Z.max 0 (MarketView.paginationTotal s - 8 * (p - 1)))) /\
    (forall s : AuctionView.State,
        Z.of_nat (List.length (AuctionView.paginatedAuctions
                                 (AuctionView.setCurrentPage p s)))
        = Z.min 8 (Z.max 0 (Z.of_nat (List.length (AuctionView.auctions s))
                            - 8 * (p - 1)))) /\
    (forall s : MyNFTs.State,
        Z.of_nat (List.length (MyNFTsPage.paginatedNFTs
                                 (MyNFTsPage.setCurrentPage p s)))
        = Z.min 8 (Z.max 0 (Z.of_nat (List.length (MyNFTs.nfts s))
                            - 8 * (p - 1)))).
Proof.
  intros p Hp. split; [|split]; intro s.
  - unfold MarketView.paginatedNfts, MarketView.paginationTotal.
    cbn [MarketView.currentPage MarketView.setCurrentPage
         MarketView.filteredNfts].
    change MarketView.pageSize with (Z.of_nat 8).
    rewrite (slice_length 8 p _ Hp). lia.
  - unfold AuctionView.paginatedAuctions.
    cbn [AuctionView.currentPage AuctionView.setCurrentPage
         AuctionView.auctions].
    change AuctionView.pageSize with (Z.of_nat 8).
    rewrite slice_same, (slice_length 8 p _ Hp). lia.
  - unfold MyNFTsPage.paginatedNFTs.
    cbn [MyNFTs.currentPage MyNFTsPage.setCurrentPage MyNFTs.nfts].
    change MyNFTs.pageSize with (Z.of_nat 8).
    rewrite (slice_length 8 p _ Hp). lia.
Qed.

Lemma page_sizes_witness :
  Z.of_nat (List.length (MarketView.paginatedNfts
                           (MarketView.setCurrentPage 2 Demo.ten_gems)))
  = Z.min 8 (Z.max 0 (MarketView.paginationTotal Demo.ten_gems - 8 * (2 - 1))).
Proof. apply (proj1 (page_sizes 2 ltac:(lia)) Demo.ten_gems). Defined.

(** ** Strings *)

Section StringFacts.

Lemma substring_all :
  forall s : string, substring 0 (String.length s) s = s.
Proof.
  induction s as [|c r IH]; [reflexivity|]. cbn. rewrite IH. reflexivity.
Qed.

Lemma substring_prefix :
  forall p r : string, substring 0 (String.length p) (p ++ r) = p.
Proof.
  induction p as [|c p IH]; intro r; cbn.
  - destruct r; reflexivity.
  - rewrite IH. reflexivity.
Qed.

Lemma substring_suffix :
  forall p q : string,
    substring (String.length p) (String.length q) (p ++ q) = q.
Proof.
  induction p as [|c p IH]; intro q; cbn; [apply substring_all|apply IH].
Qed.

Lemma length_append :
  forall a b : string,
    String.length (a ++ b) = (String.length a + String.length b)%nat.
Proof.
  induction a as [|c a IH]; intro b; cbn; [reflexivity|].
  rewrite IH. reflexivity.
Qed.

Lemma append_assoc :
  forall a b c : string, ((a ++ b) ++ c = a ++ (b ++ c))%string.
Proof.
  induction a as [|x a IH]; intros b c; cbn; [reflexivity|].
  rewrite IH. reflexivity.
Qed.



End StringFacts.

(** ** The query of the market page, continued *)

Section MarketQuery.
Import MarketView MarketPage.

Lemma applySort_perm :
  forall (key : string) (l : list NFT), Permutation (applySort key l) l.
Proof.
  intros key l. unfold applySort.
  destruct (comparator key); [apply Array_sort_perm|apply Permutation_refl].
Qed.

Lemma applyFilters_perm :
  forall s : State,
    Permutation (filteredNfts (applyFilters s)) (filter (passes s) (nfts s)).
Proof. intro s. cbn. rewrite applyFilter_passes. apply applySort_perm. Qed.

Lemma applyFilters_In :
  forall (s : State) (nft : NFT),
    In nft (filteredNfts (applyFilters s)) <->
    In nft (nfts s) /\ passes s nft = true.
Proof.
  intros s nft. rewrite <- filter_In.
  split; apply Permutation_in;
    [apply applyFilters_perm|apply Permutation_sym, applyFilters_perm].
Qed.

(** X3: after [applyFilters] the displayed list holds exactly the entities
    of the snapshot that pass all four filters (rarity, price range, date
    range, search term), each as often as the snapshot holds it; the total
    of the pagination is at most the size of the snapshot, and the snapshot
    itself is not touched. *)
Theorem filtered_view_is_the_conjunction :
  forall (s : State),
    Permutation (filteredNfts (applyFilters s)) (filter (passes s) (nfts s)) /\
    (forall nft, In nft (filteredNfts (applyFilters s)) <->
                 In nft (nfts s) /\ passes s nft = true) /\
    paginationTotal (applyFilters s) <= Z.of_nat (List.length (nfts s)) /\
    nfts (applyFilters s) = nfts s.
Proof.
  intro s. split; [apply applyFilters_perm|].
  split; [apply applyFilters_In|]. split; [|reflexivity].
  unfold paginationTotal. rewrite (Permutation_length (applyFilters_perm s)).
  pose proof (filter_length_le (passes s) (nfts s)). lia.
Qed.







Lemma applyFilters_consistent :
  forall s : State, view_consistent (applyFilters s).
Proof. intro s. reflexivity. Qed.

Lemma purchase_not_refreshed :
  forall (w : World) (s : State),
    purchase_refreshes w s = false ->
    let s1 := fst (handleConfirmPurchase w s) in
    nfts s1 = nfts s /\ filteredNfts s1 = filteredNfts s /\
    sortBy s1 = sortBy s /\ applyFilter s1 = applyFilter s.
Proof.
  intros w s H. unfold purchase_refreshes in H. unfold handleConfirmPurchase.
  destruct (selectedNft s) as [nft|]; [|repeat split].
  destruct (signAndSubmitTransaction w _) as [hash|]; [|repeat split].
  destruct (waitForTransaction w hash); [|repeat split].
  cbn [andb] in H. unfold fetchNfts. cbn [marketplaceAddr setIsBuyModalVisible].
  destruct (getAccountResource w (marketplaceAddr s)); [discriminate|].
  repeat split.
Qed.

(** The page goes down at the clearing of the date range and at no other
    event. *)
Lemma step_down :
  forall (w : World) (s : State) (e : UIEvent),
    fst (step w s e) = None <-> e = ClearDates.
Proof.
  intros w s e. destruct e; cbn [step];
    repeat match goal with
           | |- context [let '(_, _) := ?x in _] => destruct x
           | |- context [match ?x with _ => _ end] => destruct x
           end;
    cbn [fst]; split; intro H; try discriminate; reflexivity.
Qed.

Lemma step_consistent :
  forall (w : World) (s s' : State) (e : UIEvent),
    view_consistent s -> fst (step w s e) = Some s' -> view_consistent s'.
Proof.
  intros w s s' e Hs. destruct e; cbn [step].
  - unfold fetchNfts.
    destruct (getAccountResource w (marketplaceAddr s));
      cbn [fst]; intro H; injection H as <-;
      [apply applyFilters_consistent|exact Hs].
  - destruct (option_Z_eqb v (rarityFilter s));
      cbn [fst]; intro H; injection H as <-;
      [exact Hs|apply applyFilters_consistent].
  - destruct (String.eqb v (sortBy s));
      cbn [fst]; intro H; injection H as <-;
      [exact Hs|apply applyFilters_consistent].
  - destruct (String.eqb v (searchTerm s));
      cbn [fst]; intro H; injection H as <-;
      [exact Hs|apply applyFilters_consistent].
  - cbn [fst]; intro H; injection H as <-. apply applyFilters_consistent.
  - cbn [fst]; intro H; injection H as <-. apply applyFilters_consistent.
  - discriminate.
  - destruct (isLoading s); cbn [fst]; intro H; injection H as <-; exact Hs.
  - destruct (isLoading s); [cbn [fst]; intro H; injection H as <-; exact Hs|].
    destruct (nth_error (paginatedNfts s) card);
      cbn [fst]; intro H; injection H as <-; exact Hs.
  - destruct (isBuyModalVisible s);
      cbn [fst]; intro H; injection H as <-; exact Hs.
  - destruct (isBuyModalVisible s);
      [|cbn [fst]; intro H; injection H as <-; exact Hs].
    destruct (purchase_refreshes w s) eqn:E.
    + destruct (handleConfirmPurchase w s). cbn [fst]. intro H.
      injection H as <-. apply applyFilters_consistent.
    + pose proof (purchase_not_refreshed w s E) as (H1 & H2 & H3 & H4).
      destruct (handleConfirmPurchase w s) as [s1 l]. cbn [fst] in *.
      intro H. injection H as <-.
      unfold view_consistent. rewrite H2, H3, H4, H1. exact Hs.
Qed.

Lemma run_consistent :
  forall (evs : list (World * UIEvent)) (s : State),
    view_consistent s ->
    match fst (run evs s) with
    | Some s' => view_consistent s' /\ ~ In ClearDates (map snd evs)
    | None => In ClearDates (map snd evs)
    end.
Proof.
  induction evs as [|[w e] r IH]; intros s Hs; cbn [run map snd In fst].
  - split; [exact Hs|tauto].
  - pose proof (fun s' => step_consistent w s s' e Hs) as H1.
    pose proof (step_down w s e) as H2.
    destruct (step w s e) as [[s1|] l1]; cbn [fst] in H1, H2.
    + pose proof (IH s1 (H1 s1 eq_refl)) as H3.
      assert (He : e <> ClearDates) by (intro E; apply H2 in E; discriminate).
      destruct (run r s1) as [[s2|] l2]; cbn [fst] in *.
      * destruct H3 as [H3 H4]. split; [exact H3|].
        intros [H|H]; [congruence|exact (H4 H)].
      * right. exact H3.
    + left. exact (proj1 H2 eq_refl).
Qed.

(** X5: in every session of the market page, as long as the page is up,
    the displayed list is the snapshot filtered by the current filters and
    sorted by the current key, after each event and the effect it triggers.
    The page is up exactly as long as the date range has not been cleared:
    clearing it stores [null], on which [applyFilters] throws. *)
Theorem market_view_stays_consistent :
  forall (evs : list (World * UIEvent)) (addr : string),
    match fst (run evs (initial addr)) with
    | Some s => view_consistent s /\ ~ In ClearDates (map snd evs)
    | None => In ClearDates (map snd evs)
    end.
Proof. intros evs addr. apply run_consistent. reflexivity. Qed.

End MarketQuery.

(** ** The write path *)

Section Fetchers.

Lemma fetchAuctions_reads_only :
  forall w s, existsb is_write (snd (AuctionView.fetchAuctions w s)) = false.
Proof.
  intros w s. unfold AuctionView.fetchAuctions.
  destruct (view_get_all_auctions w _) as [[raws|]|]; reflexivity.
Qed.

Lemma fetchNfts_reads_only :
  forall w s, existsb is_write (snd (MarketView.fetchNfts w s)) = false.
Proof.
  intros w s. unfold MarketView.fetchNfts.
  destruct (getAccountResource w _); reflexivity.
Qed.

Lemma console_only_quiet :
  forall log : Log,
    Forall (fun a => is_console_error a = true) log ->
    existsb is_write log = false /\ filter is_read log = [] /\
    filter is_console_error log = log /\ error_surfaced log = false.
Proof.
  intros log H. induction H as [|a r Ha _ (IH1 & IH2 & IH3 & IH4)];
    [repeat split|].
  destruct a; try discriminate.
  cbn [existsb filter is_write is_read is_console_error orb].
  rewrite IH3. repeat split; assumption.
Qed.

Lemma my_detail_calls_read :
  forall ids : list Z,
    existsb is_write (map MyNFTs.detail_call ids) = false /\
    filter is_read (map MyNFTs.detail_call ids) = map MyNFTs.detail_call ids /\
    filter is_console_error (map MyNFTs.detail_call ids) = [] /\
    error_surfaced (map MyNFTs.detail_call ids) = false.
Proof.
  induction ids as [|i r (IH1 & IH2 & IH3 & IH4)]; [repeat split|].
  cbn [map existsb filter is_write is_read is_console_error orb
       MyNFTs.detail_call].
  fold (MyNFTs.detail_call i). rewrite IH2. repeat split; assumption.
Qed.

Lemma my_fetch_details_reads_only :
  forall w ids, existsb is_write (snd (MyNFTs.fetch_details w ids)) = false.
Proof.
  intros w ids. unfold MyNFTs.fetch_details.
  pose proof (detail_outcomes_console w ids) as Hc.
  destruct (MyNFTs.detail_outcomes w ids) as [l errors]. cbn [snd] in *.
  rewrite existsb_app.
  rewrite (proj1 (my_detail_calls_read ids)), (proj1 (console_only_quiet _ Hc)).
  reflexivity.
Qed.

Lemma my_fetchUserNFTs_reads_only :
  forall w s, existsb is_write (snd (MyNFTs.fetchUserNFTs w s)) = false.
Proof.
  intros w s. unfold MyNFTs.fetchUserNFTs.
  destruct (MyNFTs.account s); [|reflexivity].
  destruct (view_get_all_nfts_for_owner w _ _ _ _) as [[|i r]|];
    try reflexivity.
  pose proof (my_fetch_details_reads_only w (i :: r)) as H.
  destruct (MyNFTs.fetch_details w (i :: r)) as [l log]. exact H.
Qed.

Lemma fusion_fetchUserNFTs_reads_only :
  forall w s, existsb is_write (snd (NFTFusion.fetchUserNFTs w s)) = false.
Proof.
  intros w s. unfold NFTFusion.fetchUserNFTs.
  destruct (NFTFusion.account s); [|reflexivity].
  assert (Hd : forall ids,
             existsb is_write
               (map (NFTFusion.detail_call (NFTFusion.marketplaceAddr s)) ids)
             = false).
  { induction ids as [|i r IH]; [reflexivity|exact IH]. }
  destruct (view_get_all_nfts_for_owner w _ _ _ _) as [ids|]; [|reflexivity].
  destruct (NFTFusion.all_details w _ ids); cbv zeta; cbn [snd].
  - cbn [existsb is_write orb NFTFusion.owner_ids_call]. apply Hd.
  - rewrite existsb_app. cbn [existsb is_write orb NFTFusion.owner_ids_call].
    rewrite Hd. reflexivity.
Qed.

End Fetchers.

Section Refreshes.

(** X6: a refresh of a page (the auctions, the marketplace NFTs, the owner's
    NFTs of either page) hands nothing to the wallet agent and waits for no
    transaction, whatever the gateway answers. *)
Theorem refreshes_only_read :
  forall (w : World),
    (forall s, existsb is_write (snd (AuctionView.fetchAuctions w s)) = false) /\
    (forall s, existsb is_write (snd (MarketView.fetchNfts w s)) = false) /\
    (forall s, existsb is_write (snd (MyNFTs.fetchUserNFTs w s)) = false) /\
    (forall s, existsb is_write (snd (NFTFusion.fetchUserNFTs w s)) = false).
Proof.
  intro w. split; [|split; [|split]]; intro s.
  - apply fetchAuctions_reads_only.
  - apply fetchNfts_reads_only.
  - apply my_fetchUserNFTs_reads_only.
  - apply fusion_fetchUserNFTs_reads_only.
Qed.

End Refreshes.

Lemma write_protocol_quiet :
  forall w log,
    existsb is_write log = false -> existsb is_read log = false ->
    write_protocol w log.
Proof.
  intros w log Hw Hr. left. unfold quiet. rewrite Hw, Hr. reflexivity.
Qed.

(** The shape shared by the four dialog handlers: sign; on success wait;
    on confirmation a message and a refetch, else the error report. *)
Lemma write_protocol_run :
  forall w p (failed : Log) (msg : Action) (fetched : Log),
    existsb is_write failed = false -> existsb is_read failed = false ->
    is_write msg = false -> is_read msg = false ->
    existsb is_write fetched = false ->
    write_protocol w
      match signAndSubmitTransaction w p with
      | None => SignAndSubmit p :: failed
      | Some hash =>
          if waitForTransaction w hash
          then SignAndSubmit p :: WaitForTransaction hash :: msg :: fetched
          else SignAndSubmit p :: WaitForTransaction hash :: failed
      end.
Proof.
  intros w p failed msg fetched F1 F2 M1 M2 T1. right. exists p.
  destruct (signAndSubmitTransaction w p) as [hash|] eqn:Es.
  - destruct (waitForTransaction w hash) eqn:Ew; eexists;
      (split; [reflexivity|]); eexists; (split; [reflexivity|]).
    + split; [|reflexivity].
      cbn [existsb]. rewrite M1, T1. reflexivity.
    + split; [exact F1|]. rewrite F2. discriminate.
  - eexists. split; [reflexivity|].
    unfold quiet. rewrite F1, F2. reflexivity.
Qed.

Lemma write_protocol_nil : forall w, write_protocol w [].
Proof. intro w. apply write_protocol_quiet; reflexivity. Qed.

Section WriteHandlers.

Lemma handleBidSubmit_protocol :
  forall w s, write_protocol w (snd (AuctionView.handleBidSubmit w s)).
Proof.
  intros w s. unfold AuctionView.handleBidSubmit.
  destruct (AuctionView.selectedAuction s) as [a|]; [|apply write_protocol_nil].
  destruct (JS.truthy_string _); [|apply write_protocol_nil].
  destruct (AuctionView.account s); [|apply write_protocol_nil].
  match goal with
  | |- context [AuctionView.fetchAuctions w ?s1] =>
      pose proof (fetchAuctions_reads_only w s1) as Hf;
      destruct (AuctionView.fetchAuctions w s1) as [s2 l]
  end.
  cbn [snd] in Hf.
  match goal with
  | |- context [signAndSubmitTransaction w ?p] =>
      pose proof (write_protocol_run w p
        [ConsoleError "Error placing bid:";
         Message LError "Failed to place bid. Please try again."]
        (Message LSuccess "Bid placed successfully!") l
        eq_refl eq_refl eq_refl eq_refl Hf) as H;
      destruct (signAndSubmitTransaction w p) as [hash|]
  end; [destruct (waitForTransaction w hash)|]; exact H.
Qed.

Lemma handleConfirmPurchase_protocol :
  forall w s, write_protocol w (snd (MarketView.handleConfirmPurchase w s)).
Proof.
  intros w s. unfold MarketView.handleConfirmPurchase.
  destruct (MarketView.selectedNft s) as [nft|]; [|apply write_protocol_nil].
  match goal with
  | |- context [MarketView.fetchNfts w ?s1] =>
      pose proof (fetchNfts_reads_only w s1) as Hf;
      destruct (MarketView.fetchNfts w s1) as [s2 l]
  end.
  cbn [snd] in Hf.
  match goal with
  | |- context [signAndSubmitTransaction w ?p] =>
      pose proof (write_protocol_run w p
        [ConsoleError "Error purchasing NFT:";
         Message LError "Failed to purchase NFT."]
        (Message LSuccess "NFT purchased successfully!") l
        eq_refl eq_refl eq_refl eq_refl Hf) as H;
      destruct (signAndSubmitTransaction w p) as [hash|]
  end; [destruct (waitForTransaction w hash)|]; exact H.
Qed.

Lemma handleConfirmListing_protocol :
  forall w s, write_protocol w (snd (MyNFTs.handleConfirmListing w s)).
Proof.
  intros w s. unfold MyNFTs.handleConfirmListing.
  destruct (MyNFTs.selectedNft s) as [nft|]; [|apply write_protocol_nil].
  destruct (JS.truthy_string _); [|apply write_protocol_nil].
  match goal with
  | |- context [MyNFTs.fetchUserNFTs w ?s1] =>
      pose proof (my_fetchUserNFTs_reads_only w s1) as Hf;
      destruct (MyNFTs.fetchUserNFTs w s1) as [s2 l]
  end.
  cbn [snd] in Hf.
  match goal with
  | |- context [signAndSubmitTransaction w ?p] =>
      pose proof (write_protocol_run w p
        [ConsoleError "Error listing NFT for sale:";
         Message LError "Failed to list NFT for sale."]
        (Message LSuccess "NFT listed for sale successfully!") l
        eq_refl eq_refl eq_refl eq_refl Hf) as H;
      destruct (signAndSubmitTransaction w p) as [hash|]
  end; [destruct (waitForTransaction w hash)|]; exact H.
Qed.

Lemma handleConfirmAuction_protocol :
  forall w s, write_protocol w (snd (MyNFTs.handleConfirmAuction w s)).
Proof.
  intros w s. unfold MyNFTs.handleConfirmAuction, MyNFTs.createAuction.
  destruct (MyNFTs.selectedNft s) as [nft|]; [|apply write_protocol_nil].
  destruct (JS.truthy_string _); [|apply write_protocol_nil].
  destruct (MyNFTs.auctionEndTime s) as [endTime|]; [|apply write_protocol_nil].
  destruct (MyNFTs.account s);
    [|apply write_protocol_quiet; reflexivity].
  match goal with
  | |- context [MyNFTs.fetchUserNFTs w ?s1] =>
      pose proof (my_fetchUserNFTs_reads_only w s1) as Hf;
      destruct (MyNFTs.fetchUserNFTs w s1) as [s2 l]
  end.
  cbn [snd] in Hf.
  match goal with
  | |- context [signAndSubmitTransaction w ?p] =>
      pose proof (write_protocol_run w p
        [ConsoleError "Error creating auction:";
         Message LError "Failed to create auction. Please try again."]
        (Message LSuccess "Auction created successfully!") l
        eq_refl eq_refl eq_refl eq_refl Hf) as H;
      destruct (signAndSubmitTransaction w p) as [hash|]
  end; [destruct (waitForTransaction w hash)|]; exact H.
Qed.

Lemma handleFusion_protocol :
  forall w s, write_protocol w (snd (NFTFusion.handleFusion w s)).
Proof.
  intros w s. unfold NFTFusion.handleFusion.
  destruct (NFTFusion.selectedNFTs s) as [|a [|b [|c r]]];
    try (apply write_protocol_quiet; reflexivity).
  right. eexists.
  destruct (signAndSubmitTransaction w _) as [hash|] eqn:Es; cbn [snd].
  - destruct (waitForTransaction w hash) eqn:Ew; cbn [snd].
    + destruct (NFTFusion.account s) as [address|]; cbn [snd].
      * destruct (view_get_last_minted_nft w _ _) as [m|]; cbn [snd].
        -- match goal with
           | |- context [NFTFusion.fetchUserNFTs w ?s1] =>
               pose proof (fusion_fetchUserNFTs_reads_only w s1) as Hf;
               destruct (NFTFusion.fetchUserNFTs w s1) as [s2 l]
           end.
           cbn [snd app] in *. eexists. split; [reflexivity|]. rewrite Es.
           eexists. split; [reflexivity|]. split; [|intros _; exact Ew].
           cbn [existsb is_write orb]. exact Hf.
        -- cbn [app]. eexists. split; [reflexivity|]. rewrite Es.
           eexists. split; [reflexivity|]. split; [reflexivity|].
           intros _. exact Ew.
      * cbn [app]. eexists. split; [reflexivity|]. rewrite Es.
        eexists. split; [reflexivity|]. split; [reflexivity|].
        intros _. exact Ew.
    + cbn [app]. eexists. split; [reflexivity|]. rewrite Es.
      eexists. split; [reflexivity|]. split; [reflexivity|]. discriminate.
  - eexists. split; [reflexivity|]. rewrite Es. reflexivity.
Qed.

(** X7: every run of a transaction handler (place bid, purchase, list for
    sale, create auction, fuse) either contacts nobody or hands one intent
    to the wallet agent as the first thing it does.  When the wallet agent
    declines, only messages follow.  When it signs, the handler next waits
    for the transaction the wallet agent returned; no other intent and no
    other wait follows, and the gateway is read only when that transaction
    was confirmed. *)
Theorem handlers_follow_the_write_protocol :
  forall (w : World),
    (forall s, write_protocol w (snd (AuctionView.handleBidSubmit w s))) /\
    (forall s, write_protocol w (snd (MarketView.handleConfirmPurchase w s))) /\
    (forall s, write_protocol w (snd (MyNFTs.handleConfirmListing w s))) /\
    (forall s, write_protocol w (snd (MyNFTs.handleConfirmAuction w s))) /\
    (forall s, write_protocol w (snd (NFTFusion.handleFusion w s))).
Proof.
  intro w. split; [|split; [|split; [|split]]]; intro s.
  - apply handleBidSubmit_protocol.
  - apply handleConfirmPurchase_protocol.
  - apply handleConfirmListing_protocol.
  - apply handleConfirmAuction_protocol.
  - apply handleFusion_protocol.
Qed.

End WriteHandlers.

Section WriteOutcomes.


(** X8: when the wallet agent declines every intent, or no transaction is
    confirmed, a transaction handler leaves the state of its page as it was
    (on the fusion page: the NFTs, the selection and the result), reads
    nothing from the gateway, and either did nothing at all or shows an
    error message. *)
Theorem failed_write_leaves_the_page :
  forall (w : World),
    nothing_confirmed w ->
    (forall s, fst (AuctionView.handleBidSubmit w s) = s /\
               existsb is_read (snd (AuctionView.handleBidSubmit w s)) = false /\
               (snd (AuctionView.handleBidSubmit w s) = [] \/
                error_surfaced (snd (AuctionView.handleBidSubmit w s)) = true))
    /\
    (forall s, fst (MarketView.handleConfirmPurchase w s) = s /\
               existsb is_read (snd (MarketView.handleConfirmPurchase w s)) = false /\
               (snd (MarketView.handleConfirmPurchase w s) = [] \/
                error_surfaced (snd (MarketView.handleConfirmPurchase w s)) = true))
    /\
    (forall s, fst (MyNFTs.handleConfirmListing w s) = s /\
               existsb is_read (snd (MyNFTs.handleConfirmListing w s)) = false /\
               (snd (MyNFTs.handleConfirmListing w s) = [] \/
                error_surfaced (snd (MyNFTs.handleConfirmListing w s)) = true))
    /\
    (forall s, fst (MyNFTs.handleConfirmAuction w s) = s /\
               existsb is_read (snd (MyNFTs.handleConfirmAuction w s)) = false /\
               (snd (MyNFTs.handleConfirmAuction w s) = [] \/
                error_surfaced (snd (MyNFTs.handleConfirmAuction w s)) = true))
    /\
    (forall s, NFTFusion.userNFTs (fst (NFTFusion.handleFusion w s))
                 = NFTFusion.userNFTs s /\
               NFTFusion.selectedNFTs (fst (NFTFusion.handleFusion w s))
                 = NFTFusion.selectedNFTs s /\
               NFTFusion.fusionResult (fst (NFTFusion.handleFusion w s))
                 = NFTFusion.fusionResult s /\
               existsb is_read (snd (NFTFusion.handleFusion w s)) = false /\
               error_surfaced (snd (NFTFusion.handleFusion w s)) = true).
Proof.
  intros w Hw. split; [|split; [|split; [|split]]]; intro s.
  - unfold AuctionView.handleBidSubmit.
    destruct (AuctionView.selectedAuction s) as [a|]; [|repeat split; auto].
    destruct (JS.truthy_string _); [|repeat split; auto].
    destruct (AuctionView.account s); [|repeat split; auto].
    failed_write w Hw; repeat split; auto.
  - unfold MarketView.handleConfirmPurchase.
    destruct (MarketView.selectedNft s) as [nft|]; [|repeat split; auto].
    failed_write w Hw; repeat split; auto.
  - unfold MyNFTs.handleConfirmListing.
    destruct (MyNFTs.selectedNft s) as [nft|]; [|repeat split; auto].
    destruct (JS.truthy_string _); [|repeat split; auto].
    failed_write w Hw; repeat split; auto.
  - unfold MyNFTs.handleConfirmAuction, MyNFTs.createAuction.
    destruct (MyNFTs.selectedNft s) as [nft|]; [|repeat split; auto].
    destruct (JS.truthy_string _); [|repeat split; auto].
    destruct (MyNFTs.auctionEndTime s) as [endTime|]; [|repeat split; auto].
    destruct (MyNFTs.account s); [|repeat split; auto].
    failed_write w Hw; repeat split; auto.
  - unfold NFTFusion.handleFusion.
    destruct (NFTFusion.selectedNFTs s) as [|a [|b [|c r]]] eqn:Hsel;
      try (repeat split; auto; fail).
    failed_write w Hw; repeat split; auto.
Qed.

Lemma failed_write_leaves_the_page_witness :
  fst (AuctionView.handleBidSubmit Sample3.unreachable (Sample.bidding "5"))
    = Sample.bidding "5" /\
  error_surfaced
    (snd (AuctionView.handleBidSubmit Sample3.unreachable (Sample.bidding "5")))
    = true.
Proof.
  destruct (failed_write_leaves_the_page Sample3.unreachable
              (or_introl (fun _ => eq_refl))) as (Hb & _).
  destruct (Hb (Sample.bidding "5")) as (H1 & _ & [H2|H2]);
    [discriminate H2|].
  split; assumption.
Defined.

End WriteOutcomes.

Section Confirmed.




End Confirmed.

(** ** Refreshes of the owner's NFTs *)

Section OwnerRefresh.

Lemma detail_outcomes_cards :
  forall (w : World) (ids : list Z),
    fst (MyNFTs.detail_outcomes w ids) = flat_map (detail_card w) ids /\
    List.length (snd (MyNFTs.detail_outcomes w ids))
      = List.length (filter (unreadable w MyNFTs.marketplaceAddr) ids).
Proof.
  intros w ids. induction ids as [|i r IH]; [split; reflexivity|].
  cbn [MyNFTs.detail_outcomes flat_map filter]. destruct IH as (IH1 & IH2).
  destruct (MyNFTs.detail_outcomes w r) as [l errors]. cbn [fst snd] in *.
  unfold detail_card at 1. unfold unreadable at 1.
  destruct (view_get_nft_details w MyNFTs.marketplaceAddr i);
    cbn [fst snd app List.length]; rewrite IH1, IH2; split; reflexivity.
Qed.

Lemma my_fetch_details_cards :
  forall (w : World) (ids : list Z),
    fst (MyNFTs.fetch_details w ids) = flat_map (detail_card w) ids /\
    filter is_read (snd (MyNFTs.fetch_details w ids))
      = map MyNFTs.detail_call ids /\
    List.length (filter is_console_error (snd (MyNFTs.fetch_details w ids)))
      = List.length (filter (unreadable w MyNFTs.marketplaceAddr) ids) /\
    error_surfaced (snd (MyNFTs.fetch_details w ids)) = false.
Proof.
  intros w ids. unfold MyNFTs.fetch_details.
  pose proof (detail_outcomes_console w ids) as Hc.
  destruct (detail_outcomes_cards w ids) as (H1 & H2).
  destruct (MyNFTs.detail_outcomes w ids) as [l errors]. cbn [fst snd] in *.
  destruct (console_only_quiet _ Hc) as (Q1 & Q2 & Q3 & Q4).
  destruct (my_detail_calls_read ids) as (R1 & R2 & R3 & R4).
  rewrite !filter_app, error_surfaced_app, Q2, Q3, Q4, R2, R3, R4, app_nil_r.
  repeat split; assumption.
Qed.

(** X10: when the id list of the owner is read, the refresh of the
    collection page holds one card for every id whose details could be read,
    in the order of the ids; every id is asked for, a failed read is written
    to the console only, no error message is shown, and the total of the
    pagination counts the ids: it exceeds the number of cards by the number
    of failed reads. *)
Theorem owned_refresh_is_best_effort :
  forall (w : World) (s : MyNFTs.State) (address : string) (ids : list Z),
    MyNFTs.account s = Some address ->
    view_get_all_nfts_for_owner w MyNFTs.marketplaceAddr address "100" "0"
      = Some ids ->
    let s' := fst (MyNFTs.fetchUserNFTs w s) in
    let log := snd (MyNFTs.fetchUserNFTs w s) in
    MyNFTs.nfts s' = flat_map (detail_card w) ids /\
    MyNFTsPage.paginationTotal s' = Z.of_nat (List.length ids) /\
    Z.of_nat (List.length (MyNFTs.nfts s'))
    + Z.of_nat (List.length (filter (unreadable w MyNFTs.marketplaceAddr) ids))
    = MyNFTsPage.paginationTotal s' /\
    filter is_read log
      = MyNFTs.owner_ids_call address :: map MyNFTs.detail_call ids /\
    List.length (filter is_console_error log)
      = List.length (filter (unreadable w MyNFTs.marketplaceAddr) ids) /\
    error_surfaced log = false /\
    MyNFTs.isLoading s' = false.
Proof.
  intros w s address ids Hacc Hids. cbv zeta.
  assert (Hcount : forall l : list Z,
            Z.of_nat (List.length (flat_map (detail_card w) l))
            + Z.of_nat (List.length
                          (filter (unreadable w MyNFTs.marketplaceAddr) l))
            = Z.of_nat (List.length l)).
  { induction l as [|i r IH]; [reflexivity|].
    cbn [flat_map filter]. rewrite length_app.
    unfold detail_card at 1. unfold unreadable at 1.
    destruct (view_get_nft_details w MyNFTs.marketplaceAddr i);
      cbn [List.length]; lia. }
  unfold MyNFTs.fetchUserNFTs. rewrite Hacc, Hids.
  destruct ids as [|i r]; [repeat split|].
  destruct (my_fetch_details_cards w (i :: r)) as (H1 & H2 & H3 & H4).
  destruct (MyNFTs.fetch_details w (i :: r)) as [l log].
  cbn [fst snd] in *. unfold MyNFTsPage.paginationTotal.
  cbn [MyNFTs.nfts MyNFTs.totalNFTs MyNFTs.isLoading MyNFTs.setIsLoading
       MyNFTs.setNfts MyNFTs.setTotalNFTs].
  split; [exact H1|]. split; [reflexivity|]. split; [rewrite H1; apply Hcount|].
  split; [cbn [filter is_read MyNFTs.owner_ids_call]; rewrite H2; reflexivity|].
  split; [exact H3|]. split; [exact H4|reflexivity].
Qed.

Lemma owned_refresh_is_best_effort_witness :
  let s' := fst (MyNFTs.fetchUserNFTs Sample3.second_detail_fails
                   (MyNFTs.initial (Some "0x0wner"))) in
  let log := snd (MyNFTs.fetchUserNFTs Sample3.second_detail_fails
                    (MyNFTs.initial (Some "0x0wner"))) in
  MyNFTs.nfts s' = flat_map (detail_card Sample3.second_detail_fails) [1; 2] /\
  MyNFTsPage.paginationTotal s' = Z.of_nat (List.length [1; 2]) /\
  Z.of_nat (List.length (MyNFTs.nfts s'))
  + Z.of_nat (List.length
                (filter (unreadable Sample3.second_detail_fails
                                    MyNFTs.marketplaceAddr) [1; 2]))
  = MyNFTsPage.paginationTotal s' /\
  filter is_read log
    = MyNFTs.owner_ids_call "0x0wner" :: map MyNFTs.detail_call [1; 2] /\
  List.length (filter is_console_error log)
    = List.length (filter (unreadable Sample3.second_detail_fails
                                      MyNFTs.marketplaceAddr) [1; 2]) /\
  error_surfaced log = false /\
  MyNFTs.isLoading s' = false.
Proof.
  apply (owned_refresh_is_best_effort Sample3.second_detail_fails
           (MyNFTs.initial (Some "0x0wner")) "0x0wner" [1; 2]); reflexivity.
Defined.

Lemma all_details_cards :
  forall (w : World) (addr : string) (ids : list Z) (l : list NFTFusion.NFT),
    NFTFusion.all_details w addr ids = Some l ->
    Forall2 (fusion_card w addr) ids l.
Proof.
  intros w addr ids. induction ids as [|i r IH]; intros l;
    cbn [NFTFusion.all_details].
  - intro H. injection H as <-. constructor.
  - destruct (view_get_nft_details w addr i) as [d|] eqn:E; [|discriminate].
    destruct (NFTFusion.all_details w addr r) as [l'|]; [|discriminate].
    intro H. injection H as <-. constructor; [|apply IH; reflexivity].
    exists d. split; [exact E|reflexivity].
Qed.

Lemma all_details_none :
  forall (w : World) (addr : string) (ids : list Z),
    NFTFusion.all_details w addr ids = None ->
    existsb (unreadable w addr) ids = true.
Proof.
  intros w addr ids. induction ids as [|i r IH];
    cbn [NFTFusion.all_details existsb]; [discriminate|].
  unfold unreadable at 1.
  destruct (view_get_nft_details w addr i); [|reflexivity].
  destruct (NFTFusion.all_details w addr r); [discriminate|].
  intros _. apply IH. reflexivity.
Qed.

Lemma cards_all_readable :
  forall (w : World) (addr : string) (ids : list Z) (l : list NFTFusion.NFT),
    Forall2 (fusion_card w addr) ids l ->
    existsb (unreadable w addr) ids = false.
Proof.
  intros w addr ids l H.
  induction H as [|i nft r l' (d & Hd & _) _ IH]; [reflexivity|].
  cbn [existsb]. unfold unreadable at 1. rewrite Hd. exact IH.
Qed.

Lemma detail_calls_are_reads :
  forall (addr : string) (ids : list Z),
    filter is_read (map (NFTFusion.detail_call addr) ids)
    = map (NFTFusion.detail_call addr) ids.
Proof.
  intros addr ids. induction ids as [|i r IH]; [reflexivity|].
  cbn [map filter NFTFusion.detail_call is_read].
  fold (NFTFusion.detail_call addr i). rewrite IH. reflexivity.
Qed.

(** X11: when the id list of the owner is read, the refresh of the fusion
    page asks for the details of every id; if every read succeeds the page
    holds one card per id, in the order of the ids, and no error is shown;
    if one read fails the NFTs are left as they were and an error is shown.
    The selection is kept in both cases. *)
Theorem fusion_refresh_is_all_or_nothing :
  forall (w : World) (s : NFTFusion.State) (address : string) (ids : list Z),
    NFTFusion.account s = Some address ->
    view_get_all_nfts_for_owner w (NFTFusion.marketplaceAddr s) address
      "100" "0" = Some ids ->
    let s' := fst (NFTFusion.fetchUserNFTs w s) in
    let log := snd (NFTFusion.fetchUserNFTs w s) in
    filter is_read log
      = NFTFusion.owner_ids_call (NFTFusion.marketplaceAddr s) address
        :: map (NFTFusion.detail_call (NFTFusion.marketplaceAddr s)) ids /\
    NFTFusion.isLoading s' = false /\
    NFTFusion.selectedNFTs s' = NFTFusion.selectedNFTs s /\
    (if existsb (unreadable w (NFTFusion.marketplaceAddr s)) ids
     then NFTFusion.userNFTs s' = NFTFusion.userNFTs s /\
          error_surfaced log = true
     else Forall2 (fusion_card w (NFTFusion.marketplaceAddr s)) ids
                  (NFTFusion.userNFTs s') /\
          error_surfaced log = false).
Proof.
  intros w s address ids Hacc Hids. cbv zeta.
  unfold NFTFusion.fetchUserNFTs. rewrite Hacc, Hids.
  destruct (NFTFusion.all_details w (NFTFusion.marketplaceAddr s) ids)
    as [l|] eqn:E; cbn [fst snd].
  - split.
    { cbn [filter is_read NFTFusion.owner_ids_call].
      rewrite detail_calls_are_reads. reflexivity. }
    split; [reflexivity|]. split; [reflexivity|].
    pose proof (all_details_cards _ _ _ _ E) as Hc.
    rewrite (cards_all_readable _ _ _ _ Hc). split; [exact Hc|].
    cbn [error_surfaced existsb is_error_message NFTFusion.owner_ids_call orb].
    clear. induction ids as [|i r IH]; [reflexivity|exact IH].
  - split.
    { rewrite filter_app. cbn [filter is_read NFTFusion.owner_ids_call].
      rewrite detail_calls_are_reads. cbn. rewrite app_nil_r.
      reflexivity. }
    split; [reflexivity|]. split; [reflexivity|].
    rewrite (all_details_none _ _ _ E). split; [reflexivity|].
    rewrite error_surfaced_app. apply orb_true_r.
Qed.

Lemma fusion_refresh_is_all_or_nothing_witness :
  let s := NFTFusion.initial "0xcafe" (Some "0x0wner") in
  let s' := fst (NFTFusion.fetchUserNFTs two_gems s) in
  let log := snd (NFTFusion.fetchUserNFTs two_gems s) in
  filter is_read log
    = NFTFusion.owner_ids_call "0xcafe" "0x0wner"
      :: map (NFTFusion.detail_call "0xcafe") [1; 2] /\
  NFTFusion.isLoading s' = false /\
  NFTFusion.selectedNFTs s' = [] /\
  (if existsb (unreadable two_gems "0xcafe") [1; 2]
   then NFTFusion.userNFTs s' = [] /\ error_surfaced log = true
   else Forall2 (fusion_card two_gems "0xcafe") [1; 2] (NFTFusion.userNFTs s') /\
        error_surfaced log = false).
Proof.
  apply (fusion_refresh_is_all_or_nothing two_gems
           (NFTFusion.initial "0xcafe" (Some "0x0wner")) "0x0wner" [1; 2]);
    reflexivity.
Defined.

End OwnerRefresh.

(** ** The fusion selection, continued *)

Section FusionSelection.
Import NFTFusion.




Lemma deselect_new :
  forall (nft : NFT) (sel : list NFT),
    ~ In (id nft) (map id sel) ->
    filter (fun selected => negb (is_selected nft selected)) sel = sel.
Proof.
  intros nft sel. induction sel as [|x r IH]; [reflexivity|].
  cbn [map filter In]. intro H. unfold is_selected at 1.
  destruct (Z.eqb_spec (id x) (id nft)) as [E|E]; [tauto|].
  cbn [negb]. rewrite IH; [reflexivity|tauto].
Qed.

(** X13: selecting an NFT that is not selected, while fewer than two are,
    and clicking it again gives back the state the page was in, with no
    message. *)
Theorem second_click_undoes_the_selection :
  forall (nft : NFT) (s : State),
    ~ In (id nft) (map id (selectedNFTs s)) ->
    (List.length (selectedNFTs s) < 2)%nat ->
    handleNFTSelect nft (fst (handleNFTSelect nft s)) = (s, []) /\
    In nft (selectedNFTs (fst (handleNFTSelect nft s))).
Proof.
  intros nft s Hnew Hlen.
  assert (E : existsb (is_selected nft) (selectedNFTs s) = false).
  { apply not_true_is_false. rewrite is_selected_In. exact Hnew. }
  unfold handleNFTSelect at 2 3. rewrite E.
  destruct (Z.ltb_spec (Z.of_nat (List.length (selectedNFTs s))) 2); [|lia].
  cbn [fst]. split; [|cbn; apply in_or_app; right; left; reflexivity].
  unfold handleNFTSelect. cbn [selectedNFTs setSelectedNFTs].
  rewrite existsb_app. cbn [existsb]. unfold is_selected at 2.
  rewrite Z.eqb_refl. cbn [orb]. rewrite orb_true_r.
  rewrite filter_app. cbn [filter]. unfold is_selected at 2.
  rewrite Z.eqb_refl. cbn [negb]. rewrite app_nil_r, (deselect_new _ _ Hnew).
  destruct s; reflexivity.
Qed.

Lemma second_click_undoes_the_selection_witness :
  NFTFusion.handleNFTSelect (Demo.gem 2)
    (fst (NFTFusion.handleNFTSelect (Demo.gem 2) Demo.one_selected))
    = (Demo.one_selected, []) /\
  In (Demo.gem 2)
     (NFTFusion.selectedNFTs
        (fst (NFTFusion.handleNFTSelect (Demo.gem 2) Demo.one_selected))).
Proof.
  apply (second_click_undoes_the_selection (Demo.gem 2) Demo.one_selected).
  - cbn. intros [H|[]]. discriminate H.
  - cbn. lia.
Defined.

End FusionSelection.

(** ** The gate of the bid dialog *)

Section BidGate.
Import AuctionView.

Lemma leb_false_iff :
  forall x y : float,
    (x <=? y)%float = false <->
    (y <? x)%float = true \/ PrimFloat.is_nan x = true \/
    PrimFloat.is_nan y = true.
Proof.
  intros x y. rewrite FloatAxioms.leb_spec, FloatAxioms.ltb_spec, !is_nan_spec.
  unfold SFleb, SFltb. rewrite (SFcompare_swap (Prim2SF x) (Prim2SF y)).
  pose proof (SFcompare_nan (Prim2SF x) (Prim2SF y)) as Hn.
  destruct (SFcompare (Prim2SF x) (Prim2SF y)) as [[]|]; cbn [option_map CompOpp];
    split; intro H; try discriminate; auto.
  - destruct H as [H|H]; [discriminate|].
    apply Hn in H. discriminate.
  - destruct H as [H|H]; [discriminate|].
    apply Hn in H. discriminate.
  - right. apply Hn. reflexivity.
Qed.

(** X14: with the bid dialog open on an auction, the submit button is
    enabled exactly when an amount is typed and either it is a number above
    the auction's current bid or one of the two is not a number. The minimum
    that the dialog displays (the current bid plus 0.1) is no part of the
    test. *)
Theorem bid_gate_lets_through :
  forall (s : State) (a : Auction),
    selectedAuction s = Some a ->
    (bidSubmitDisabled s = false <->
     bidAmount s <> "" /\
     ((currentBid a <? JS.parseFloat (bidAmount s))%float = true \/
      PrimFloat.is_nan (JS.parseFloat (bidAmount s)) = true \/
      PrimFloat.is_nan (currentBid a) = true)).
Proof.
  intros s a Hsel. unfold bidSubmitDisabled. rewrite Hsel.
  rewrite orb_false_iff, negb_false_iff, leb_false_iff.
  unfold JS.truthy_string. rewrite negb_true_iff, String.eqb_neq. tauto.
Qed.

Lemma bid_gate_lets_through_witness :
  AuctionView.bidSubmitDisabled (Sample.bidding "3.05") = false <->
  AuctionView.bidAmount (Sample.bidding "3.05") <> "" /\
  ((AuctionView.currentBid Sample.auction <? JS.parseFloat "3.05")%float = true \/
   PrimFloat.is_nan (JS.parseFloat "3.05") = true \/
   PrimFloat.is_nan (AuctionView.currentBid Sample.auction) = true).
Proof.
  apply (bid_gate_lets_through (Sample.bidding "3.05") Sample.auction).
  reflexivity.
Defined.

End BidGate.

(** ** Decoded amounts *)

Section DecodedAmounts.

Lemma major_units_not_nan :
  forall x : float,
    Prim2SF x <> S754_nan -> Prim2SF (x / OCTAS)%float <> S754_nan.
Proof.
  intros x Hx. rewrite FloatAxioms.div_spec.
  change (Prim2SF OCTAS) with (S754_finite false 6710886400000000 (-26)).
  unfold SF64div.
  destruct (Prim2SF x) as [sx|sx| |sx mx ex]; cbn [SFdiv];
    try discriminate; [destruct (Hx eq_refl)|].
  unfold SFdiv_core_binary.
  set (m' := match _ with 0 => Zpos mx | Zpos _ => _ | Zneg _ => 0 end).
  assert (Hm' : 0 <= m').
  { subst m'. destruct (_ - _ - _) as [|p|p]; try lia.
    apply Z.shiftl_nonneg. lia. }
  pose proof (Z.div_pos m' 6710886400000000 Hm' ltac:(lia)) as Hq.
  unfold Z.div in Hq.
  change IntDef.Z.div_eucl with Z.div_eucl.
  destruct (Z.div_eucl m' 6710886400000000) as [q r]. cbn [fst] in Hq.
  apply binary_round_aux_not_nan, Hq.
Qed.

Lemma amount_is_a_number :
  forall z : Z, PrimFloat.is_nan (JS.b64 z / OCTAS)%float = false.
Proof.
  intro z. destruct (PrimFloat.is_nan (JS.b64 z / OCTAS)%float) eqn:E;
    [|reflexivity].
  apply is_nan_spec in E. exfalso. revert E.
  apply major_units_not_nan. unfold JS.b64.
  apply SF2Prim_not_nan, binary_normalize_not_nan.
Qed.

(** X15: every amount the pages decode from a ledger record (the price of a
    marketplace NFT, the current bid and the starting price of an auction,
    the price of an owned NFT) is a number: the division of the ledger's
    integer by 10^8 never yields NaN. *)
Theorem decoded_amounts_are_numbers :
  (forall (now : Z) (raw : RawNFT),
      PrimFloat.is_nan (MarketView.price (MarketView.decodeNft now raw))
      = false) /\
  (forall raw : RawAuction,
      PrimFloat.is_nan (AuctionView.currentBid (AuctionView.decodeAuction raw))
      = false /\
      PrimFloat.is_nan (AuctionView.startingPrice (AuctionView.decodeAuction raw))
      = false) /\
  (forall d : RawDetails,
      PrimFloat.is_nan (MyNFTs.price (MyNFTs.decodeDetails d)) = false).
Proof.
  split; [|split]; intros; [|split|]; apply amount_is_a_number.
Qed.

End DecodedAmounts.

(** ** What reaches the wallet agent in a session *)

Lemma slice_In :
  forall {A} (from to : Z) (l : list A) (x : A),
    In x (AuctionView.slice from to l) -> In x l.
Proof.
  intros A from to l x H. unfold AuctionView.slice in H. cbv zeta in H.
  match type of H with
  | In x (firstn ?n (skipn ?k l)) =>
      rewrite <- (firstn_skipn k l); apply in_or_app; right;
      rewrite <- (firstn_skipn n (skipn k l)); apply in_or_app; left; exact H
  end.
Qed.

Section BidSessions.
Import AuctionView.

Variable addr : string.
Variable acct : option string.
Variable all : list (World * UIEvent).

Lemma fetchAuctions_inv :
  forall w e s,
    In (w, e) all -> bid_inv addr acct all s ->
    bid_inv addr acct all (fst (fetchAuctions w s)).
Proof.
  intros w e s Hin (Ha & Hc & Hr & Hs). unfold fetchAuctions.
  destruct (view_get_all_auctions w (marketplaceAddr s)) as [[raws|]|] eqn:E;
    cbn [fst]; inv_split; try assumption.
  cbn. intros a Hin'. apply in_map_iff in Hin'. destruct Hin' as (raw & <- & Hraw).
  exists w, e, raws, raw. rewrite <- Ha. repeat split; assumption.
Qed.

Lemma fetchAuctions_no_intent :
  forall w s p, ~ In (SignAndSubmit p) (snd (fetchAuctions w s)).
Proof.
  intros w s p. unfold fetchAuctions.
  destruct (view_get_all_auctions w _) as [[raws|]|]; cbn;
    intuition discriminate.
Qed.

Lemma handleBidSubmit_inv :
  forall w e s,
    In (w, e) all -> bid_inv addr acct all s ->
    bid_inv addr acct all (fst (handleBidSubmit w s)).
Proof.
  intros w e s Hin Hs. unfold handleBidSubmit.
  destruct (selectedAuction s) as [a|] eqn:Esel; [|exact Hs].
  destruct (JS.truthy_string _); [|exact Hs].
  destruct (account s) eqn:Eacc; [|exact Hs].
  destruct (signAndSubmitTransaction w _) as [hash|]; [|exact Hs].
  destruct (waitForTransaction w hash); [|exact Hs].
  match goal with
  | |- context [fetchAuctions w ?s1] =>
      pose proof (fetchAuctions_inv w e s1 Hin) as H;
      destruct (fetchAuctions w s1) as [s2 l]
  end.
  apply H. destruct Hs as (Ha & Hc & Hr & Hsel). inv_split; assumption.
Qed.

Lemma handleBidSubmit_intents :
  forall w s p,
    In (SignAndSubmit p) (snd (handleBidSubmit w s)) ->
    exists a, selectedAuction s = Some a /\
              JS.truthy_string (bidAmount s) = true /\
              p = place_bid_payload (marketplaceAddr s) (id a) (bidAmount s).
Proof.
  intros w s p. unfold handleBidSubmit.
  destruct (selectedAuction s) as [a|]; [|intros []].
  destruct (JS.truthy_string _) eqn:Et; [|intros []].
  destruct (account s); [|intros []].
  intro H. exists a. split; [reflexivity|]. split; [reflexivity|].
  destruct (signAndSubmitTransaction w _) as [hash|].
  - destruct (waitForTransaction w hash).
    + match goal with
      | _ : context [fetchAuctions w ?s1] |- _ =>
          pose proof (fetchAuctions_no_intent w s1 p) as Hn;
          destruct (fetchAuctions w s1) as [s2 l]
      end.
      cbn in H, Hn. destruct H as [H|[H|[H|H]]]; try discriminate.
      * injection H as <-. reflexivity.
      * destruct (Hn H).
    + cbn in H. destruct H as [H|H]; [injection H as <-; reflexivity|].
      intuition discriminate.
  - cbn in H. destruct H as [H|H]; [injection H as <-; reflexivity|].
    intuition discriminate.
Qed.

Lemma bid_step_inv :
  forall w e s,
    In (w, e) all -> bid_inv addr acct all s ->
    bid_inv addr acct all (fst (step w s e)).
Proof.
  intros w e s Hin Hs. destruct e; cbn [step].
  - destruct (nth_error (paginatedAuctions s) card) as [a|] eqn:Ec; [|exact Hs].
    destruct (isLoading s); [exact Hs|]. cbn [negb andb].
    destruct (isAuctionEnded (date_now w) (endTime a)) eqn:Ee; [exact Hs|].
    cbn [negb andb].
    destruct (placeBidDisabled s a) eqn:Ed; [exact Hs|]. cbn [negb].
    unfold handleBidClick. destruct (account s) as [address|] eqn:Ea; [|exact Hs].
    destruct Hs as (Ha & Hc & Hr & Hsel). cbn [fst].
    inv_split; try assumption.
    intros a0 H. cbn in H. injection H as <-. split; [|split].
    + apply Hr. apply nth_error_In in Ec. apply (slice_In _ _ _ _ Ec).
    + exists w, (ClickPlaceBid card). split; assumption.
    + exists address. split; [apply Hc; exact Ea|].
      unfold placeBidDisabled in Ed. rewrite Ea in Ed.
      apply String.eqb_neq, Ed.
  - destruct (isBidModalVisible s); [|exact Hs].
    destruct (selectedAuction s) eqn:E; [|exact Hs].
    destruct Hs as (Ha & Hc & Hr & Hsel). inv_split; assumption.
  - destruct (isBidModalVisible s && negb (bidSubmitDisabled s)); [|exact Hs].
    apply (handleBidSubmit_inv w ClickSubmitBid); assumption.
  - destruct (isBidModalVisible s); [|exact Hs].
    destruct Hs as (Ha & Hc & Hr & Hsel). inv_split; try assumption.
    intros a H. discriminate.
  - destruct (isLoading s); [exact Hs|].
    destruct Hs as (Ha & Hc & Hr & Hsel). inv_split; assumption.
  - apply (fetchAuctions_inv w PollTimer); assumption.
  - destruct Hs as (Ha & Hc & Hr & Hsel). inv_split; try assumption.
    intros address H. cbn in H. subst acct0. right. exists w. exact Hin.
Qed.

Lemma bid_step_intents :
  forall w e s p,
    bid_inv addr acct all s -> In (SignAndSubmit p) (snd (step w s e)) ->
    guarded_bid addr acct all p.
Proof.
  intros w e s p Hs. destruct e; cbn [step].
  - destruct (nth_error (paginatedAuctions s) card) as [a|]; [|intros []].
    destruct (negb (isLoading s) && _ && _); [|intros []].
    unfold handleBidClick. destruct (account s); cbn; intuition discriminate.
  - destruct (isBidModalVisible s); [|intros []].
    destruct (selectedAuction s); intros [].
  - destruct (isBidModalVisible s); [|intros []]. cbn [andb].
    destruct (bidSubmitDisabled s) eqn:Ed; [intros []|]. cbn [negb].
    intro H. apply handleBidSubmit_intents in H.
    destruct H as (a & Hsel & Ht & ->).
    destruct Hs as (Ha & Hc & Hr & Hs).
    exists a, (bidAmount s). split; [apply Hs, Hsel|]. split.
    + intro E. rewrite E in Ht. discriminate.
    + unfold bidSubmitDisabled in Ed. rewrite Hsel in Ed.
      apply orb_false_elim in Ed. destruct Ed as [_ Ed].
      split; [exact Ed|]. rewrite Ha. reflexivity.
  - destruct (isBidModalVisible s); intros [].
  - destruct (isLoading s); intros [].
  - intro H. destruct (fetchAuctions_no_intent w s p H).
  - intros [].
Qed.

Lemma bid_run_intents :
  forall evs s p,
    incl evs all -> bid_inv addr acct all s ->
    In (SignAndSubmit p) (snd (run evs s)) -> guarded_bid addr acct all p.
Proof.
  induction evs as [|[w e] r IH]; intros s p Hall Hs; cbn [run].
  - intros [].
  - assert (Hin : In (w, e) all) by (apply Hall; left; reflexivity).
    pose proof (bid_step_inv w e s Hin Hs) as H1.
    pose proof (bid_step_intents w e s p Hs) as H2.
    destruct (step w s e) as [s1 l1]. cbn [fst snd] in H1, H2.
    pose proof (IH s1 p (fun x Hx => Hall x (or_intror Hx)) H1) as H3.
    destruct (run r s1) as [s2 l2]. cbn [snd] in *.
    intro H. apply in_app_or in H. destruct H as [H|H]; auto.
Qed.

End BidSessions.

(** X16: in every session of the auction page, from the page as it opens
    and with the wallet connecting, disconnecting and switching accounts as
    it may, each intent handed to the wallet agent is a bid on an auction
    that is in the gateway's answer at some event of the session and that
    had not ended at the time of some event of the session; the amount is
    not empty and is not at or below the current bid of the auction the
    dialog holds; and the seller of the auction is not the account that
    opened the dialog, which is one of the accounts connected in the
    session.  The account that is connected when the bid is sent is not
    compared with the seller. *)
Theorem bids_reaching_the_wallet_are_guarded :
  forall (evs : list (World * AuctionView.UIEvent)) (addr : string)
         (acct : option string) (p : Payload),
    In (SignAndSubmit p)
       (snd (AuctionView.run evs (AuctionView.initial addr acct))) ->
    exists a bid,
      (reported addr evs a /\ seen_running evs a /\
       exists address,
         connected_in AuctionView.WalletChange acct evs address /\
         address <> AuctionView.seller a) /\
      bid <> "" /\
      (JS.parseFloat bid <=? AuctionView.currentBid a)%float = false /\
      p = AuctionView.place_bid_payload addr (AuctionView.id a) bid.
Proof.
  intros evs addr acct p H.
  apply (bid_run_intents addr acct evs evs (AuctionView.initial addr acct) p);
    [apply incl_refl| |exact H].
  split; [|split; [|split]]; try reflexivity.
  - intros address E. left. exact E.
  - intros a [].
  - discriminate.
Qed.

Lemma bids_reaching_the_wallet_are_guarded_witness :
  exists a bid,
    (reported "0xcafe" Demo.bid_session a /\ seen_running Demo.bid_session a /\
     exists address,
       connected_in AuctionView.WalletChange (Some "0xb1dde4")
                    Demo.bid_session address /\
       address <> AuctionView.seller a) /\
    bid <> "" /\
    (JS.parseFloat bid <=? AuctionView.currentBid a)%float = false /\
    AuctionView.place_bid_payload "0xcafe" 7 "5"
    = AuctionView.place_bid_payload "0xcafe" (AuctionView.id a) bid.
Proof.
  apply (bids_reaching_the_wallet_are_guarded Demo.bid_session).
  vm_compute. right. left. reflexivity.
Defined.

(** The guard on the seller is the one of the Place Bid button.  A seller
    who opens the dialog from another account and switches back can bid on
    the own auction: [handleBidSubmit] asks for an account, not for which. *)
Lemma seller_bids_after_a_switch :
  let seller := AuctionView.seller Sample.auction in
  let evs := [(Demo.accepting, AuctionView.PollTimer);
              (Demo.accepting, AuctionView.ClickPlaceBid 0%nat);
              (Demo.accepting, AuctionView.WalletChange (Some seller));
              (Demo.accepting, AuctionView.TypeBidAmount "5")] in
  let s := fst (AuctionView.run evs (AuctionView.initial "0xcafe" (Some "0xb1dde4"))) in
  AuctionView.account s = Some seller /\
  AuctionView.selectedAuction s = Some Sample.auction /\
  hd_error (snd (AuctionView.step Demo.accepting s AuctionView.ClickSubmitBid))
  = Some (SignAndSubmit (AuctionView.place_bid_payload "0xcafe" 7 "5")).
Proof. vm_compute. repeat split. Qed.

Section MarketSessions.
Import MarketView MarketPage.

Variable addr : string.
Variable all : list (World * UIEvent).

Lemma applyFilters_inv :
  forall s, market_inv addr all s -> market_inv addr all (applyFilters s).
Proof.
  intros s (Ha & Hn & Hf & Hs). inv_split; try assumption.
  intros nft H. apply Hn. apply (proj1 (applyFilters_In s nft) H).
Qed.

Lemma fetchNfts_inv :
  forall w e s,
    In (w, e) all -> market_inv addr all s ->
    market_inv addr all (fst (fetchNfts w s)).
Proof.
  intros w e s Hin (Ha & Hn & Hf & Hs). unfold fetchNfts.
  destruct (getAccountResource w (marketplaceAddr s)) as [raws|] eqn:E;
    cbn [fst]; inv_split; try assumption.
  - cbn. intros nft H. apply in_map_iff in H. destruct H as (raw & <- & Hraw).
    exists w, e, raws, raw. rewrite <- Ha. repeat split; assumption.
  - cbn. intros nft H. apply in_map_iff in H. destruct H as (raw & <- & Hraw).
    exists w, e, raws, raw. rewrite <- Ha. repeat split; assumption.
Qed.

Lemma fetchNfts_no_intent :
  forall w s p, ~ In (SignAndSubmit p) (snd (fetchNfts w s)).
Proof.
  intros w s p. unfold fetchNfts.
  destruct (getAccountResource w _); cbn; intuition discriminate.
Qed.

Lemma handleConfirmPurchase_inv :
  forall w e s,
    In (w, e) all -> market_inv addr all s ->
    market_inv addr all (fst (handleConfirmPurchase w s)).
Proof.
  intros w e s Hin Hs. unfold handleConfirmPurchase.
  destruct (selectedNft s) as [nft|] eqn:Esel; [|exact Hs].
  destruct (signAndSubmitTransaction w _) as [hash|]; [|exact Hs].
  destruct (waitForTransaction w hash); [|exact Hs].
  match goal with
  | |- context [fetchNfts w ?s1] =>
      pose proof (fetchNfts_inv w e s1 Hin) as H;
      destruct (fetchNfts w s1) as [s2 l]
  end.
  apply H. destruct Hs as (Ha & Hn & Hf & Hsel). inv_split; assumption.
Qed.

Lemma handleConfirmPurchase_intents :
  forall w s p,
    In (SignAndSubmit p) (snd (handleConfirmPurchase w s)) ->
    exists nft, selectedNft s = Some nft /\
                p = purchase_payload (marketplaceAddr s) nft.
Proof.
  intros w s p. unfold handleConfirmPurchase.
  destruct (selectedNft s) as [nft|]; [|intros []].
  intro H. exists nft. split; [reflexivity|].
  destruct (signAndSubmitTransaction w _) as [hash|].
  - destruct (waitForTransaction w hash).
    + match goal with
      | _ : context [fetchNfts w ?s1] |- _ =>
          pose proof (fetchNfts_no_intent w s1 p) as Hn;
          destruct (fetchNfts w s1) as [s2 l]
      end.
      cbn in H, Hn. destruct H as [H|[H|[H|H]]]; try discriminate.
      * injection H as <-. reflexivity.
      * destruct (Hn H).
    + cbn in H. destruct H as [H|H]; [injection H as <-; reflexivity|].
      intuition discriminate.
  - cbn in H. destruct H as [H|H]; [injection H as <-; reflexivity|].
    intuition discriminate.
Qed.

Lemma market_step_inv :
  forall w e s s',
    In (w, e) all -> market_inv addr all s ->
    fst (step w s e) = Some s' -> market_inv addr all s'.
Proof.
  intros w e s s' Hin Hs. destruct e; cbn [step].
  - pose proof (fetchNfts_inv w LoadNfts s Hin Hs) as H.
    destruct (fetchNfts w s) as [s1 l].
    destruct (getAccountResource w (marketplaceAddr s));
      cbn [fst]; intro E; injection E as <-;
      [apply applyFilters_inv|]; exact H.
  - destruct (option_Z_eqb v (rarityFilter s));
      cbn [fst]; intro E; injection E as <-; [exact Hs|].
    apply applyFilters_inv. destruct Hs as (Ha & Hn & Hf & Hsel).
    inv_split; assumption.
  - destruct (String.eqb v (sortBy s));
      cbn [fst]; intro E; injection E as <-; [exact Hs|].
    apply applyFilters_inv. destruct Hs as (Ha & Hn & Hf & Hsel).
    inv_split; assumption.
  - destruct (String.eqb v (searchTerm s));
      cbn [fst]; intro E; injection E as <-; [exact Hs|].
    apply applyFilters_inv. destruct Hs as (Ha & Hn & Hf & Hsel).
    inv_split; assumption.
  - cbn [fst]; intro E; injection E as <-.
    apply applyFilters_inv. destruct Hs as (Ha & Hn & Hf & Hsel).
    inv_split; assumption.
  - cbn [fst]; intro E; injection E as <-.
    apply applyFilters_inv. destruct Hs as (Ha & Hn & Hf & Hsel).
    inv_split; assumption.
  - discriminate.
  - destruct (isLoading s); cbn [fst]; intro E; injection E as <-;
      [exact Hs|].
    destruct Hs as (Ha & Hn & Hf & Hsel). inv_split; assumption.
  - destruct (isLoading s); [cbn [fst]; intro E; injection E as <-; exact Hs|].
    destruct (nth_error (paginatedNfts s) card) as [nft|] eqn:Ec;
      cbn [fst]; intro E; injection E as <-; [|exact Hs].
    destruct Hs as (Ha & Hn & Hf & Hsel). inv_split; try assumption.
    intros nft0 H. cbn in H. injection H as <-.
    apply Hf. apply nth_error_In in Ec. apply (slice_In _ _ _ _ Ec).
  - destruct (isBuyModalVisible s); cbn [fst]; intro E; injection E as <-;
      [|exact Hs].
    destruct Hs as (Ha & Hn & Hf & Hsel). inv_split; try assumption.
    intros nft H. discriminate.
  - destruct (isBuyModalVisible s);
      [|cbn [fst]; intro E; injection E as <-; exact Hs].
    pose proof (handleConfirmPurchase_inv w ConfirmPurchase s Hin Hs) as H.
    destruct (handleConfirmPurchase w s) as [s1 l].
    cbn [fst]; intro E; injection E as <-.
    destruct (purchase_refreshes w s); [apply applyFilters_inv|]; exact H.
Qed.

Lemma market_step_intents :
  forall w e s p,
    market_inv addr all s -> In (SignAndSubmit p) (snd (step w s e)) ->
    exists nft, listed_in addr all nft /\ p = purchase_payload addr nft.
Proof.
  intros w e s p Hs. destruct e; cbn [step].
  - pose proof (fetchNfts_no_intent w s p) as H.
    destruct (fetchNfts w s) as [s1 l].
    destruct (getAccountResource w (marketplaceAddr s)); intro H0;
      destruct (H H0).
  - destruct (option_Z_eqb v (rarityFilter s)); intros [].
  - destruct (String.eqb v (sortBy s)); intros [].
  - destruct (String.eqb v (searchTerm s)); intros [].
  - intros [].
  - intros [].
  - intros [].
  - destruct (isLoading s); intros [].
  - destruct (isLoading s); [intros []|].
    destruct (nth_error (paginatedNfts s) card); intros [].
  - destruct (isBuyModalVisible s); intros [].
  - destruct (isBuyModalVisible s); [|intros []].
    pose proof (handleConfirmPurchase_intents w s p) as H.
    destruct (handleConfirmPurchase w s) as [s1 l]. cbn [snd] in *.
    intro H0. destruct (H H0) as (nft & Hsel & ->).
    destruct Hs as (Ha & Hn & Hf & Hs).
    exists nft. split; [apply Hs, Hsel|]. rewrite Ha. reflexivity.
Qed.

Lemma market_run_intents :
  forall evs s p,
    incl evs all -> market_inv addr all s ->
    In (SignAndSubmit p) (snd (run evs s)) ->
    exists nft, listed_in addr all nft /\ p = purchase_payload addr nft.
Proof.
  induction evs as [|[w e] r IH]; intros s p Hall Hs; cbn [run].
  - intros [].
  - assert (Hin : In (w, e) all) by (apply Hall; left; reflexivity).
    pose proof (fun s' => market_step_inv w e s s' Hin Hs) as H1.
    pose proof (market_step_intents w e s p Hs) as H2.
    destruct (step w s e) as [[s1|] l1]; cbn [fst snd] in H1, H2.
    + pose proof (IH s1 p (fun x Hx => Hall x (or_intror Hx))
                    (H1 s1 eq_refl)) as H3.
      destruct (run r s1) as [s2 l2]. cbn [snd] in *.
      intro H. apply in_app_or in H. destruct H as [H|H]; auto.
    + exact H2.
Qed.

End MarketSessions.

(** X17: in every session of the market page, from the page as it opens,
    each intent handed to the wallet agent is the purchase of an NFT that is
    in the marketplace resource the gateway answers with at some event of
    the session, with the id and the price of that record. *)
Theorem purchases_come_from_the_snapshot :
  forall (evs : list (World * MarketPage.UIEvent)) (addr : string)
         (p : Payload),
    In (SignAndSubmit p)
       (snd (MarketPage.run evs (MarketView.initial addr))) ->
    exists nft,
      listed_in addr evs nft /\ p = MarketView.purchase_payload addr nft.
Proof.
  intros evs addr p H.
  apply (market_run_intents addr evs evs (MarketView.initial addr) p);
    [apply incl_refl| |exact H].
  split; [|split; [|split]]; try reflexivity.
  - intros a [].
  - intros a [].
  - discriminate.
Qed.

Lemma purchases_come_from_the_snapshot_witness :
  exists nft,
    listed_in "0xcafe" Demo.purchase_session nft /\
    MarketView.purchase_payload "0xcafe"
      (MarketView.decodeNft 50000 Demo.shield)
    = MarketView.purchase_payload "0xcafe" nft.
Proof.
  apply (purchases_come_from_the_snapshot Demo.purchase_session).
  vm_compute. right. left. reflexivity.
Defined.

Section OwnerSessions.
Import MyNFTs MyNFTsPage.

Variable acct : option string.
Variable all : list (World * UIEvent).

Lemma fetch_details_In :
  forall (w : World) (ids : list Z) (nft : NFT),
    In nft (fst (fetch_details w ids)) ->
    exists i d, In i ids /\ view_get_nft_details w marketplaceAddr i = Some d /\
                nft = decodeDetails d.
Proof.
  intros w ids nft. rewrite (proj1 (my_fetch_details_cards w ids)).
  intro H. apply in_flat_map in H. destruct H as (i & Hi & H).
  unfold detail_card in H.
  destruct (view_get_nft_details w marketplaceAddr i) as [d|] eqn:E;
    [|destruct H].
  destruct H as [<-|[]]. exists i, d. repeat split; assumption.
Qed.

Lemma my_fetchUserNFTs_inv :
  forall w e s,
    In (w, e) all -> page_inv acct all s ->
    page_inv acct all (fst (fetchUserNFTs w s)).
Proof.
  intros w e s Hin Hinv. pose proof Hinv as (Ha & Hn & Hs).
  unfold fetchUserNFTs.
  destruct (account s) as [address|] eqn:Eacc; [|exact Hinv].
  destruct (view_get_all_nfts_for_owner w marketplaceAddr address "100" "0")
    as [ids|] eqn:Eids;
    [|page_split; cbn;
      first [assumption|intros a0 E; apply Ha; congruence]].
  assert (Hnew : forall nft, In nft (fst (fetch_details w ids)) ->
                   owned_by_a_connected acct all nft).
  { intros nft H. apply fetch_details_In in H.
    destruct H as (i & d & Hi & Hd & ->).
    exists address. split; [exact (Ha address eq_refl)|].
    exists w, e, ids, i, d. repeat split; assumption. }
  destruct ids as [|i r].
  - page_split; cbn;
      first [assumption|intros a0 E; apply Ha; congruence|intros nft []].
  - destruct (fetch_details w (i :: r)) as [l log]. cbn [fst] in *.
    page_split; cbn;
      first [assumption|intros a0 E; apply Ha; congruence].
Qed.

Lemma my_fetchUserNFTs_no_intent :
  forall w s p, ~ In (SignAndSubmit p) (snd (fetchUserNFTs w s)).
Proof.
  intros w s p H.
  pose proof (my_fetchUserNFTs_reads_only w s) as Hr.
  assert (E : existsb is_write (snd (fetchUserNFTs w s)) = true).
  { apply existsb_exists. eexists. split; [exact H|reflexivity]. }
  congruence.
Qed.

Lemma write_then_fetch_inv :
  forall w e s s1 p (failed : Log) (msg : Action),
    In (w, e) all -> page_inv acct all s -> page_inv acct all s1 ->
    page_inv acct all
      (fst match signAndSubmitTransaction w p with
           | None => (s, SignAndSubmit p :: failed)
           | Some hash =>
               if waitForTransaction w hash then
                 let '(s2, l) := fetchUserNFTs w s1 in
                 (s2, SignAndSubmit p :: WaitForTransaction hash :: msg :: l)
               else (s, SignAndSubmit p :: WaitForTransaction hash :: failed)
           end).
Proof.
  intros w e s s1 p failed msg Hin Hs Hs1.
  destruct (signAndSubmitTransaction w p) as [hash|]; [|exact Hs].
  destruct (waitForTransaction w hash); [|exact Hs].
  pose proof (my_fetchUserNFTs_inv w e s1 Hin Hs1) as H.
  destruct (fetchUserNFTs w s1) as [s2 l]. exact H.
Qed.

Lemma write_then_fetch_intents :
  forall w s s1 p q (failed : Log) (msg : Action),
    existsb is_write failed = false -> is_write msg = false ->
    In (SignAndSubmit q)
       (snd match signAndSubmitTransaction w p with
            | None => (s, SignAndSubmit p :: failed)
            | Some hash =>
                if waitForTransaction w hash then
                  let '(s2, l) := fetchUserNFTs w s1 in
                  (s2, SignAndSubmit p :: WaitForTransaction hash :: msg :: l)
                else (s, SignAndSubmit p :: WaitForTransaction hash :: failed)
            end) ->
    q = p.
Proof.
  intros w s s1 p q failed msg Hf Hm.
  assert (Hfail : ~ In (SignAndSubmit q) failed).
  { intro H. assert (E : existsb is_write failed = true).
    { apply existsb_exists. eexists. split; [exact H|reflexivity]. }
    congruence. }
  destruct (signAndSubmitTransaction w p) as [hash|].
  - destruct (waitForTransaction w hash).
    + pose proof (my_fetchUserNFTs_no_intent w s1 q) as Hn.
      destruct (fetchUserNFTs w s1) as [s2 l]. cbn [snd] in *.
      intros [H|[H|[H|H]]]; try discriminate.
      * injection H as <-. reflexivity.
      * subst msg. discriminate.
      * destruct (Hn H).
    + cbn [snd]. intros [H|[H|H]]; try discriminate.
      * injection H as <-. reflexivity.
      * destruct (Hfail H).
  - cbn [snd]. intros [H|H]; [injection H as <-; reflexivity|].
    destruct (Hfail H).
Qed.

Lemma page_step_inv :
  forall w e s,
    In (w, e) all -> page_inv acct all s ->
    page_inv acct all (fst (step w s e)).
Proof.
  intros w e s Hin Hs. destruct e; cbn [step].
  - apply (my_fetchUserNFTs_inv w LoadNFTs); assumption.
  - destruct (isLoading s || (page =? currentPage s)); [exact Hs|].
    apply (my_fetchUserNFTs_inv w (ChangePage page)); [exact Hin|].
    destruct Hs as (Ha & Hn & Hsel). page_split; assumption.
  - destruct (isLoading s); [exact Hs|].
    destruct (nth_error (paginatedNFTs s) card) as [nft|] eqn:Ec; [|exact Hs].
    destruct Hs as (Ha & Hn & Hsel). page_split; try assumption.
    intros nft0 H. cbn in H. injection H as <-.
    apply Hn. apply nth_error_In in Ec. apply (slice_In _ _ _ _ Ec).
  - destruct (isLoading s); [exact Hs|].
    destruct (nth_error (paginatedNFTs s) card) as [nft|] eqn:Ec; [|exact Hs].
    destruct Hs as (Ha & Hn & Hsel). page_split; try assumption.
    intros nft0 H. cbn in H. injection H as <-.
    apply Hn. apply nth_error_In in Ec. apply (slice_In _ _ _ _ Ec).
  - destruct (isModalVisible s); [|exact Hs].
    destruct (selectedNft s) eqn:E; [|exact Hs].
    destruct Hs as (Ha & Hn & Hsel). page_split; assumption.
  - destruct (isAuctionModalVisible s); [|exact Hs].
    destruct (selectedNft s) eqn:E; [|exact Hs].
    destruct Hs as (Ha & Hn & Hsel). page_split; assumption.
  - destruct (isAuctionModalVisible s); [|exact Hs].
    destruct (selectedNft s) eqn:E; [|exact Hs].
    destruct Hs as (Ha & Hn & Hsel). page_split; assumption.
  - destruct (isModalVisible s || isAuctionModalVisible s); [|exact Hs].
    destruct Hs as (Ha & Hn & Hsel). page_split; try assumption.
    intros nft H. discriminate.
  - destruct (isModalVisible s); [|exact Hs].
    unfold handleConfirmListing.
    destruct (selectedNft s) as [nft|] eqn:Esel; [|exact Hs].
    destruct (JS.truthy_string (salePrice s)); [|exact Hs].
    apply (write_then_fetch_inv w ConfirmListing); assumption.
  - destruct (isAuctionModalVisible s); [|exact Hs].
    unfold handleConfirmAuction, createAuction.
    destruct (selectedNft s) as [nft|] eqn:Esel; [|exact Hs].
    destruct (JS.truthy_string (auctionStartingPrice s)); [|exact Hs].
    destruct (auctionEndTime s) as [endTime|]; [|exact Hs].
    destruct (account s) eqn:Eacc; [|exact Hs].
    apply (write_then_fetch_inv w ConfirmAuction); assumption.
  - apply (my_fetchUserNFTs_inv w (WalletChange acct0)); [exact Hin|].
    destruct Hs as (Ha & Hn & Hsel). page_split; try assumption.
    intros address H. cbn in H. subst acct0. right. exists w. exact Hin.
Qed.

Lemma page_step_intents :
  forall w e s p,
    page_inv acct all s -> In (SignAndSubmit p) (snd (step w s e)) ->
    owner_intent acct all p.
Proof.
  intros w e s p Hs. destruct e; cbn [step].
  - intro H. destruct (my_fetchUserNFTs_no_intent w s p H).
  - destruct (isLoading s || (page =? currentPage s)); [intros []|].
    intro H. destruct (my_fetchUserNFTs_no_intent w _ p H).
  - destruct (isLoading s); [intros []|].
    destruct (nth_error (paginatedNFTs s) card); intros [].
  - destruct (isLoading s); [intros []|].
    destruct (nth_error (paginatedNFTs s) card); intros [].
  - destruct (isModalVisible s); [|intros []].
    destruct (selectedNft s); intros [].
  - destruct (isAuctionModalVisible s); [|intros []].
    destruct (selectedNft s); intros [].
  - destruct (isAuctionModalVisible s); [|intros []].
    destruct (selectedNft s); intros [].
  - destruct (isModalVisible s || isAuctionModalVisible s); intros [].
  - destruct (isModalVisible s); [|intros []].
    unfold handleConfirmListing.
    destruct (selectedNft s) as [nft|] eqn:Esel; [|intros []].
    destruct (JS.truthy_string (salePrice s)) eqn:Et; [|intros []].
    intro H. apply write_then_fetch_intents in H; [|reflexivity|reflexivity].
    subst p. destruct Hs as (Ha & Hn & Hsel).
    exists nft, (salePrice s). split; [exact (Hsel nft Esel)|]. split.
    + intro E. rewrite E in Et. discriminate.
    + left. reflexivity.
  - destruct (isAuctionModalVisible s); [|intros []].
    unfold handleConfirmAuction, createAuction.
    destruct (selectedNft s) as [nft|] eqn:Esel; [|intros []].
    destruct (JS.truthy_string (auctionStartingPrice s)) eqn:Et; [|intros []].
    destruct (auctionEndTime s) as [endTime|]; [|intros []].
    destruct (account s); [|cbn; intuition discriminate].
    intro H. apply write_then_fetch_intents in H; [|reflexivity|reflexivity].
    subst p. destruct Hs as (Ha & Hn & Hsel).
    exists nft, (auctionStartingPrice s). split; [exact (Hsel nft Esel)|].
    split.
    + intro E. rewrite E in Et. discriminate.
    + right. exists endTime. reflexivity.
  - intro H. destruct (my_fetchUserNFTs_no_intent w _ p H).
Qed.

Lemma page_run_intents :
  forall evs s p,
    incl evs all -> page_inv acct all s ->
    In (SignAndSubmit p) (snd (run evs s)) -> owner_intent acct all p.
Proof.
  induction evs as [|[w e] r IH]; intros s p Hall Hs; cbn [run].
  - intros [].
  - assert (Hin : In (w, e) all) by (apply Hall; left; reflexivity).
    pose proof (page_step_inv w e s Hin Hs) as H1.
    pose proof (page_step_intents w e s p Hs) as H2.
    destruct (step w s e) as [s1 l1]. cbn [fst snd] in H1, H2.
    pose proof (IH s1 p (fun x Hx => Hall x (or_intror Hx)) H1) as H3.
    destruct (run r s1) as [s2 l2]. cbn [snd] in *.
    intro H. apply in_app_or in H. destruct H as [H|H]; auto.
Qed.

End OwnerSessions.

(** X18: in every session of the collection page, from the page as it
    opens and with the wallet connecting, disconnecting and switching
    accounts as it may, each intent handed to the wallet agent is a listing
    or an auction of an NFT that the gateway lists, at some event of the
    session, for an account that is connected at some point of the session,
    with an amount that is not empty.  That account need not be the one
    connected when the intent is sent; in a session in which no account is
    ever connected nothing reaches the wallet agent. *)
Theorem listings_are_of_owned_nfts :
  forall (evs : list (World * MyNFTsPage.UIEvent)) (acct : option string)
         (p : Payload),
    In (SignAndSubmit p)
       (snd (MyNFTsPage.run evs (MyNFTs.initial acct))) ->
    exists nft amount,
      (exists address,
         connected_in MyNFTsPage.WalletChange acct evs address /\
         MyNFTsPage.owned_in address evs nft) /\
      amount <> "" /\
      (p = MyNFTs.list_payload (MyNFTs.id nft) amount \/
       exists endTime,
         p = MyNFTs.auction_payload (MyNFTs.id nft) amount endTime).
Proof.
  intros evs acct p H.
  apply (page_run_intents acct evs evs (MyNFTs.initial acct) p);
    [apply incl_refl| |exact H].
  split; [|split].
  - intros address E. left. exact E.
  - intros a [].
  - discriminate.
Qed.

Lemma listings_are_of_owned_nfts_witness :
  exists nft amount,
    (exists address,
       connected_in MyNFTsPage.WalletChange (Some "0x0wner")
                    Demo.listing_session address /\
       MyNFTsPage.owned_in address Demo.listing_session nft) /\
    amount <> "" /\
    (MyNFTs.list_payload 1 "2.5" = MyNFTs.list_payload (MyNFTs.id nft) amount \/
     exists endTime,
       MyNFTs.list_payload 1 "2.5"
       = MyNFTs.auction_payload (MyNFTs.id nft) amount endTime).
Proof.
  apply (listings_are_of_owned_nfts Demo.listing_session).
  vm_compute. do 3 right. left. reflexivity.
Defined.

(** [handleConfirmListing] does not ask for an account: a listing whose
    dialog was opened while an account was connected is sent after the
    wallet has disconnected. *)
Lemma listing_after_a_disconnection :
  let evs := [(two_gems, MyNFTsPage.LoadNFTs);
              (two_gems, MyNFTsPage.ClickSell 0%nat);
              (two_gems, MyNFTsPage.TypeSalePrice "2.5");
              (two_gems, MyNFTsPage.WalletChange None)] in
  let s := fst (MyNFTsPage.run evs (MyNFTs.initial (Some "0x0wner"))) in
  MyNFTs.account s = None /\
  hd_error (snd (MyNFTsPage.step two_gems s MyNFTsPage.ConfirmListing))
  = Some (SignAndSubmit (MyNFTs.list_payload 1 "2.5")).
Proof. vm_compute. split; reflexivity. Qed.

Section FusionSessions.
Import NFTFusion.

Variable addr : string.
Variable acct : option string.
Variable all : list (World * UIEvent).









End FusionSessions.



(** [handleFusion] tests the number of selected NFTs and nothing else: the
    fusion of a selection made while an account was connected is sent after
    the wallet has disconnected. *)
Lemma fusion_after_a_disconnection :
  let s := NFTFusion.setAccount None Demo.two_selected in
  NFTFusion.account s = None /\
  hd_error (snd (NFTFusion.step two_gems s NFTFusion.ClickFuse))
  = Some (SignAndSubmit (NFTFusion.fuse_payload "0xcafe" 1 2)).
Proof. vm_compute. split; reflexivity. Qed.

(** ** The order of the displayed list *)

Section SortedSessions.
Import MarketView MarketPage.

(** X20: in every session of the market page, from the page as it opens
    and as long as it is up, the displayed list is in the order of the
    field and the direction that the current sort key names, and entities
    with the same value of that field stand in the order of the snapshot.
    The fields are compared as the numbers that the comparators subtract;
    no condition on what the gateway serves is needed: the price filter
    lets no [NaN] through, and a date or a rarity is never one. *)
Theorem displayed_list_is_in_key_order :
  forall (evs : list (World * UIEvent)) (addr : string) (s : State),
    fst (run evs (initial addr)) = Some s ->
    StronglySorted (fun a b => key_leb (sortBy s) a b = true)
                   (filteredNfts s) /\
    (forall a, In a (filteredNfts s) ->
       filter (same_key (sortBy s) a) (filteredNfts s)
       = filter (same_key (sortBy s) a) (filter (passes s) (nfts s))).
Proof.
  intros evs addr s Hrun.
  pose proof (run_consistent evs (initial addr) eq_refl) as Hv.
  rewrite Hrun in Hv. destruct Hv as [Hv _]. unfold view_consistent in Hv.
  destruct (applySort_by_key (sortBy s) (applyFilter s (nfts s))
              (applyFilter_prices s (nfts s))) as (HP & HS & HT).
  rewrite Hv. split; [exact HS|].
  intros a Ha. rewrite <- applyFilter_passes. apply HT.
  apply (Permutation_in _ HP), Ha.
Qed.

Lemma displayed_list_is_in_key_order_witness :
  exists s,
    fst (MarketPage.run Demo.purchase_session (MarketView.initial "0xcafe"))
    = Some s /\
    MarketView.sortBy s = "price_asc" /\
    StronglySorted
      (fun a b => key_leb (MarketView.sortBy s) a b = true)
      (MarketView.filteredNfts s) /\
    (forall a, In a (MarketView.filteredNfts s) ->
       filter (same_key (MarketView.sortBy s) a) (MarketView.filteredNfts s)
       = filter (same_key (MarketView.sortBy s) a)
           (filter (MarketPage.passes s) (MarketView.nfts s))).
Proof.
  eexists. split; [vm_compute; reflexivity|]. split; [reflexivity|].
  apply (displayed_list_is_in_key_order Demo.purchase_session "0xcafe").
  vm_compute. reflexivity.
Defined.

End SortedSessions.

(** ** Text fields and addresses *)

Section TextFields.

(** X21: the displayed owner is the first 6 and the last 4 characters of the
    address with three dots between them; an address of at most 4 characters
    is displayed twice, around the dots. *)
Theorem truncated_address_shows_the_ends :
  (forall p m q : string,
      String.length p = 6%nat -> String.length q = 4%nat ->
      truncateAddress (p ++ m ++ q) 6 4 = p ++ "..." ++ q) /\
  (forall address : string,
      (String.length address <= 4)%nat ->
      truncateAddress address 6 4 = address ++ "..." ++ address).
Proof.
  split.
  - intros p m q Hp Hq. unfold truncateAddress, String_slice.
    rewrite !length_append, Hp, Hq. cbn [Z.opp Z.ltb Z.compare].
    replace (Z.to_nat (Z.min 0 (Z.of_nat (6 + (String.length m + 4)))))
      with 0%nat by lia.
    replace (Z.to_nat (Z.max (Z.min 6 (Z.of_nat (6 + (String.length m + 4)))
                              - Z.min 0 (Z.of_nat (6 + (String.length m + 4))))
                             0))
      with (String.length p) by lia.
    rewrite substring_prefix. f_equal. f_equal.
    replace (Z.to_nat (Z.max (Z.of_nat (6 + (String.length m + 4)) + -4) 0))
      with (String.length (p ++ m)) by (rewrite length_append; lia).
    replace (Z.to_nat
               (Z.max (Z.of_nat (6 + (String.length m + 4))
                       - Z.max (Z.of_nat (6 + (String.length m + 4)) + -4) 0)
                      0))
      with (String.length q) by lia.
    rewrite <- append_assoc. apply substring_suffix.
  - intros address H. unfold truncateAddress, String_slice.
    cbn [Z.opp Z.ltb Z.compare].
    replace (Z.to_nat (Z.min 0 (Z.of_nat (String.length address))))
      with 0%nat by lia.
    replace (Z.to_nat (Z.max (Z.min 6 (Z.of_nat (String.length address))
                              - Z.min 0 (Z.of_nat (String.length address))) 0))
      with (String.length address) by lia.
    replace (Z.to_nat (Z.max (Z.of_nat (String.length address) + -4) 0))
      with 0%nat by lia.
    replace (Z.to_nat (Z.max (Z.of_nat (String.length address) - Z.max (Z.of_nat (String.length address) + -4) 0) 0))
      with (String.length address) by lia.
    rewrite substring_all. reflexivity.
Qed.

Lemma truncated_address_shows_the_ends_witness :
  truncateAddress ("0x75cf" ++ "ca25296896f907a457e20a245f9af304cb1e48723d864e17f2e08ad9" ++ "3159") 6 4
    = "0x75cf" ++ "..." ++ "3159" /\
  truncateAddress "0x1" 6 4 = "0x1" ++ "..." ++ "0x1".
Proof.
  split.
  - apply (proj1 truncated_address_shows_the_ends); reflexivity.
  - apply (proj2 truncated_address_shows_the_ends). cbn. lia.
Defined.

Lemma hex_pair_byte :
  forall c : ascii,
    ascii_of_nat
      (Z.to_nat
         (to_uint8
            (parseInt16
               (String (hex_digit (nat_of_ascii c / 16))
                  (String (hex_digit (nat_of_ascii c mod 16)) "")))))
    = c.
Proof.
  intro c. destruct c as [[] [] [] [] [] [] [] []]; vm_compute; reflexivity.
Qed.

Lemma slice_2_drops_two :
  forall (a b : ascii) (r : string),
    String_slice (String a (String b r)) 2 None = r.
Proof.
  intros a b r. unfold String_slice. cbn [Z.ltb Z.compare String.length].
  replace (Z.to_nat (Z.min 2 (Z.of_nat (S (S (String.length r))))))
    with 2%nat by lia.
  replace (Z.to_nat (Z.max (Z.of_nat (S (S (String.length r)))
                            - Z.min 2 (Z.of_nat (S (S (String.length r))))) 0))
    with (String.length r) by lia.
  cbn [substring]. apply substring_all.
Qed.

(** The decoding of the hexadecimal digits gives back the bytes. *)
Lemma hex_bytes_round_trip :
  forall s : string,
    string_of_bytes (hexToUint8Array (hex_of_bytes s)) = s.
Proof.
  induction s as [|c r IH]; [reflexivity|].
  cbn [hex_of_bytes hexToUint8Array string_of_bytes fold_right].
  fold (string_of_bytes (hexToUint8Array (hex_of_bytes r))).
  rewrite IH, hex_pair_byte. reflexivity.
Qed.

(** ASCII text is decoded to itself. *)
Lemma decodeText_ascii :
  forall s : string, ascii_text s = true -> decodeText s = s.
Proof.
  assert (Hd : forall s, ascii_text s = true -> utf8_decode None s = s).
  { induction s as [|c r IH]; [reflexivity|].
    cbn [ascii_text]. intro H. apply andb_prop in H. destruct H as [Hc Hr].
    cbn [utf8_decode utf8_feed]. unfold utf8_start. rewrite Hc.
    cbn [append]. rewrite (IH Hr). reflexivity. }
  intros s H. unfold decodeText. rewrite (Hd s H). cbv zeta.
  destruct s as [|c r]; [reflexivity|].
  cbn [ascii_text] in H. apply andb_prop in H. destruct H as [Hc _].
  replace (JS.starts_with byte_order_mark (String c r)) with false;
    [reflexivity|].
  unfold JS.starts_with, byte_order_mark.
  cbn [String.length substring String.eqb].
  destruct (Ascii.eqb_spec "239" c) as [<-|_]; [discriminate Hc|reflexivity].
Qed.

(** X22: a text field of a record, rendered by the gateway as [0x] followed
    by two hexadecimal digits per byte, is decoded to what [TextDecoder]
    makes of the bytes the ledger stores: the decoding of the digits gives
    back the bytes exactly.  Bytes that are ASCII text are decoded to that
    text.  A byte that is no UTF-8 comes out as U+FFFD, and a byte order
    mark at the start is dropped. *)
Theorem hex_field_round_trip :
  (forall s : string, decodeHexField (hex_field s) = decodeText s) /\
  (forall s : string,
      ascii_text s = true -> decodeHexField (hex_field s) = s) /\
  decodeHexField "0xff" = replacement /\
  decodeHexField "0xefbbbf4f4b" = "OK".
Proof.
  assert (H : forall s, decodeHexField (hex_field s) = decodeText s).
  { intro s. unfold decodeHexField, hex_field.
    cbn [append]. rewrite slice_2_drops_two, hex_bytes_round_trip.
    reflexivity. }
  split; [exact H|]. split; [|split; reflexivity].
  intros s Hs. rewrite H. apply decodeText_ascii, Hs.
Qed.

Lemma hexToUint8Array_pairs :
  forall (n : nat) (h : string),
    (String.length h <= n)%nat ->
    List.length (hexToUint8Array h) = (String.length h / 2)%nat /\
    Forall (fun b => 0 <= b < 256) (hexToUint8Array h) /\
    (Nat.even (String.length h) = true ->
     forall c : ascii, hexToUint8Array (h ++ String c "") = hexToUint8Array h).
Proof.
  induction n as [|n IH]; intros h Hn.
  - destruct h; [|cbn in Hn; lia]. repeat split. constructor.
  - destruct h as [|a [|b r]].
    + repeat split. constructor.
    + repeat split; [constructor|]. discriminate.
    + cbn [String.length] in Hn.
      destruct (IH r ltac:(lia)) as (H1 & H2 & H3).
      cbn [hexToUint8Array List.length String.length]. split; [|split].
      * rewrite H1. change (S (S (String.length r))) with (2 + String.length r)%nat.
        replace (2 + String.length r)%nat with (1 * 2 + String.length r)%nat by lia.
        rewrite Nat.div_add_l by lia. lia.
      * constructor; [|exact H2]. unfold to_uint8.
        destruct (parseInt16 _); [apply Z.mod_pos_bound; lia|lia].
      * intros He c. cbn [append hexToUint8Array]. f_equal. apply H3.
        exact He.
Qed.

(** X23: [hexToUint8Array] yields one byte for every two characters of its
    argument, whatever they are, each between 0 and 255; a single character
    left at the end is dropped. *)
Theorem hex_decoding_is_total :
  forall h : string,
    List.length (hexToUint8Array h) = (String.length h / 2)%nat /\
    Forall (fun b => 0 <= b < 256) (hexToUint8Array h) /\
    (Nat.even (String.length h) = true ->
     forall c : ascii, hexToUint8Array (h ++ String c "") = hexToUint8Array h).
Proof. intro h. apply (hexToUint8Array_pairs (String.length h)). lia. Qed.

Lemma hex_decoding_is_total_witness :
  List.length (hexToUint8Array "48656c6c6f") = (String.length "48656c6c6f" / 2)%nat /\
  Forall (fun b => 0 <= b < 256) (hexToUint8Array "48656c6c6f") /\
  forall c : ascii,
    hexToUint8Array ("48656c6c6f" ++ String c "") = hexToUint8Array "48656c6c6f".
Proof.
  destruct (hex_decoding_is_total "48656c6c6f") as (H1 & H2 & H3).
  split; [exact H1|]. split; [exact H2|]. exact (H3 eq_refl).
Defined.

End TextFields.

(** ** Identifiers *)

Section Identifiers.

Lemma decimal_digit :
  forall d : Z,
    0 <= d < 10 ->
    JS.is_digit (ascii_of_nat (Z.to_nat (48 + d))) = true /\
    JS.digit_val (ascii_of_nat (Z.to_nat (48 + d))) = d.
Proof.
  intros d Hd.
  assert (E : d = 0 \/ d = 1 \/ d = 2 \/ d = 3 \/ d = 4 \/ d = 5 \/ d = 6 \/
              d = 7 \/ d = 8 \/ d = 9) by lia.
  destruct E as [->|[->|[->|[->|[->|[->|[->|[->|[->| ->]]]]]]]]];
    split; reflexivity.
Qed.

Lemma read_digits_of_digits :
  forall (fuel : nat) (n acc k : Z) (rest : string),
    0 <= n < 10 ^ Z.of_nat fuel ->
    exists m : Z,
      0 <= m /\
      JS.read_digits (JS.Zdigits_rev fuel n ++ rest) acc k
      = JS.read_digits rest (acc * 10 ^ m + n) (k + m).
Proof.
  induction fuel as [|f IH]; intros n acc k rest Hn.
  - exists 0. split; [lia|]. assert (n = 0) by (cbn in Hn; lia). subst n.
    cbn [JS.Zdigits_rev append]. f_equal; lia.
  - cbn [JS.Zdigits_rev].
    assert (Hd : 0 <= n mod 10 < 10) by (apply Z.mod_pos_bound; lia).
    destruct (decimal_digit _ Hd) as [Hd1 Hd2].
    destruct (Z.ltb_spec n 10) as [Hlt|Hge].
    + exists 1. split; [lia|]. cbn [append JS.read_digits].
      rewrite Hd1, Hd2. rewrite Z.mod_small by lia. f_equal. lia.
    + assert (Hq : 0 <= n / 10 < 10 ^ Z.of_nat f).
      { split; [apply Z.div_pos; lia|].
        apply Z.div_lt_upper_bound; [lia|].
        rewrite Nat2Z.inj_succ, Z.pow_succ_r in Hn by lia. lia. }
      rewrite append_assoc.
      destruct (IH (n / 10) acc k
                   (String (ascii_of_nat (Z.to_nat (48 + n mod 10))) "" ++ rest)
                   Hq) as (m & Hm & E).
      exists (m + 1). split; [lia|]. rewrite E.
      cbn [append JS.read_digits]. rewrite Hd1, Hd2. f_equal.
      * rewrite Z.pow_add_r by lia.
        pose proof (Z.div_mod n 10 ltac:(lia)). lia.
      * lia.
Qed.

(** [Number] is the identity on the integers from 0 to 2^53. *)
Lemma Number_of_safe_integer :
  forall z : Z,
    0 <= z -> JS.safe_integer z = true -> JS.Number_of_integer z = z.
Proof.
  intros z Hz Hs. unfold JS.safe_integer in Hs. apply Z.leb_le in Hs.
  rewrite Z.abs_eq in Hs by exact Hz.
  destruct (Z.eq_dec z (2 ^ 53)) as [->|Hne]; [vm_compute; reflexivity|].
  destruct z as [|m|m]; [reflexivity| |lia].
  destruct (binary_normalize_small m ltac:(lia)) as (mz & k & Hk & Hmz & Hn & Hv).
  unfold JS.Number_of_integer, JS.b64. rewrite Hn.
  rewrite (FloatAxioms.Prim2SF_SF2Prim _ Hv). cbn [cond_Zopp].
  rewrite Z.shiftl_opp_r, Z.shiftr_div_pow2 by exact Hk.
  rewrite Hmz. apply Z.div_mul.
  pose proof (Z.pow_pos_nonneg 2 k ltac:(lia) Hk). lia.
Qed.

(** X24: an identifier that a number holds exactly (from 0 to 2^53) is held
    by the pages as it is, also where it goes through [Number], and the
    decimal string sent for it reads back as that identifier, so different
    identifiers of that range are sent as different strings.  Beyond 2^53
    the fusion page holds the nearest number in place of the identifier. *)
Theorem identifiers_are_sent_unchanged :
  forall z : Z,
    0 <= z -> JS.safe_integer z = true ->
    JS.Number_of_integer z = z /\
    parse_u64 (JS.show_Z z) = z /\
    forall z' : Z,
      0 <= z' -> JS.safe_integer z' = true ->
      JS.show_Z z' = JS.show_Z z -> z' = z.
Proof.
  assert (H : forall z, 0 <= z -> parse_u64 (JS.show_Z z) = z).
  { intros z Hz. unfold parse_u64, JS.show_Z.
    destruct (Z.ltb_spec z 0) as [Hneg|_]; [lia|]. unfold JS.show_nat.
    assert (Hb : 0 <= z < 10 ^ Z.of_nat (S (Z.to_nat (Z.log2 z)))).
    { split; [exact Hz|].
      rewrite Nat2Z.inj_succ, Z2Nat.id by apply Z.log2_nonneg.
      destruct (Z.eq_dec z 0) as [->|Hnz]; [reflexivity|].
      pose proof (Z.log2_spec z ltac:(lia)) as [_ Hl].
      apply (Z.lt_le_trans _ _ _ Hl).
      apply Z.pow_le_mono_l. pose proof (Z.log2_nonneg z). lia. }
    destruct (read_digits_of_digits _ z 0 0 "" Hb) as (m & Hm & E).
    replace (JS.Zdigits_rev (S (Z.to_nat (Z.log2 z))) z)
      with (JS.Zdigits_rev (S (Z.to_nat (Z.log2 z))) z ++ "")
      by (clear; induction (JS.Zdigits_rev _ z) as [|c r IH];
          [reflexivity|cbn; rewrite IH; reflexivity]).
    rewrite E. cbn [JS.read_digits]. lia. }
  intros z Hz Hs. split; [apply Number_of_safe_integer; assumption|].
  split; [apply H, Hz|].
  intros z' Hz' _ E. rewrite <- (H z Hz), <- (H z' Hz'), E. reflexivity.
Qed.

Lemma identifiers_are_sent_unchanged_witness :
  JS.Number_of_integer 42 = 42 /\
  parse_u64 (JS.show_Z 42) = 42 /\
  forall z' : Z,
    0 <= z' -> JS.safe_integer z' = true ->
    JS.show_Z z' = JS.show_Z 42 -> z' = 42.
Proof. apply (identifiers_are_sent_unchanged 42); [lia|reflexivity]. Defined.

(** Above 2^53 a number is not the identifier any more: the fusion page
    holds the NFT 2^53 + 1 under the id 2^53 and sends that. *)
Lemma identifier_beyond_the_safe_range :
  JS.safe_integer 9007199254740993 = false /\
  JS.Number_of_integer 9007199254740993 = 9007199254740992 /\
  JS.show_Z (NFTFusion.id
               (NFTFusion.decodeDetails
                  (mkRawDetails 9007199254740993 "" "" "" "" 0 false 1)))
  = "9007199254740992".
Proof. repeat split; vm_compute; reflexivity. Qed.

End Identifiers.
